(** * retroterm: the byte-stream translation pipeline

    A shallow embedding of the Go sources of the WebSocket <-> telnet/SSH
    bridge: the enhanced ANSI processor (ansi_enhanced.go), the telnet
    negotiation filter, the final CSI/SGR normalisation pass, the PETSCII
    control translator, the connect allow-list gate and the telnet read
    loop (main server file), and the lrzsz ZMODEM receiver.

    Further parts of the same files follow them: the joiner that holds
    back an incomplete escape sequence, the ATASCII translator and the
    translation of what is typed, the plain-text heuristic and the
    preamble hold of legacy sessions, the resize and connect-by-ID
    messages, the ANSI music detector, the cursor tracker and the final
    output guard.

    Conventions.
    - A Go [[]byte] is a [list Z]; every byte literal of the source is the
      same number here.  A loop [for i := ...; i < len(data); ...] over a
      slice is a recursion over the suffix [data[i:]]; [data[i+1]] is the
      second element of that suffix and [i+1 < len(data)] says that it
      exists.  Where the index jumps ahead, the recursion continues on the
      shorter suffix and is driven by a fuel argument that the entry point
      sets to [len(data)].
    - A struct with mutable fields is a record threaded through the calls.
    - Calls that leave the process (writes to sockets and pipes, JSON
      messages to the browser, spawning rz) are recorded as a list of
      events; what the environment answers (spawn and write failures, the
      clock, the directory loader) is an explicit argument.
    - Logging ([log.Printf], hex dumps) has no effect on the data and is
      left out. *)

From Stdlib Require Import ZArith List Bool Lia String Ascii.
Import ListNotations.
Open Scope Z_scope.

(** ** Go's [bytes] package, on [list Z] *)
Module GoBytes.

(** [bytes.Equal] *)
Fixpoint Equal (a b : list Z) : bool :=
  match a, b with
  | [], [] => true
  | x :: a', y :: b' => (x =? y) && Equal a' b'
  | _, _ => false
  end.

(** [bytes.HasPrefix] *)
Fixpoint HasPrefix (s prefix : list Z) {struct prefix} : bool :=
  match prefix, s with
  | [], _ => true
  | p :: prefix', x :: s' => (x =? p) && HasPrefix s' prefix'
  | _ :: _, [] => false
  end.

(** [bytes.Index]: the index of the first instance of [sep] in [s], or
    [-1] when there is none. *)
Fixpoint Index (s sep : list Z) : Z :=
  if HasPrefix s sep then 0
  else match s with
       | [] => -1
       | _ :: s' => let r := Index s' sep in
                    if r <? 0 then -1 else r + 1
       end.

(** [bytes.Contains] is [Index(b, subslice) != -1]. *)
Definition Contains (b subslice : list Z) : bool :=
  negb (Index b subslice =? -1).

(** Go's [len], as a [Z]. *)
Definition len {A} (s : list A) : Z := Z.of_nat (List.length s).

(** The slice expression [s[n:]] for [0 <= n <= len(s)]. *)
Definition from {A} (n : Z) (s : list A) : list A := skipn (Z.to_nat n) s.

End GoBytes.

(** ** ansi_enhanced.go *)
Module AnsiEnhanced.
Import GoBytes.

Definition ESC : Z := 0x1B.

(** [type ANSIEnhancedProcessor struct]; [debugMode] only switches
    logging on and is kept for the record's shape. *)
Record ANSIEnhancedProcessor := mkProcessor {
  inSequence : bool;
  sequenceBuffer : list Z;
  debugMode : bool
}.

(** [NewANSIEnhancedProcessor] *)
Definition NewANSIEnhancedProcessor (debug : bool) : ANSIEnhancedProcessor :=
  mkProcessor false [] debug.

Definition setSeq (p : ANSIEnhancedProcessor) (inSeq : bool) (buf : list Z) :=
  mkProcessor inSeq buf (debugMode p).

Definition isFinalByte (c : Z) : bool := (0x40 <=? c) && (c <=? 0x7E).

(** The OSC scan of [isSequenceComplete]: [prev] is
    [sequenceBuffer[i-1]], the list is [sequenceBuffer[i:]]. *)
Fixpoint oscTerminated (prev : Z) (l : list Z) : bool :=
  match l with
  | [] => false
  | c :: l' =>
      if c =? 0x07 then true
      else if (prev =? 0x1B) && (c =? 92) then true
      else oscTerminated c l'
  end.

(** [isSequenceComplete], on the sequence buffer. *)
Definition isSequenceComplete (buf : list Z) : bool :=
  match buf with
  | [] | [_] => false                       (* len < 2 *)
  | _ :: second :: rest =>
      let tooLong := 100 <? len buf in      (* the check after the switch *)
      if second =? 91 then                  (* '[': CSI *)
        if existsb isFinalByte rest then true else tooLong
      else if second =? 93 then             (* ']': OSC *)
        if oscTerminated second rest then true else tooLong
      else if (second =? 40) || (second =? 41) ||
              (second =? 42) || (second =? 43) then   (* ( ) * + *)
        3 <=? len buf
      else if (second =? 55) || (second =? 56) then   (* 7 8 *)
        true
      else if (second =? 99) || (second =? 68) ||
              (second =? 77) || (second =? 69) then   (* c D M E *)
        true
      else if (0x40 <=? second) && (second <=? 0x7F) then true
      else tooLong
  end.

(** [processCompleteSequence], on the sequence buffer. *)
Definition processCompleteSequence (buf : list Z) : list Z :=
  if Equal buf [0x1B; 91; 74] then [0x1B; 91; 48; 74]            (* ESC[J *)
  else if Equal buf [0x1B; 91; 75] then [0x1B; 91; 48; 75]       (* ESC[K *)
  else if Equal buf [0x1B; 91; 109] then [0x1B; 91; 48; 109]     (* ESC[m *)
  else
    let csi4 := match buf with
                | b0 :: b1 :: _ => (4 <=? len buf) && (b0 =? 0x1B) && (b1 =? 91)
                | _ => false
                end in
    if csi4 && (Equal buf [0x1B; 91; 50; 74] ||
                Equal buf [0x1B; 91; 48; 59; 50; 74])
    then [0x1B; 91; 50; 74; 0x1B; 91; 72]
    else if csi4 && Contains buf [50; 74]
    then buf ++ [0x1B; 91; 72]
    else buf.

(** The body of the [for] loop of [ProcessANSIData]: one input byte,
    the processor and the result so far. *)
Definition processByte (p : ANSIEnhancedProcessor) (result : list Z) (b : Z)
  : ANSIEnhancedProcessor * list Z :=
  if b =? 0x9B then (setSeq p true [0x1B; 91], result)           (* CSI *)
  else if b =? 0x9D then (setSeq p true [0x1B; 93], result)      (* OSC *)
  else if b =? 0x90 then (setSeq p true [0x1B; 80], result)      (* DCS *)
  else if b =? 0x9C then                                         (* ST *)
    if inSequence p
    then (setSeq p false [],
          result ++ processCompleteSequence (sequenceBuffer p ++ [0x1B; 92]))
    else (p, result ++ [0x1B; 92])
  else if b =? 0x0C then (p, result ++ [0x1B; 91; 50; 74] ++ [0x1B; 91; 72])
  else if b =? 0x0E then (p, result ++ [b])
  else if b =? 0x0F then (p, result ++ [b])
  else if b =? 0x1B then (setSeq p true [b], result)
  else if inSequence p then
    let buf := sequenceBuffer p ++ [b] in
    if isSequenceComplete buf
    then (setSeq p false [], result ++ processCompleteSequence buf)
    else (setSeq p (inSequence p) buf, result)
  else (p, result ++ [b]).

Fixpoint processLoop (p : ANSIEnhancedProcessor) (result data : list Z)
  : ANSIEnhancedProcessor * list Z :=
  match data with
  | [] => (p, result)
  | b :: data' =>
      let '(p', result') := processByte p result b in
      processLoop p' result' data'
  end.

(** [ProcessANSIData]: the processor after the call and the returned
    slice.  After the loop a non-empty sequence buffer is appended to
    the result and stays in the processor. *)
Definition ProcessANSIData (p : ANSIEnhancedProcessor) (data : list Z)
  : ANSIEnhancedProcessor * list Z :=
  let '(p', result) := processLoop p [] data in
  if 0 <? len (sequenceBuffer p')
  then (p', result ++ sequenceBuffer p')
  else (p', result).

(** Feeding a stream chunk by chunk to one processor: the
    concatenation of everything the calls return. *)
Fixpoint feedChunks (p : ANSIEnhancedProcessor) (chunks : list (list Z))
  : ANSIEnhancedProcessor * list Z :=
  match chunks with
  | [] => (p, [])
  | ch :: chunks' =>
      let '(p1, out1) := ProcessANSIData p ch in
      let '(p2, out2) := feedChunks p1 chunks' in
      (p2, out1 ++ out2)
  end.

End AnsiEnhanced.


(** ** Go's [strings] package, on ASCII strings

    [strings.ToUpper], [strings.ToLower] and [strings.EqualFold] as they
    act on ASCII text: the letters a-z and A-Z are folded, every other
    character is left alone.  The strings the server compares this way are
    charset names, protocol names and host names. *)
Module GoStrings.

Definition upperChar (a : ascii) : ascii :=
  let n := nat_of_ascii a in
  if (Nat.leb 97 n && Nat.leb n 122)%bool then ascii_of_nat (n - 32) else a.

Definition lowerChar (a : ascii) : ascii :=
  let n := nat_of_ascii a in
  if (Nat.leb 65 n && Nat.leb n 90)%bool then ascii_of_nat (n + 32) else a.

Fixpoint ToUpper (s : string) : string :=
  match s with
  | EmptyString => EmptyString
  | String a s' => String (upperChar a) (ToUpper s')
  end.

Fixpoint ToLower (s : string) : string :=
  match s with
  | EmptyString => EmptyString
  | String a s' => String (lowerChar a) (ToLower s')
  end.

Fixpoint EqualFold (s t : string) : bool :=
  match s, t with
  | EmptyString, EmptyString => true
  | String a s', String b t' =>
      Ascii.eqb (lowerChar a) (lowerChar b) && EqualFold s' t'
  | _, _ => false
  end.

(** [[]byte(s)] *)
Definition bytesOf (s : string) : list Z :=
  map (fun a => Z.of_N (N_of_ascii a)) (list_ascii_of_string s).

End GoStrings.

(** ** What the server does to the outside world *)
Inductive Event :=
| TelnetWrite (b : list Z)          (* [conn.Write] on the telnet socket *)
| RzStdinWrite (b : list Z)         (* [l.rzStdin.Write] *)
| SendJSON (type message : string)  (* [c.sendJSON(Message{Type, Message})] *)
| FileDownload (name : string) (data : list Z)
                                    (* [sendFileToClient]: a "fileDownload" message *)
| DisplayPath (cleanData : list Z)  (* the chunk enters the display pipeline of
                                       [readTelnet], which ends in the "data"
                                       message to the browser *)
| SendToRemote (data : list Z)      (* [l.client.sendToRemote] *)
| ConnectTelnet (host : string) (port : Z)       (* [go client.connectTelnet] *)
| ConnectSSH (host : string) (port : Z) (username password : string).

(** ** The telnet side of [type Client struct] and [processTelnetData] *)
Module Telnet.
Import GoBytes GoStrings.

Definition IAC  : Z := 255.
Definition DONT : Z := 254.
Definition DO   : Z := 253.
Definition WONT : Z := 252.
Definition WILL : Z := 251.
Definition SB   : Z := 250.
Definition SE   : Z := 240.
Definition TELOPT_TTYPE : Z := 24.
Definition TELOPT_NAWS  : Z := 31.
Definition TELQUAL_IS   : Z := 0.
Definition TELQUAL_SEND : Z := 1.
Definition BINARY : Z := 0.

(** The fields of [Client] the byte pipeline reads or writes.
    [telnet] is [c.telnet != nil]. *)
Record Client := mkClient {
  telnet : bool;
  charset : string;
  suppressZmodem : bool;
  suppressUntil : Z;
  telnetBinaryTX : bool;
  telnetBinaryRX : bool;
  telnetNAWS : bool;
  telnetTTYPE : bool;
  termCols : Z;
  termRows : Z
}.

Definition set_charset (c : Client) (v : string) : Client :=
  mkClient (telnet c) v (suppressZmodem c) (suppressUntil c)
           (telnetBinaryTX c) (telnetBinaryRX c) (telnetNAWS c)
           (telnetTTYPE c) (termCols c) (termRows c).
Definition set_suppress (c : Client) (v : bool) (until : Z) : Client :=
  mkClient (telnet c) (charset c) v until
           (telnetBinaryTX c) (telnetBinaryRX c) (telnetNAWS c)
           (telnetTTYPE c) (termCols c) (termRows c).
Definition set_telnetBinaryTX (c : Client) (v : bool) : Client :=
  mkClient (telnet c) (charset c) (suppressZmodem c) (suppressUntil c)
           v (telnetBinaryRX c) (telnetNAWS c)
           (telnetTTYPE c) (termCols c) (termRows c).
Definition set_telnetBinaryRX (c : Client) (v : bool) : Client :=
  mkClient (telnet c) (charset c) (suppressZmodem c) (suppressUntil c)
           (telnetBinaryTX c) v (telnetNAWS c)
           (telnetTTYPE c) (termCols c) (termRows c).
Definition set_telnetNAWS (c : Client) (v : bool) : Client :=
  mkClient (telnet c) (charset c) (suppressZmodem c) (suppressUntil c)
           (telnetBinaryTX c) (telnetBinaryRX c) v
           (telnetTTYPE c) (termCols c) (termRows c).
Definition set_term (c : Client) (cols rows : Z) : Client :=
  mkClient (telnet c) (charset c) (suppressZmodem c) (suppressUntil c)
           (telnetBinaryTX c) (telnetBinaryRX c) (telnetNAWS c)
           (telnetTTYPE c) cols rows.
Definition set_telnetTTYPE (c : Client) (v : bool) : Client :=
  mkClient (telnet c) (charset c) (suppressZmodem c) (suppressUntil c)
           (telnetBinaryTX c) (telnetBinaryRX c) (telnetNAWS c)
           v (termCols c) (termRows c).

(** [buildNAWSSB] *)
Definition buildNAWSSB (c : Client) : list Z :=
  let zero := (termCols c =? 0) || (termRows c =? 0) in
  let cols := if zero then 80 else termCols c in
  let rows := if zero then 25 else termRows c in
  [IAC; SB; TELOPT_NAWS;
   Z.land (Z.shiftr cols 8) 0xFF; Z.land cols 0xFF;
   Z.land (Z.shiftr rows 8) 0xFF; Z.land rows 0xFF;
   IAC; SE].

(** The answer to [IAC cmd option]: the client after the flag updates
    and the bytes appended to [response]. *)
Definition negotiate (c : Client) (cmd option : Z) : Client * list Z :=
  if cmd =? DO then
    if option =? BINARY then (set_telnetBinaryTX c true, [IAC; WILL; option])
    else if option =? TELOPT_NAWS then
      let c' := set_telnetNAWS c true in
      (c', [IAC; WILL; option] ++ buildNAWSSB c')
    else if option =? TELOPT_TTYPE then
      (set_telnetTTYPE c true, [IAC; WILL; option])
    else (c, [IAC; WONT; option])
  else if cmd =? DONT then
    let c1 := if option =? BINARY then set_telnetBinaryTX c false else c in
    let c2 := if option =? TELOPT_NAWS then set_telnetNAWS c1 false else c1 in
    (c2, [IAC; WONT; option])
  else if cmd =? WILL then
    if option =? BINARY then (set_telnetBinaryRX c true, [IAC; DO; option])
    else (c, [IAC; DONT; option])
  else if cmd =? WONT then
    (if option =? BINARY then set_telnetBinaryRX c false else c,
     [IAC; DONT; option])
  else (c, []).

(** The inner loop of the subnegotiation branch,
    [for j < len(data)-1 { if data[j] == IAC && data[j+1] == SE ... j++ }],
    started at [sbStart] on the suffix [data[sbStart:]]. *)
Inductive SBScan :=
| SBFound (sb after : list Z)   (* [sb = data[sbStart:j]], [after = data[j+2:]] *)
| SBUnterminated (atJ : list Z).  (* the loop ran out: [atJ = data[j:]] *)

Fixpoint scanSB (l : list Z) : SBScan :=
  match l with
  | a :: ((b :: l'') as l') =>
      if (a =? IAC) && (b =? SE) then SBFound [] l''
      else match scanSB l' with
           | SBFound sb after => SBFound (a :: sb) after
           | SBUnterminated atJ => SBUnterminated atJ
           end
  | _ => SBUnterminated l
  end.

(** The terminal type sent in answer to TTYPE SEND. *)
Definition termType (c : Client) : string :=
  let cs := ToUpper (charset c) in
  if (String.eqb cs "PETSCIIU" || String.eqb cs "PETSCIIL")%string then "PETSCII"%string
  else if String.eqb cs "ATASCII" then "ATASCII"%string
  else "ansi"%string.

(** The [for i < len(data)] loop of [processTelnetData] on the suffix
    [data[i:]], with the accumulators [clean] and [response]. *)
Fixpoint telnetLoop (fuel : nat) (c : Client) (data clean response : list Z)
  : Client * list Z * list Z :=
  match fuel with
  | O => (c, clean, response)
  | S fuel' =>
    match data with
    | [] => (c, clean, response)
    | d0 :: rest0 =>
      if d0 =? IAC then
        match rest0 with
        | [] => telnetLoop fuel' c rest0 clean response          (* i++ *)
        | d1 :: rest1 =>                                         (* i+1 < len *)
          if d1 =? IAC then
            telnetLoop fuel' c rest1 (clean ++ [IAC]) response   (* escaped IAC *)
          else
            match rest1 with
            | option :: rest2 =>                                 (* i+2 < len *)
              if (SE <=? d1) && (d1 <=? DONT) then
                let '(c', resp) := negotiate c d1 option in
                telnetLoop fuel' c' rest2 clean (response ++ resp)   (* i += 3 *)
              else if d1 =? SB then
                (* j = i+2 < len; opt = data[j]; sbStart = i+3 *)
                match scanSB rest2 with
                | SBFound sb after =>
                    let resp :=
                      if (option =? TELOPT_TTYPE) &&
                         match sb with s0 :: _ => s0 =? TELQUAL_SEND | [] => false end
                      then [IAC; SB; TELOPT_TTYPE; TELQUAL_IS]
                             ++ bytesOf (termType c) ++ [IAC; SE]
                      else [] in
                    telnetLoop fuel' c after clean (response ++ resp)  (* i = j+2 *)
                | SBUnterminated atJ =>
                    telnetLoop fuel' c atJ clean response              (* i = j *)
                end
              else telnetLoop fuel' c rest1 clean response       (* i += 2 *)
            | [] =>                                              (* i+2 >= len *)
              if d1 =? SB then
                telnetLoop fuel' c rest1 clean response          (* j >= len: i += 2 *)
              else telnetLoop fuel' c rest1 clean response       (* i += 2 *)
            end
        end
      else telnetLoop fuel' c rest0 (clean ++ [d0]) response
    end
  end.

(** [processTelnetData]: the client after the call, the returned clean
    stream, and the negotiation answer written to the socket. *)
Definition processTelnetData (c : Client) (data : list Z)
  : Client * list Z * list Event :=
  let '(c', clean, response) := telnetLoop (List.length data) c data [] [] in
  (c', clean,
   if (0 <? len response) && telnet c' then [TelnetWrite response] else []).

(** The clean stream alone. *)
Definition cleanOf (c : Client) (data : list Z) : list Z :=
  snd (fst (processTelnetData c data)).

End Telnet.


(** ** The final CSI/SGR normalisation pass, [normalizeCSISGRAny] *)
Module Normalize.
Import GoBytes.

(** A CSI final byte, [c >= 0x40 && c <= 0x7E]. *)
Definition isFinal (c : Z) : bool := (0x40 <=? c) && (c <=? 0x7E).

(** A parameter byte the validity loops accept,
    [d == ';' || (d >= '0' && d <= '9')]. *)
Definition isParam (d : Z) : bool := (d =? 59) || ((48 <=? d) && (d <=? 57)).

(** The inner loop [for j < len(in)] started at [j = i+2], on the suffix
    [in[i+2:]]: the bytes before the first final byte ([in[i+2:j]]),
    that byte ([in[j]]) and what follows it ([in[j+1:]]); [None] when the
    input ends first. *)
Fixpoint csiFinal (l : list Z) : option (list Z * Z * list Z) :=
  match l with
  | [] => None
  | c :: l' =>
      if isFinal c then Some ([], c, l')
      else match csiFinal l' with
           | Some (params, f, rest) => Some (c :: params, f, rest)
           | None => None
           end
  end.

(** [isPrivate]: [i+2 < len(in) && in[i+2] == '?'], on [in[i+2:]]. *)
Definition isPrivate (body : list Z) : bool :=
  match body with
  | first :: _ => first =? 63
  | [] => false
  end.

(** The final byte that is written for the sequence
    [ESC '[' params c] whose bytes after the introducer are [body]. *)
Definition fixFinal (body params : list Z) (c : Z) : Z :=
  if negb (isPrivate body) then
    if c =? 77 then                       (* 'M' *)
      if forallb isParam params then 109 else c         (* 'm' *)
    else if c =? 106 then                 (* 'j' *)
      if forallb isParam params then 74 else c          (* 'J' *)
    else c
  else c.

(** The outer loop on the suffix [in[i:]]; what it returns is what the
    loop appends to [out] from there on. *)
Fixpoint normalizeLoop (fuel : nat) (inp : list Z) : list Z :=
  match fuel with
  | O => []
  | S fuel' =>
    match inp with
    | [] => []
    | b :: rest =>
      match rest with
      | n1 :: body =>
        if (b =? 0x1B) && (n1 =? 91) then            (* ESC '[' *)
          match csiFinal body with
          | Some (params, c, after) =>
              [0x1B; 91] ++ params ++ [fixFinal body params c]
                ++ normalizeLoop fuel' after            (* i = j; goto next *)
          | None => [0x1B; 91] ++ body                  (* incomplete: copy, break *)
          end
        else b :: normalizeLoop fuel' rest
      | [] => b :: normalizeLoop fuel' rest
      end
    end
  end.

(** [normalizeCSISGRAny] *)
Definition normalizeCSISGRAny (inp : list Z) : list Z :=
  if len inp <? 3 then inp
  else normalizeLoop (List.length inp) inp.

End Normalize.

(** ** The PETSCII control translator, [translatePETSCIIToANSI] *)
Module Petscii.
Import GoBytes GoStrings Telnet.

(** [colorMap]: PETSCII colour code to SGR foreground parameter. *)
Definition colorMap (b : Z) : option string :=
  if b =? 0x05 then Some "97"%string
  else if b =? 0x1C then Some "31"%string
  else if b =? 0x1E then Some "32"%string
  else if b =? 0x1F then Some "34"%string
  else if b =? 0x90 then Some "30"%string
  else if b =? 0x81 then Some "33"%string
  else if b =? 0x95 then Some "33"%string
  else if b =? 0x96 then Some "91"%string
  else if b =? 0x97 then Some "90"%string
  else if b =? 0x98 then Some "37"%string
  else if b =? 0x99 then Some "92"%string
  else if b =? 0x9A then Some "94"%string
  else if b =? 0x9B then Some "37"%string
  else if b =? 0x9C then Some "35"%string
  else if b =? 0x9E then Some "93"%string
  else if b =? 0x9F then Some "96"%string
  else None.

(** [for i+1 < len(data) && data[i+1] == 0x0D { i++ }] on the suffix
    [data[i+1:]]: what is left of it when the loop stops. *)
Fixpoint skipCRs (l : list Z) : list Z :=
  match l with
  | c :: l' => if c =? 0x0D then skipCRs l' else l
  | [] => l
  end.

(** The body of the loop of [translatePETSCIIToANSI] at the byte
    [b = data[i]], with [rest = data[i+1:]]: the bytes appended to
    [out], the client (its charset can be switched in band) and the
    suffix the loop goes on with. *)
Definition translateByte (c : Client) (b : Z) (rest : list Z)
  : list Z * Client * list Z :=
  if b =? 0x07 then ([0x07], c, rest)
  else if b =? 0x09 then ([0x09], c, rest)
  else if b =? 0x0E then ([], set_charset c "PETSCIIL", rest)
  else if b =? 0x0F then ([], c, rest)
  else if b =? 0x8E then ([], set_charset c "PETSCIIU", rest)
  else if b =? 0x11 then ([0x1B; 91; 66], c, rest)           (* ESC[B *)
  else if b =? 0x91 then ([0x1B; 91; 65], c, rest)           (* ESC[A *)
  else if b =? 0x1D then ([0x1B; 91; 67], c, rest)           (* ESC[C *)
  else if b =? 0x9D then ([0x1B; 91; 68], c, rest)           (* ESC[D *)
  else if b =? 0x14 then ([0x08; 32; 0x08], c, rest)
  else if b =? 0x13 then ([0x1B; 91; 72], c, rest)           (* ESC[H *)
  else if b =? 0x93 then ([0x1B; 91; 50; 74; 0x1B; 91; 72], c, rest)
  else if b =? 0x12 then ([0x1B; 91; 55; 109], c, rest)      (* ESC[7m *)
  else if b =? 0x92 then ([0x1B; 91; 50; 55; 109], c, rest)  (* ESC[27m *)
  else if b =? 0x0D then
    let rest' := skipCRs rest in         (* skip all consecutive CRs *)
    let lf := match rest' with
              | next :: _ => if next =? 10 then [] else [10]
              | [] => [10]
              end in
    ([13] ++ lf, c, rest')
  else match colorMap b with
       | Some sgr => ([0x1B; 91] ++ bytesOf sgr ++ [109], c, rest)
       | None => ([b], c, rest)
       end.

Fixpoint translateLoop (fuel : nat) (c : Client) (data : list Z)
  : Client * list Z :=
  match fuel with
  | O => (c, [])
  | S fuel' =>
    match data with
    | [] => (c, [])
    | b :: rest =>
        let '(bytes, c', next) := translateByte c b rest in
        let '(c'', out) := translateLoop fuel' c' next in
        (c'', bytes ++ out)
    end
  end.

(** [translatePETSCIIToANSI] *)
Definition translatePETSCIIToANSI (c : Client) (data : list Z)
  : Client * list Z :=
  translateLoop (List.length data) c data.

End Petscii.


(** ** The lrzsz ZMODEM receiver *)
Module Lrzsz.
Import GoBytes GoStrings Telnet.

(** How [startRz] fares: the step that fails, or success. *)
Inductive RzOutcome :=
| FailMkdirTemp | FailStdinPipe | FailStdoutPipe | FailStderrPipe
| FailStart | Started.

(** What the environment answers while one chunk is handled. *)
Record Env := mkEnv {
  now : Z;                 (* [time.Now()], in milliseconds *)
  rzSpawn : RzOutcome;     (* what [startRz] meets, if it is called *)
  rzWriteOk : bool;        (* whether [l.rzStdin.Write] succeeds *)
  rzFiles : list (string * list Z)
                           (* the files rz left in its directory, as
                              [completeTransfer] reads them *)
}.

(** [type LrzszReceiver struct].  [tempDir] is [l.tempDir != ""];
    [rzStdin] is [None] for a nil pipe and otherwise holds the bytes
    written to rz so far.  The process handle and the output pipe do
    not enter the data path and are left out. *)
Record LrzszReceiver := mkReceiver {
  active : bool;
  tempDir : bool;
  rzStdin : option (list Z);
  buffer : list Z;
  startTime : Z;
  lastActivity : Z
}.

(** [NewLrzszReceiver] *)
Definition NewLrzszReceiver : LrzszReceiver :=
  mkReceiver false false None [] 0 0.

Definition set_buffer (l : LrzszReceiver) (b : list Z) : LrzszReceiver :=
  mkReceiver (active l) (tempDir l) (rzStdin l) b (startTime l) (lastActivity l).
Definition set_rzStdin (l : LrzszReceiver) (p : option (list Z)) : LrzszReceiver :=
  mkReceiver (active l) (tempDir l) p (buffer l) (startTime l) (lastActivity l).
Definition set_tempDir (l : LrzszReceiver) (d : bool) : LrzszReceiver :=
  mkReceiver (active l) d (rzStdin l) (buffer l) (startTime l) (lastActivity l).
Definition set_lastActivity (l : LrzszReceiver) (t : Z) : LrzszReceiver :=
  mkReceiver (active l) (tempDir l) (rzStdin l) (buffer l) (startTime l) t.
Definition activate (l : LrzszReceiver) (t : Z) : LrzszReceiver :=
  mkReceiver true (tempDir l) (rzStdin l) (buffer l) t t.

(** [Active] *)
Definition Active (l : LrzszReceiver) : bool := active l.

(** [headerPatterns] of [findZmodemStartIndex] *)
Definition headerPatterns : list (list Z) :=
  [ [0x2A; 0x2A; 0x18; 0x42; 0x30; 0x30];
    [0x2A; 0x2A; 0x18; 0x41];
    [0x2A; 0x2A; 0x18; 0x43];
    [0x18; 0x42; 0x30; 0x30];
    [0x18; 0x43; 0x04] ].

(** The loop [for _, p := range headerPatterns] with its variable
    [first]. *)
Fixpoint firstIndex (data : list Z) (patterns : list (list Z)) (first : Z) : Z :=
  match patterns with
  | [] => first
  | p :: patterns' =>
      let idx := Index data p in
      let first' :=
        if negb (idx =? -1) then
          if (first =? -1) || (idx <? first) then idx else first
        else first in
      firstIndex data patterns' first'
  end.

(** [findZmodemStartIndex] *)
Definition findZmodemStartIndex (data : list Z) : Z * bool :=
  let first := firstIndex data headerPatterns (-1) in
  if 0 <=? first then (first, true) else (0, false).

(** [requestTelnetBinary] *)
Definition requestTelnetBinary (c : Client) : list Event :=
  if telnet c then [TelnetWrite [IAC; DO; BINARY; IAC; WILL; BINARY]] else [].

(** [startRz]: the receiver, what was sent, and whether it returned
    [nil]. *)
Definition startRz (e : Env) (c : Client) (l : LrzszReceiver)
  : LrzszReceiver * list Event * bool :=
  match rzSpawn e with
  | FailMkdirTemp => (l, [], false)
  | FailStdinPipe => (set_tempDir l true, [], false)
  | FailStdoutPipe | FailStderrPipe =>
      (set_rzStdin (set_tempDir l true) (Some []), [], false)
  | FailStart =>
      (set_rzStdin (set_tempDir l true) (Some []), requestTelnetBinary c, false)
  | Started =>
      (set_rzStdin (set_tempDir l true) (Some []),
       requestTelnetBinary c
         ++ [SendJSON "downloadStart" "ZMODEM transfer starting..."],
       true)
  end.

(** [completeTransfer] *)
Definition completeTransfer (e : Env) (l : LrzszReceiver)
  : LrzszReceiver * list Event :=
  (mkReceiver false false None [] (startTime l) (lastActivity l),
   if tempDir l
   then map (fun f => FileDownload (fst f) (snd f)) (rzFiles e)
   else []).

(** [Cancel] *)
Definition Cancel (l : LrzszReceiver) : LrzszReceiver * list Event :=
  if negb (active l) then (l, [])
  else (mkReceiver false false None [] (startTime l) (lastActivity l),
        [SendToRemote [0x18; 0x18; 0x18; 0x18; 0x18; 0x18; 0x18; 0x18]]).

(** [l.rzStdin.Write(b)] on an open pipe [pipe]: the pipe after the
    call and the recorded call. *)
Definition writeRz (e : Env) (pipe b : list Z) : list Z * list Event :=
  (if rzWriteOk e then pipe ++ b else pipe, [RzStdinWrite b]).

(** The escaping loop of [forwardRzStdoutToRemote],
    [for _, b := range buf[:n]]: every byte is copied and an IAC byte
    is doubled. *)
Fixpoint escapeIAC (buf : list Z) : list Z :=
  match buf with
  | [] => []
  | b :: buf' =>
      (if b =? 255 then [b; 255] else [b]) ++ escapeIAC buf'
  end.

(** The result of [ProcessData]: the client and the receiver after the
    call, the two return values, and what was sent. *)
Record Result := mkResult {
  client' : Client;
  receiver' : LrzszReceiver;
  remaining : list Z;
  consumed : bool;
  events : list Event
}.

(** [ProcessData] *)
Definition ProcessData (e : Env) (c : Client) (l : LrzszReceiver)
           (data : list Z) : Result :=
  if negb (active l) then
    let buf := buffer l ++ data in                 (* l.buffer = append(...) *)
    let l := set_buffer l buf in
    let '(startIdx, ok) := findZmodemStartIndex buf in
    if ok then
      let '(l1, evStart, started) := startRz e c l in
      if negb started then
        mkResult c (set_buffer l1 []) data false evStart
      else
        let l2 := activate l1 (now e) in
        let evStatus :=
          [SendJSON "zmodemStatus" "File transfer started (using rz)..."] in
        match rzStdin l2 with
        | Some pipe =>
            if startIdx <? len buf then
              let initial := from startIdx buf in
              let '(c1, clean, evTel) := processTelnetData c initial in
              let '(pipe', evW) :=
                if 0 <? len clean then writeRz e pipe clean else (pipe, []) in
              mkResult c1 (set_buffer (set_rzStdin l2 (Some pipe')) [])
                       [] true (evStart ++ evStatus ++ evTel ++ evW)
            else
              mkResult c (set_buffer l2 []) [] true (evStart ++ evStatus)
        | None =>
            mkResult c (set_buffer l2 []) [] true (evStart ++ evStatus)
        end
    else
      let l' := if 1024 <? len buf then set_buffer l (from 512 buf) else l in
      mkResult c l' data false []
  else
    match rzStdin l with
    | Some pipe =>                          (* l.active && l.rzStdin != nil *)
        let '(c1, clean, evTel) := processTelnetData c data in
        let l1 := set_lastActivity l (now e) in
        let '(pipe', evW) := writeRz e pipe clean in
        if rzWriteOk e then
          mkResult c1 (set_rzStdin l1 (Some pipe')) [] true (evTel ++ evW)
        else
          let '(l2, evDone) := completeTransfer e l1 in
          mkResult c1 l2 [] true (evTel ++ evW ++ evDone)
    | None => mkResult c l data false []
    end.

End Lrzsz.

(** ** The session: the telnet read loop and the connect gate *)
Module Server.
Import GoBytes GoStrings Telnet Lrzsz.

(** [type BBSInfo struct] *)
Record BBSInfo := mkBBS {
  ID : string;
  Name : string;
  Host : string;
  Port : Z;
  Protocol : string;
  Description : string;
  Encoding : string;
  Location : string
}.

(** The fields of [type Message struct] a connect request carries. *)
Record Message := mkMessage {
  msgType : string;
  msgHost : string;
  msgPort : Z;
  msgProtocol : string;
  msgUsername : string;
  msgPassword : string;
  msgCharset : string
}.

(** [refreshApprovedBBSList]: the new [ApprovedBBSList], given what
    [GetBBSDirectoryEntries] returns ([None] for an error). *)
Definition refreshApprovedBBSList (directory : option (list BBSInfo))
  : list BBSInfo :=
  match directory with
  | Some entries =>
      if 0 <? len entries then
        map (fun e => mkBBS (ID e) (Name e) (Host e) (Port e)
                            (ToLower (Protocol e)) (Description e)
                            (Encoding e) (Location e)) entries
      else []
  | None => []
  end.

(** [setCharsetAndAdjust] *)
Definition setCharsetAndAdjust (c : Client) (cs : string)
  : Client * list Event :=
  let up := ToUpper cs in
  let c1 := set_charset c cs in
  let c2 :=
    if (String.eqb up "PETSCIIU" || String.eqb up "PETSCIIL"
        || String.eqb up "ATASCII")%string
    then set_term c1 40 25
    else set_term c1 (if termCols c1 <? 80 then 80 else termCols c1)
                     (if termRows c1 <? 25 then 25 else termRows c1) in
  (c2,
   if telnet c2 && telnetNAWS c2 &&
      (negb (termCols c =? termCols c2) || negb (termRows c =? termRows c2))
   then [TelnetWrite (buildNAWSSB c2)] else []).

(** The test of the allow-list loop of [handleWebSocket]. *)
Definition matchesBBS (msg : Message) (bbs : BBSInfo) : bool :=
  EqualFold (Host bbs) (msgHost msg) &&
  (Port bbs =? msgPort msg) &&
  EqualFold (Protocol bbs) (msgProtocol msg).

(** [case "connect":] of [handleWebSocket]: the allow-list and the
    client after the message, and what was done. *)
Definition handleConnect (directory : option (list BBSInfo))
           (ApprovedBBSList : list BBSInfo) (c : Client) (msg : Message)
  : list BBSInfo * Client * list Event :=
  let approved :=
    if len ApprovedBBSList =? 0
    then refreshApprovedBBSList directory       (* lazy refresh *)
    else ApprovedBBSList in
  let isApproved := existsb (matchesBBS msg) approved in
  if negb isApproved then
    (approved, c,
     [SendJSON "error" "Connection blocked: Host not in approved list"])
  else
    let '(c1, evCs) :=
      if negb (String.eqb (msgCharset msg) "")
      then setCharsetAndAdjust c (msgCharset msg) else (c, []) in
    let evDial :=
      if String.eqb (msgProtocol msg) "telnet"
      then [ConnectTelnet (msgHost msg) (msgPort msg)]
      else if String.eqb (msgProtocol msg) "ssh"
      then [ConnectSSH (msgHost msg) (msgPort msg)
                       (msgUsername msg) (msgPassword msg)]
      else [] in
    (approved, c1, evCs ++ evDial).

(** [hasZmodemSignature] *)
Definition hasZmodemSignature (data : list Z) : bool :=
  existsb (Contains data)
          [ [0x2A; 0x2A; 0x18; 0x42; 0x30; 0x30];
            [0x2A; 0x18; 0x43];
            [114; 122; 13] ].                         (* "rz\r" *)

(** One browser session on a telnet connection. *)
Record Session := mkSession {
  client : Client;
  zmodemReceiver : option LrzszReceiver
}.

(** [c.zmodemReceiver != nil && c.zmodemReceiver.Active()] *)
Definition receiverActive (r : option LrzszReceiver) : bool :=
  match r with
  | Some l => Active l
  | None => false
  end.

(** One iteration of the [for] loop of [readTelnet] after a successful
    [conn.Read] of [rawData]: up to the point where the cleaned chunk is
    handed to the display pipeline. *)
Definition readTelnetChunk (e : Env) (s : Session) (rawData : list Z)
  : Session * list Event :=
  if negb (0 <? len rawData) then (s, [])              (* if n > 0 *)
  else
    let c := client s in
    (* pre-suppress on the first signature before the receiver activates *)
    let c :=
      if hasZmodemSignature rawData && negb (receiverActive (zmodemReceiver s))
      then if negb (suppressZmodem c)
           then set_suppress c true (now e + 5000) else c
      else c in
    let '(c, recv, cleanData, evs) :=
      match zmodemReceiver s with
      | Some l =>
          let r := ProcessData e c l rawData in
          let '(c1, cleanData, evs1) :=
            if consumed r
            then (client' r,
                  if 0 <? len (remaining r) then remaining r else [],
                  [])
            else processTelnetData (client' r) rawData in
          (c1, Some (receiver' r),
           if Active (receiver' r) then [] else cleanData,
           events r ++ evs1)
      | None =>
          let '(c1, cleanData, evs1) := processTelnetData c rawData in
          (c1, None, cleanData, evs1)
      end in
    (* clear pre-suppression if it expired or the transfer became active *)
    let c :=
      if suppressZmodem c && ((suppressUntil c <? now e) || receiverActive recv)
      then set_suppress c false (suppressUntil c) else c in
    let evDisplay :=
      if (0 <? len cleanData) && negb (receiverActive recv)
         && negb (suppressZmodem c)
      then [DisplayPath cleanData] else [] in
    (mkSession c recv, evs ++ evDisplay).

(** What happens to a session on a telnet connection, one after the
    other: the read loop gets a chunk (with what the environment answers
    while it is handled), rz exits, or the browser sends
    ["cancelDownload"]. *)
Inductive Input :=
| Chunk (rawData : list Z) (e : Env)
| RzExited (e : Env)
| CancelDownload.

(** [monitorRz], once [l.rzCmd.Wait()] has returned. *)
Definition monitorRz (e : Env) (l : LrzszReceiver) : LrzszReceiver * list Event :=
  if active l then completeTransfer e l else (l, []).

Definition sessionStep (s : Session) (i : Input) : Session * list Event :=
  match i with
  | Chunk rawData e => readTelnetChunk e s rawData
  | RzExited e =>
      match zmodemReceiver s with
      | Some l => let '(l', evs) := monitorRz e l in
                  (mkSession (client s) (Some l'), evs)
      | None => (s, [])
      end
  | CancelDownload =>                   (* [case "cancelDownload":] *)
      match zmodemReceiver s with
      | Some l => let '(l', evs) := Cancel l in
                  (mkSession (client s) (Some l'), evs)
      | None => (s, [])
      end
  end.

Fixpoint runSession (s : Session) (inputs : list Input) : Session * list Event :=
  match inputs with
  | [] => (s, [])
  | i :: inputs' =>
      let '(s1, evs1) := sessionStep s i in
      let '(s2, evs2) := runSession s1 inputs' in
      (s2, evs1 ++ evs2)
  end.

End Server.


(** ** Holding back an incomplete escape sequence, [joinANSIChunks] *)
Module AnsiJoin.
Import GoBytes Normalize.

(** The slice expression [s[:n]] for [0 <= n <= len(s)]. *)
Definition upto {A} (n : Z) (s : list A) : list A := firstn (Z.to_nat n) s.

(** The inner loop of the OSC case, [for j < len(buf)] started at
    [j = i+2], on the suffix [buf[i+2:]]: how far past [i+2] the outer
    loop goes on and the suffix there; [None] when the loop runs out. *)
Fixpoint oscEnd (l : list Z) : option (Z * list Z) :=
  match l with
  | [] => None
  | x :: l' =>
      if x =? 0x07 then Some (1, l')                       (* BEL *)
      else if (x =? 0x1B) && match l' with
                             | y :: _ => y =? 92           (* ESC '\' *)
                             | [] => false
                             end
      then Some (2, tl l')
      else match oscEnd l' with
           | Some (k, after) => Some (k + 1, after)
           | None => None
           end
  end.

(** The inner loop of the DCS case, likewise. *)
Fixpoint dcsEnd (l : list Z) : option (Z * list Z) :=
  match l with
  | [] => None
  | x :: l' =>
      if (x =? 0x1B) && match l' with
                        | y :: _ => y =? 92
                        | [] => false
                        end
      then Some (2, tl l')
      else match dcsEnd l' with
           | Some (k, after) => Some (k + 1, after)
           | None => None
           end
  end.

(** The body of the outer loop at an [ESC] at [buf[i]], on
    [rest = buf[i+1:]]: how far past [i] the loop goes on and the suffix
    there; [None] where the function returns [i].  The inner loop of the
    CSI case is the one of the normalisation pass. *)
Definition escEnd (rest : list Z) : option (Z * list Z) :=
  match rest with
  | [] => None                                   (* i+1 >= len(buf) *)
  | n :: body =>
      if n =? 91 then                            (* '[' *)
        match csiFinal body with
        | Some (params, _, after) => Some (2 + len params + 1, after)
        | None => None
        end
      else if n =? 93 then                       (* ']' *)
        match oscEnd body with
        | Some (k, after) => Some (2 + k, after)
        | None => None
        end
      else if n =? 80 then                       (* 'P' *)
        match dcsEnd body with
        | Some (k, after) => Some (2 + k, after)
        | None => None
        end
      else if (n =? 55) || (n =? 56) || (n =? 99)
              || (n =? 68) || (n =? 77) || (n =? 69)
      then Some (2, body)                        (* '7' '8' 'c' 'D' 'M' 'E' *)
      else if (0x40 <=? n) && (n <=? 0x7F) then Some (2, body)
      else None
  end.

(** The loop [for i < len(buf)] of [completeAnsiCutIndex] on the suffix
    [buf[i:]]. *)
Fixpoint cutLoop (fuel : nat) (i : Z) (l : list Z) : Z :=
  match fuel with
  | O => i
  | S fuel' =>
    match l with
    | [] => i
    | b :: rest =>
      if negb (b =? 0x1B) then cutLoop fuel' (i + 1) rest
      else match escEnd rest with
           | Some (k, after) => cutLoop fuel' (i + k) after
           | None => i
           end
    end
  end.

(** [completeAnsiCutIndex] *)
Definition completeAnsiCutIndex (buf : list Z) : Z :=
  cutLoop (List.length buf) 0 buf.

(** [joinANSIChunks]; a [nil] rest is the empty list. *)
Definition joinANSIChunks (carry chunk : list Z) : list Z * list Z :=
  if len carry =? 0 then
    let cut := completeAnsiCutIndex chunk in
    if cut =? len chunk then (chunk, [])
    else (upto cut chunk, from cut chunk)
  else
    let buf := carry ++ chunk in
    let cut := completeAnsiCutIndex buf in
    if cut =? len buf then (buf, [])
    else (upto cut buf, from cut buf).

(** A stream fed chunk by chunk through [joinANSIChunks], each call
    given the rest of the one before: what was emitted, call by call,
    and the rest that is still held back. *)
Fixpoint joinAll (carry : list Z) (chunks : list (list Z))
  : list (list Z) * list Z :=
  match chunks with
  | [] => ([], carry)
  | chunk :: chunks' =>
      let '(emit, rest) := joinANSIChunks carry chunk in
      let '(emits, final) := joinAll rest chunks' in
      (emit :: emits, final)
  end.

End AnsiJoin.

(** ** The ATASCII translator and the translation of what the browser
    sends, [translateATASCIIToANSI], [translateLegacyControls] and
    [translateANSIInputToLegacy] *)
Module Legacy.
Import GoBytes GoStrings Telnet Petscii.

(** The [switch b] of [translateATASCIIToANSI]: what is appended to
    [out] for the byte [b]. *)
Definition atasciiByte (b : Z) : list Z :=
  if b =? 0x9B then [13; 10]                                 (* EOL *)
  else if b =? 0x0C then [0x1B; 91; 50; 74; 0x1B; 91; 72]    (* ESC[2J ESC[H *)
  else if b =? 0x1C then [0x1B; 91; 65]                      (* ESC[A *)
  else if b =? 0x1D then [0x1B; 91; 66]                      (* ESC[B *)
  else if b =? 0x1E then [0x1B; 91; 68]                      (* ESC[D *)
  else if b =? 0x1F then [0x1B; 91; 67]                      (* ESC[C *)
  else if (b =? 0x08) || (b =? 0x09) then [b]
  else [b].

(** [translateATASCIIToANSI] *)
Fixpoint translateATASCIIToANSI (data : list Z) : list Z :=
  match data with
  | [] => []
  | b :: rest => atasciiByte b ++ translateATASCIIToANSI rest
  end.

(** [translateLegacyControls]: the client after the call and the
    returned bytes. *)
Definition translateLegacyControls (c : Client) (data : list Z)
  : Client * list Z :=
  if (String.eqb (charset c) "PETSCIIU" || String.eqb (charset c) "PETSCIIL")%string
  then translatePETSCIIToANSI c data
  else if String.eqb (charset c) "ATASCII" then (c, translateATASCIIToANSI data)
  else (c, data).

(** [charset == "PETSCIIU" || charset == "PETSCIIL"] *)
Definition isPETSCII (charset : string) : bool :=
  (String.eqb charset "PETSCIIU" || String.eqb charset "PETSCIIL")%string.

(** The two [if] statements of a cursor-key case: what is appended to
    [out] and the value of [mapped]. *)
Definition keyCase (charset : string) (petscii atascii : Z) : list Z * bool :=
  let '(out, mapped) :=
    if isPETSCII charset then ([petscii], true) else ([], false) in
  if String.eqb charset "ATASCII" then (out ++ [atascii], true)
  else (out, mapped).

(** The one [if] statement of the cases that know PETSCII only. *)
Definition petsciiCase (charset : string) (petscii : Z) : list Z * bool :=
  if isPETSCII charset then ([petscii], true) else ([], false).

(** The [switch final] of the CSI branch, with [final = in[i+2]] and
    [after = in[i+3:]]: what is appended to [out], the value of
    [mapped], and whether [i] was advanced by one more. *)
Definition csiKey (charset : string) (final : Z) (after : list Z)
  : list Z * bool * bool :=
  if final =? 65 then (keyCase charset 0x91 0x1C, false)          (* 'A' *)
  else if final =? 66 then (keyCase charset 0x11 0x1D, false)     (* 'B' *)
  else if final =? 67 then (keyCase charset 0x1D 0x1F, false)     (* 'C' *)
  else if final =? 68 then (keyCase charset 0x9D 0x1E, false)     (* 'D' *)
  else if final =? 72 then (petsciiCase charset 0x13, false)      (* 'H' *)
  else if final =? 74 then                                        (* 'J' *)
    (* [in[i+2] == '2' && i+3 < len(in) && in[i+3] == 'J'] *)
    if (final =? 50) && match after with
                        | x :: _ => x =? 74
                        | [] => false
                        end
    then if isPETSCII charset then ([0x93], true, true)
         else ([], false, false)
    else (petsciiCase charset 0x93, false)
  else ([], false, false).

(** The [switch final] of the SS3 branch. *)
Definition ss3Key (charset : string) (final : Z) : list Z * bool :=
  if final =? 65 then keyCase charset 0x91 0x1C
  else if final =? 66 then keyCase charset 0x11 0x1D
  else if final =? 67 then keyCase charset 0x1D 0x1F
  else if final =? 68 then keyCase charset 0x9D 0x1E
  else if final =? 72 then petsciiCase charset 0x13
  else ([], false).

(** The loop of [translateANSIInputToLegacy] on the suffix [in[i:]]. *)
Fixpoint inputLoop (fuel : nat) (charset : string) (inp : list Z) : list Z :=
  match fuel with
  | O => []
  | S fuel' =>
    match inp with
    | [] => []
    | b :: rest =>
      let plain := b :: inputLoop fuel' charset rest in   (* out = append(out, b) *)
      if b =? 0x1B then
        match rest with
        | n :: rest2 =>                                   (* i+1 < len(in) *)
          if n =? 91 then                                 (* '[' *)
            match rest2 with
            | final :: after =>                           (* i+2 < len(in) *)
                let '(bytes, mapped, extra) := csiKey charset final after in
                if mapped
                then bytes ++ inputLoop fuel' charset
                                        (if extra then tl after else after)
                else plain
            | [] => plain
            end
          else if n =? 79 then                            (* 'O' *)
            match rest2 with
            | final :: after =>
                let '(bytes, mapped) := ss3Key charset final in
                if mapped then bytes ++ inputLoop fuel' charset after
                else plain
            | [] => plain
            end
          else plain
        | [] => plain
        end
      else plain
    end
  end.

(** [translateANSIInputToLegacy] *)
Definition translateANSIInputToLegacy (inp : list Z) (charset : string)
  : list Z :=
  inputLoop (List.length inp) charset inp.

End Legacy.

(** ** The plain-text heuristic of legacy sessions,
    [shouldBypassLegacyMapping] *)
Module Bypass.
Import GoBytes.

(** [(b >= 0x20 && b <= 0x7E) || b == '\r' || b == '\n' || b == '\t'] *)
Definition isPrintable (b : Z) : bool :=
  ((0x20 <=? b) && (b <=? 0x7E)) || (b =? 13) || (b =? 10) || (b =? 9).

(** The loop [for _, b := range data] with its two counters. *)
Fixpoint countLoop (data : list Z) (printable nonAscii : Z) : Z * Z :=
  match data with
  | [] => (printable, nonAscii)
  | b :: rest =>
      if isPrintable b then countLoop rest (printable + 1) nonAscii
      else if 0x80 <=? b then countLoop rest printable (nonAscii + 1)
      else countLoop rest printable nonAscii
  end.

(** [shouldBypassLegacyMapping].  The division is Go's, which
    truncates; [printable*100] stays far below the range of [int] for
    any slice that fits in memory. *)
Definition shouldBypassLegacyMapping (data : list Z) : bool :=
  if len data =? 0 then false
  else
    let '(printable, nonAscii) := countLoop data 0 0 in
    (nonAscii =? 0) && (85 <=? Z.quot (printable * 100) (len data)).

End Bypass.

(** ** Messages of the browser that set up the session: ["resize"] and
    ["connectToBBS"] *)
Module Control.
Import GoBytes GoStrings Telnet Server.


(** [connectToBBS], with the list [ApprovedBBSList] it ranges over. *)
Fixpoint connectToBBS (ApprovedBBSList : list BBSInfo) (c : Client)
         (bbsID : string) : Client * list Event :=
  match ApprovedBBSList with
  | [] => (c, [SendJSON "error" ("BBS not found: " ++ bbsID)])
  | bbs :: rest =>
      if String.eqb (ID bbs) bbsID then
        let c' := if negb (String.eqb (Encoding bbs) "")
                  then set_charset c (Encoding bbs) else c in
        (c',
         if String.eqb (Protocol bbs) "telnet"
         then [ConnectTelnet (Host bbs) (Port bbs)]
         else if String.eqb (Protocol bbs) "ssh"
         then [ConnectSSH (Host bbs) (Port bbs) "" ""]
         else [])
      else connectToBBS rest c bbsID
  end.

End Control.

(** ** Holding back the preamble of a legacy session *)
Module PreambleHold.
Import GoBytes GoStrings Telnet.

(** The three preamble fields of [type Client struct]; the clock is in
    milliseconds. *)
Record Preamble := mkPreamble {
  preambleActive : bool;
  preambleBuf : list Z;
  preambleStart : Z
}.

(** [cs == "PETSCIIU" || cs == "PETSCIIL"] and [cs == "ATASCII"] on the
    upper-cased character set. *)
Definition upperPETSCII (c : Client) : bool :=
  let cs := ToUpper (charset c) in
  (String.eqb cs "PETSCIIU" || String.eqb cs "PETSCIIL")%string.
Definition upperATASCII (c : Client) : bool :=
  String.eqb (ToUpper (charset c)) "ATASCII".

(** What [setCharsetAndAdjust] does to the preamble fields, at the
    time [now]. *)
Definition setCharsetPreamble (now : Z) (p : Preamble) (cs : string)
  : Preamble :=
  let up := ToUpper cs in
  if (String.eqb up "PETSCIIU" || String.eqb up "PETSCIIL"
      || String.eqb up "ATASCII")%string
  then mkPreamble true [] now
  else mkPreamble false [] (preambleStart p).

(** [shouldFlushLegacyPreamble], at the time [now]. *)
Definition shouldFlushLegacyPreamble (c : Client) (p : Preamble) (now : Z)
           (chunk : list Z) : bool :=
  if len chunk =? 0 then false
  else if upperPETSCII c
          && existsb (fun b => (b =? 0x93) || (b =? 0x13)) chunk   (* CLR or HOME *)
  then true
  else if upperATASCII c && existsb (fun b => b =? 0x0C) chunk     (* FF *)
  then true
  else if 1500 <? now - preambleStart p then true
  else if 8192 <? len (preambleBuf p) + len chunk then true
  else false.

(** The preamble block of the display pipeline of [readTelnet], on the
    chunk [processedData]: the preamble fields after it, and the bytes
    the pipeline goes on with ([None] where it skips the chunk with
    [continue]). *)
Definition preambleStep (c : Client) (p : Preamble) (now : Z)
           (processedData : list Z) : Preamble * option (list Z) :=
  if (upperPETSCII c || upperATASCII c) && preambleActive p then
    let p1 := mkPreamble (preambleActive p)
                         (preambleBuf p ++ processedData)
                         (preambleStart p) in
    if shouldFlushLegacyPreamble c p1 now processedData
    then (mkPreamble false [] (preambleStart p), Some (preambleBuf p1))
    else (p1, None)
  else (p, Some processedData).

(** The block on one chunk after the other, each with the time it is
    handled at: the fields at the end and what the pipeline went on
    with, in order. *)
Fixpoint preambleRun (c : Client) (p : Preamble) (chunks : list (Z * list Z))
  : Preamble * list (list Z) :=
  match chunks with
  | [] => (p, [])
  | (now, data) :: chunks' =>
      let '(p1, out) := preambleStep c p now data in
      let '(p2, outs) := preambleRun c p1 chunks' in
      (p2, match out with Some bytes => bytes :: outs | None => outs end)
  end.

End PreambleHold.

(** ** The ANSI music detector, [AnsiMusicProcessor] *)
Module Music.
Import GoBytes.

(** [type AnsiMusicProcessor struct].  The emitter is a callback; the
    payloads it is called with are recorded, in order, in what the
    functions below return. *)
Record AnsiMusicProcessor := mkMusic {
  inSeq : bool;
  buffer : list Z
}.

(** [NewAnsiMusicProcessor] *)
Definition NewAnsiMusicProcessor : AnsiMusicProcessor := mkMusic false [].

(** The terminator search, [for j < len(data)], on the suffix
    [data[j:]]: the bytes passed over ([data[i+3:term]], the payload)
    and the tail the parser goes on with; [None] when [term] stays
    [-1]. *)
Fixpoint findTerm (l : list Z) : option (list Z * list Z) :=
  match l with
  | [] => None
  | x :: l' =>
      if (x =? 0x07) || (x =? 0x0E) || (x =? 0x0F)
      then Some ([], l')                        (* BEL/SO/SI: data[term+1:] *)
      else if x =? 0x1B then
        match l' with
        | y :: l'' =>
            if y =? 92 then Some ([], l'')      (* ST: data[term+2:] *)
            else Some ([], l)                   (* leave ESC: data[term:] *)
        | [] => Some ([], l)
        end
      else match findTerm l' with
           | Some (payload, tail) => Some (x :: payload, tail)
           | None => None
           end
  end.

(** The payload is handed to the emitter when it is not empty. *)
Definition emit (payload : list Z) : list (list Z) :=
  if 0 <? len payload then [payload] else [].

(** The scan [for i < len(data)] up to the first music introducer
    [ESC '[' X] with [X] one of ['|'], ['M'], ['N']: [data[:i]], the
    byte [X] and [data[i+3:]]; [None] when the loop ends without one. *)
Fixpoint findIntro (l : list Z) : option (list Z * Z * list Z) :=
  match l with
  | [] => None
  | b :: rest =>
      let next := match findIntro rest with
                  | Some (pre, intro, body) => Some (b :: pre, intro, body)
                  | None => None
                  end in
      match rest with
      | n :: intro :: body =>                            (* i+2 < len(data) *)
          if (b =? 0x1B) && (n =? 91)
             && ((intro =? 124) || (intro =? 77) || (intro =? 78))
          then Some ([], intro, body)
          else next
      | _ => next
      end
  end.

(** The scanning part of [Process], with [out], [consumed] and the
    payloads emitted so far; after a sequence the loop starts again on
    the tail. *)
Fixpoint scanLoop (fuel : nat) (p : AnsiMusicProcessor) (out : list Z)
         (consumed : bool) (emitted : list (list Z)) (data : list Z)
  : AnsiMusicProcessor * list Z * bool * list (list Z) :=
  match fuel with
  | O => (p, out ++ data, consumed, emitted)
  | S fuel' =>
    match findIntro data with
    | None => (p, out ++ data, consumed, emitted)       (* pass through *)
    | Some (pre, intro, body) =>
        match findTerm body with
        | Some (payload, tail) =>
            scanLoop fuel' p (out ++ pre) true (emitted ++ emit payload) tail
        | None =>                                       (* buffer from introducer *)
            (mkMusic true (0x1B :: 91 :: intro :: body), out ++ pre, true, emitted)
        end
    end
  end.

(** [tryEmitFromBuffer]: the processor after the call, the tail when
    it is done ([None] for [false, nil]) and what was emitted. *)
Definition tryEmitFromBuffer (p : AnsiMusicProcessor)
  : AnsiMusicProcessor * option (list Z) * list (list Z) :=
  if negb (inSeq p) || (len (buffer p) <? 3) then (p, None, [])
  else match findTerm (from 3 (buffer p)) with
       | None => (p, None, [])
       | Some (payload, tail) => (mkMusic false [], Some tail, emit payload)
       end.

(** [Process] for a processor that is not inside a sequence. *)
Definition scan (p : AnsiMusicProcessor) (data : list Z)
  : AnsiMusicProcessor * list Z * bool * list (list Z) :=
  if len data =? 0 then (p, data, false, [])
  else scanLoop (List.length data) p [] false [] data.

(** [Process]: the processor after the call, the two return values and
    what was emitted.  The call of [Process] on the tail runs with
    [inSeq] reset, so it is the scan. *)
Definition Process (p : AnsiMusicProcessor) (data : list Z)
  : AnsiMusicProcessor * list Z * bool * list (list Z) :=
  if len data =? 0 then (p, data, false, [])
  else if inSeq p then
    let p1 := mkMusic (inSeq p) (buffer p ++ data) in
    match tryEmitFromBuffer p1 with
    | (p2, Some tail, emitted) =>
        let '(p3, rem, more, emitted') := scan p2 tail in
        (p3, rem, true, emitted ++ emitted')
    | (p2, None, _) => (p2, [], true, [])              (* suppress all *)
    end
  else scan p data.

(** A stream fed to the detector chunk by chunk: the processor at the
    end, what was returned for the display (the chunk itself where the
    call reports nothing consumed, as the caller has it) and what was
    emitted. *)
Fixpoint feed (p : AnsiMusicProcessor) (chunks : list (list Z))
  : AnsiMusicProcessor * list Z * list (list Z) :=
  match chunks with
  | [] => (p, [], [])
  | chunk :: chunks' =>
      let '(p1, remaining, consumed, emitted) := Process p chunk in
      let cleanData := if consumed then remaining else chunk in
      let '(p2, shown, emitted') := feed p1 chunks' in
      (p2, cleanData ++ shown, emitted ++ emitted')
  end.

End Music.

(** ** The cursor tracker, [updateCursorFrom] *)
Module CursorTrack.
Import GoBytes Telnet Normalize.

(** The three cursor fields of [type Client struct]. *)
Record Cursor := mkCursor {
  cursorRow : Z;
  cursorCol : Z;
  cursorSeqBuf : list Z
}.

(** Arithmetic on Go's 64-bit [int] wraps around. *)
Definition wrap64 (n : Z) : Z := (n + 2 ^ 63) mod 2 ^ 64 - 2 ^ 63.

(** [strings.Split(params, ";")] *)
Fixpoint splitSemi (l : list Z) : list (list Z) :=
  match l with
  | [] => [[]]
  | x :: l' =>
      if x =? 59 then [] :: splitSemi l'
      else match splitSemi l' with
           | part :: parts => (x :: part) :: parts
           | [] => [[x]]
           end
  end.

(** The value of a run of decimal digits. *)
Fixpoint digitsValue (acc : Z) (l : list Z) : option Z :=
  match l with
  | [] => Some acc
  | d :: l' =>
      if (48 <=? d) && (d <=? 57) then digitsValue (acc * 10 + (d - 48)) l'
      else None
  end.

(** [strconv.Atoi]: an optional sign and decimal digits, in the range
    of [int]; [None] for an error. *)
Definition Atoi (s : list Z) : option Z :=
  let '(neg, body) :=
    match s with
    | 43 :: r => (false, r)
    | 45 :: r => (true, r)
    | _ => (false, s)
    end in
  match body with
  | [] => None
  | _ =>
      match digitsValue 0 body with
      | Some v =>
          let v' := if neg then - v else v in
          if (- 2 ^ 63 <=? v') && (v' <? 2 ^ 63) then Some v' else None
      | None => None
      end
  end.

(** The parameter list [p] of a CSI sequence with the parameter bytes
    [params]. *)
Definition parseParams (params : list Z) : list Z :=
  if 0 <? len params then
    flat_map (fun s =>
                let s := if len s =? 0 then [48] else s in   (* s = "0" *)
                match Atoi s with
                | Some n => [n]
                | None => []
                end)
             (splitSemi params)
  else [].

(** The closure [clamp], on the four locals it reads and writes. *)
Definition clamp (cols rows row col : Z) : Z * Z * Z * Z :=
  let cols := if cols <=? 0 then 80 else cols in
  let rows := if rows <=? 0 then 25 else rows in
  let row := if row <? 1 then 1 else row in
  let col := if col <? 1 then 1 else col in
  let row := if rows <? row then rows else row in
  let col := if cols <? col then cols else col in
  (cols, rows, row, col).

(** [n := 1; if len(p) >= 1 && p[0] > 0 { n = p[0] }] *)
Definition firstParam (p : list Z) : Z :=
  match p with
  | n :: _ => if 0 <? n then n else 1
  | [] => 1
  end.

(** [if len(p) >= 2 && p[1] > 0 { c2 = p[1] }] *)
Definition secondParam (p : list Z) : Z :=
  match p with
  | _ :: n :: _ => if 0 <? n then n else 1
  | _ => 1
  end.

(** The [switch fb] on the final byte: the row and the column after
    it. *)
Definition applyFinal (fb : Z) (p : list Z) (row col : Z) : Z * Z :=
  if fb =? 65 then (wrap64 (row - firstParam p), col)            (* 'A' *)
  else if fb =? 66 then (wrap64 (row + firstParam p), col)       (* 'B' *)
  else if fb =? 67 then (row, wrap64 (col + firstParam p))       (* 'C' *)
  else if fb =? 68 then (row, wrap64 (col - firstParam p))       (* 'D' *)
  else if (fb =? 72) || (fb =? 102) then (firstParam p, secondParam p)  (* 'H', 'f' *)
  else (row, col).

(** The loop [for i < len(buf)] on the suffix [buf[i:]]: the row and
    the column at [done], and [buf[i:]] there.  The search for the
    final byte of a CSI sequence is the loop of the normalisation
    pass. *)
Fixpoint cursorLoop (fuel : nat) (cols rows row col : Z) (buf : list Z)
  : Z * Z * list Z :=
  match fuel with
  | O => (row, col, buf)
  | S fuel' =>
    match buf with
    | [] => (row, col, [])
    | b :: rest =>
      if b =? 0x0D then cursorLoop fuel' cols rows row 1 rest
      else if b =? 0x0A then
        let row' := wrap64 (row + 1) in
        cursorLoop fuel' cols rows (if rows <? row' then rows else row') col rest
      else if b =? 0x1B then
        match rest with
        | [] => (row, col, buf)                           (* incomplete *)
        | n :: body =>
            if n =? 91 then
              match csiFinal body with
              | Some (params, fb, after) =>
                  let '(row1, col1) :=
                    applyFinal fb (parseParams params) row col in
                  let '(cols', rows', row2, col2) :=
                    clamp cols rows row1 col1 in
                  cursorLoop fuel' cols' rows' row2 col2 after
              | None => (row, col, buf)                   (* incomplete CSI *)
              end
            else (row, col, buf)            (* unsupported: treat as incomplete *)
        end
      else if 0x20 <=? b then
        let col' := wrap64 (col + 1) in
        cursorLoop fuel' cols rows row (if cols <? col' then cols else col') rest
      else cursorLoop fuel' cols rows row col rest
    end
  end.

(** [updateCursorFrom] *)
Definition updateCursorFrom (c : Client) (cur : Cursor) (data : list Z)
  : Cursor :=
  let buf := cursorSeqBuf cur ++ data in
  let '(row, col, leftover) :=
    cursorLoop (List.length buf) (termCols c) (termRows c)
               (cursorRow cur) (cursorCol cur) buf in
  mkCursor row col leftover.

End CursorTrack.

(** ** The last step of the display pipeline *)
Module Display.
Import GoBytes Normalize.

(** The final output guard of [readTelnet],
    [if bytes.Contains(outputData, []byte{0x1B, '['}) { outputData =
    normalizeCSISGRAny(outputData) }]: the bytes that are encoded and
    sent to the browser. *)
Definition finalGuard (outputData : list Z) : list Z :=
  if Contains outputData [0x1B; 91] then normalizeCSISGRAny outputData
  else outputData.

End Display.

(** ** Notions the statements below are phrased with *)
Module Spec.
Import GoBytes Normalize.

(** [sub] occurs in [s] as a contiguous block. *)
Definition occurs (sub s : list Z) : Prop :=
  exists pre post, s = pre ++ sub ++ post.

(** [ESC '['] at the head of a stream. *)
Definition startsCSI (l : list Z) : bool :=
  match l with
  | b :: n1 :: _ => (b =? 0x1B) && (n1 =? 91)
  | _ => false
  end.

Definition notFinal (c : Z) : bool := negb (isFinal c).

(** The last byte of a stream is a carriage return. *)
Fixpoint endsWithCR (l : list Z) : bool :=
  match l with
  | [] => false
  | [b] => b =? 0x0D
  | _ :: l' => endsWithCR l'
  end.

(** The first byte of a stream is [b]. *)
Definition startsWith (b : Z) (l : list Z) : bool :=
  match l with
  | x :: _ => x =? b
  | [] => false
  end.

(** A stream without its leading line feed, if it has one. *)
Definition dropLF (l : list Z) : list Z :=
  match l with
  | x :: l' => if x =? 10 then l' else l
  | [] => []
  end.

(** A stream that ends outside of any CSI sequence: it is made of
    bytes that do not open a sequence and of complete sequences
    [ESC '[' params final]. *)
Inductive outsideCSI : list Z -> Prop :=
| outside_nil : outsideCSI []
| outside_byte b l :
    startsCSI (b :: l) = false -> outsideCSI l -> outsideCSI (b :: l)
| outside_csi params c l :
    forallb notFinal params = true -> isFinal c = true ->
    outsideCSI l -> outsideCSI (0x1B :: 91 :: params ++ c :: l).

(** The events that hand a chunk to the display pipeline. *)
Definition isDisplay (ev : Event) : bool :=
  match ev with
  | DisplayPath _ => true
  | _ => false
  end.

(** What was written to the input pipe of rz, call by call. *)
Definition rzWrites (evs : list Event) : list (list Z) :=
  flat_map (fun ev => match ev with
                      | RzStdinWrite b => [b]
                      | _ => []
                      end) evs.

(** The transfer is still under way (neither completed nor cancelled)
    whenever a chunk of the run arrives. *)
Fixpoint transferStaysActive (s : Server.Session)
         (inputs : list Server.Input) : Prop :=
  match inputs with
  | [] => True
  | i :: inputs' =>
      match i with
      | Server.Chunk _ _ =>
          Server.receiverActive (Server.zmodemReceiver s) = true
      | _ => True
      end /\
      transferStaysActive (fst (Server.sessionStep s i)) inputs'
  end.

(** Every chunk of the run holds at least one byte, as a chunk that
    [conn.Read] returns with [n > 0] does. *)
Definition chunkNonEmpty (i : Server.Input) : Prop :=
  match i with
  | Server.Chunk rawData _ => rawData <> []
  | _ => True
  end.

(** The telnet-cleaned chunks of a run. *)
Definition cleanedChunks (c : Telnet.Client) (inputs : list Server.Input)
  : list (list Z) :=
  flat_map (fun i => match i with
                     | Server.Chunk rawData _ => [Telnet.cleanOf c rawData]
                     | _ => []
                     end) inputs.

(** The normalisation loop with the fuel the entry point gives it. *)
Definition norm (l : list Z) : list Z := normalizeLoop (List.length l) l.

(** Events that neither reach the display pipeline nor the rz pipe. *)
Definition quiet (evs : list Event) : Prop :=
  filter isDisplay evs = [] /\ rzWrites evs = [].

(** An active receiver holds an open pipe to rz. *)
Definition pipeOpen (l : Lrzsz.LrzszReceiver) : Prop :=
  Lrzsz.active l = true -> Lrzsz.rzStdin l <> None.

End Spec.
Import Spec.

(** ** Further notions for the properties of the second part *)
Module SpecMore.
Import GoBytes GoStrings Telnet Lrzsz Server Legacy Bypass Control PreambleHold
       CursorTrack.

(** The bytes the enhanced ANSI processor does not copy as they come:
    the four C1 codes it knows, form feed and [ESC]. *)
Definition ansiSpecial (b : Z) : bool :=
  (b =? 0x9B) || (b =? 0x9D) || (b =? 0x90) || (b =? 0x9C)
  || (b =? 0x0C) || (b =? 0x1B).

(** What the enhanced ANSI processor emits for the complete sequence
    [ESC '[' params c] with digits and semicolons as parameters, read
    off the cases of [processCompleteSequence]. *)
Definition canonicalCSI (params : list Z) (c : Z) : list Z :=
  match params with
  | [] => if (c =? 74) || (c =? 75) || (c =? 109)
          then [0x1B; 91; 48; c]
          else [0x1B; 91; c]
  | _ =>
      if (c =? 74) && (last params 0 =? 50) then
        if Equal params [50] || Equal params [48; 59; 50]
        then [0x1B; 91; 50; 74; 0x1B; 91; 72]
        else [0x1B; 91] ++ params ++ [c] ++ [0x1B; 91; 72]
      else [0x1B; 91] ++ params ++ [c]
  end.

(** What the final normalisation pass can do to a byte: leave it, or
    turn ['M'] into ['m'] or ['j'] into ['J']. *)
Definition caseFix (a b : Z) : Prop :=
  b = a \/ (a = 77 /\ b = 109) \/ (a = 106 /\ b = 74).

(** The PETSCII codes with a meaning of their own on a Commodore
    screen: case shifts, cursor keys, delete, home, clear, reverse
    video and the sixteen colours. *)
Definition petsciiCode (b : Z) : bool :=
  existsb (Z.eqb b)
          [0x0E; 0x0F; 0x8E; 0x11; 0x91; 0x1D; 0x9D; 0x14; 0x13; 0x93;
           0x12; 0x92; 0x05; 0x1C; 0x1E; 0x1F; 0x90; 0x81; 0x95; 0x96;
           0x97; 0x98; 0x99; 0x9A; 0x9B; 0x9C; 0x9E; 0x9F].

(** The character set the case shifts of a stream leave in force. *)
Definition shiftCharset (cs : string) (data : list Z) : string :=
  fold_left (fun cs b => if b =? 0x0E then "PETSCIIL"%string
                         else if b =? 0x8E then "PETSCIIU"%string
                         else cs) data cs.

(** The fields of the client the option negotiation has no part in. *)
Definition outsideNegotiation (c : Client) : bool * string * bool * Z * Z * Z :=
  (telnet c, charset c, suppressZmodem c, suppressUntil c, termCols c, termRows c).


(** The cursor keys and Home as the browser sends them: the final byte
    of [ESC '[' k] or [ESC 'O' k]. *)
Definition cursorKey (k : Z) : bool :=
  (k =? 65) || (k =? 66) || (k =? 67) || (k =? 68).

(** The keys a legacy character set has a code for. *)
Definition legacyKey (charset : string) (k : Z) : bool :=
  cursorKey k || (isPETSCII charset && (k =? 72)).

(** A key sequence with its introducer, ['['] or ['O']. *)
Definition keySeq (key : Z * Z) : list Z := [0x1B; fst key; snd key].

(** The same key as a CSI sequence. *)
Definition keyCSI (key : Z * Z) : list Z := [0x1B; 91; snd key].

(** A character set with a translation of its own for what is typed. *)
Definition isLegacy (charset : string) : bool :=
  isPETSCII charset || String.eqb charset "ATASCII".


(** The events that open a connection to a remote system. *)
Definition dialled (ev : Event) : option (string * Z) :=
  match ev with
  | ConnectTelnet h p => Some (h, p)
  | ConnectSSH h p _ _ => Some (h, p)
  | _ => None
  end.

(** Preamble fields as [setCharsetAndAdjust] and the display pipeline
    leave them: nothing is held while the hold is off, and what is held
    fits the 8192 bytes the buffer was made for. *)
Definition preambleOK (p : Preamble) : Prop :=
  (preambleActive p = false -> preambleBuf p = []) /\
  len (preambleBuf p) <= 8192.

(** The bytes that end an ANSI music sequence: BEL, SO, SI, and [ESC]
    (as the string terminator [ESC '\'] or the start of what comes
    next). *)
Definition musicEnd (b : Z) : bool :=
  (b =? 0x07) || (b =? 0x0E) || (b =? 0x0F) || (b =? 0x1B).

(** The byte after [ESC '['] that makes a music sequence: ['|'], ['M']
    or ['N']. *)
Definition musicIntro (x : Z) : bool :=
  (x =? 124) || (x =? 77) || (x =? 78).

(** The tracked cursor is on the screen of the client. *)
Definition onScreen (c : Client) (cur : Cursor) : Prop :=
  1 <= cursorRow cur <= termRows c /\ 1 <= cursorCol cur <= termCols c.



End SpecMore.
Import SpecMore.

(** * Properties *)

(** ** Facts about the [bytes] functions *)
Section BytesFacts.
Import GoBytes.

Lemma HasPrefix_true_iff (s p : list Z) :
  HasPrefix s p = true <-> exists post, s = p ++ post.
Proof.
  revert s; induction p as [|a p IH]; intros s; simpl.
  - split; [intros _; now exists s | reflexivity].
  - destruct s as [|x s]; simpl.
    + split; [discriminate | intros [post H]; discriminate].
    + rewrite andb_true_iff, Z.eqb_eq, IH. split.
      * intros [-> [post ->]]. now exists post.
      * intros [post H]. injection H as -> ->. split; [reflexivity | now exists post].
Qed.

Lemma Index_lower_bound (s p : list Z) : -1 <= Index s p.
Proof.
  induction s as [|x s IH]; simpl.
  - destruct (HasPrefix [] p); lia.
  - destruct (HasPrefix (x :: s) p); [lia|].
    destruct (Index s p <? 0) eqn:E; [lia|].
    apply Z.ltb_ge in E. lia.
Qed.

Lemma Index_absent_iff (s p : list Z) :
  Index s p = -1 <-> ~ occurs p s.
Proof.
  induction s as [|x s IH].
  - simpl. destruct (HasPrefix [] p) eqn:E.
    + split; [discriminate|]. intros H. exfalso. apply H.
      apply HasPrefix_true_iff in E. destruct E as [post E].
      now exists [], post.
    + split; [|reflexivity]. intros _ [pre [post H]].
      destruct pre; [|discriminate]. simpl in H.
      assert (HasPrefix [] p = true) by (apply HasPrefix_true_iff; now exists post).
      congruence.
  - cbn [Index]. destruct (HasPrefix (x :: s) p) eqn:E.
    + split; [discriminate|]. intros H. exfalso. apply H.
      apply HasPrefix_true_iff in E. destruct E as [post E].
      now exists [], post.
    + pose proof (Index_lower_bound s p) as Hlb.
      destruct (Index s p <? 0) eqn:Elt.
      * apply Z.ltb_lt in Elt. assert (Hs : Index s p = -1) by lia.
        split; [|reflexivity]. intros _ [pre [post H]].
        destruct pre as [|y pre].
        -- assert (HasPrefix (x :: s) p = true)
             by (apply HasPrefix_true_iff; now exists post).
           congruence.
        -- injection H as _ H. apply IH in Hs. apply Hs. now exists pre, post.
      * apply Z.ltb_ge in Elt. split; [lia|]. intros H. exfalso.
        assert (Hn : Index s p <> -1) by lia.
        rewrite IH in Hn. apply Hn. intros [pre [post Hocc]].
        apply H. exists (x :: pre), post. simpl. now rewrite Hocc.
Qed.

Lemma len_from {A} (n : Z) (s : list A) :
  0 <= n <= len s -> len (from n s) = len s - n.
Proof. unfold len, from. intros H. rewrite length_skipn. lia. Qed.

End BytesFacts.

(** ** The enhanced ANSI processor across chunk boundaries *)
Section AnsiChunks.
Import AnsiEnhanced.

(** Whatever is still in the sequence buffer when a call returns has
    been appended to the returned bytes as well, and stays buffered for
    the next call. *)
Lemma ProcessANSIData_returns_carry (p : ANSIEnhancedProcessor) (data : list Z) :
  exists emitted,
    snd (ProcessANSIData p data)
    = emitted ++ sequenceBuffer (fst (ProcessANSIData p data)).
Proof.
  unfold ProcessANSIData.
  destruct (processLoop p [] data) as [p' result].
  destruct (0 <? GoBytes.len (sequenceBuffer p')) eqn:E; simpl.
  - now exists result.
  - exists result. unfold GoBytes.len in E. apply Z.ltb_ge in E.
    destruct (sequenceBuffer p'); [now rewrite app_nil_r | simpl in E; lia].
Qed.

(** One loop iteration appends to the result it is given. *)
Lemma processByte_result (p : ANSIEnhancedProcessor) (result : list Z) (b : Z) :
  processByte p result b
  = (fst (processByte p [] b), result ++ snd (processByte p [] b)).
Proof.
  unfold processByte.
  repeat match goal with
         | |- context [if ?t then _ else _] => destruct t
         end; cbn [fst snd app]; rewrite ?app_nil_r; reflexivity.
Qed.

Lemma processLoop_result (data : list Z) :
  forall p result,
    processLoop p result data
    = (fst (processLoop p [] data), result ++ snd (processLoop p [] data)).
Proof.
  induction data as [|b data IH]; intros p result; cbn [processLoop].
  - cbn. now rewrite app_nil_r.
  - rewrite (processByte_result p result b).
    destruct (processByte p [] b) as [p1 out1]. cbn [fst snd].
    rewrite (IH p1 (result ++ out1)), (IH p1 out1).
    cbn [fst snd]. now rewrite app_assoc.
Qed.

(** The loop itself does not care where the stream is cut: run over the
    two halves one after the other, it ends in the same state and has
    appended the same bytes as when it is run over the whole.  What
    differs between the one-chunk and the chunked output comes from the
    sequence buffer that each call appends after its loop. *)
Lemma processLoop_app (first second : list Z) :
  forall p,
    processLoop p [] (first ++ second)
    = (fst (processLoop (fst (processLoop p [] first)) [] second),
       snd (processLoop p [] first)
         ++ snd (processLoop (fst (processLoop p [] first)) [] second)).
Proof.
  induction first as [|b first IH]; intros p; cbn [app processLoop].
  - cbn. now destruct (processLoop p [] second).
  - destruct (processByte p [] b) as [p1 out1].
    rewrite (processLoop_result (first ++ second) p1 out1).
    rewrite (processLoop_result first p1 out1).
    rewrite (IH p1). cbn [fst snd]. now rewrite app_assoc.
Qed.

(** C1, at the input of scenario B: the stream [ESC [ 3 1 m] gives
    [ESC [ 3 1 m] when it is processed as one chunk; split after the
    [ESC], the first call returns the lone [ESC] and keeps it buffered,
    the second call returns the whole sequence, so the concatenated
    output carries the [ESC] twice and differs from the one-chunk
    output. *)
Theorem ProcessANSIData_split_after_ESC_duplicates :
  let p := NewANSIEnhancedProcessor false in
  snd (ProcessANSIData p [0x1B; 91; 51; 49; 109]) = [0x1B; 91; 51; 49; 109] /\
  ProcessANSIData p [0x1B]
    = (mkProcessor true [0x1B] false, [0x1B]) /\
  snd (feedChunks p [[0x1B]; [91; 51; 49; 109]])
    = [0x1B; 0x1B; 91; 51; 49; 109] /\
  snd (feedChunks p [[0x1B]; [91; 51; 49; 109]])
    <> snd (ProcessANSIData p [0x1B; 91; 51; 49; 109]).
Proof.
  cbv zeta. repeat split; try reflexivity.
  vm_compute. discriminate.
Qed.

End AnsiChunks.

(** ** The telnet negotiation filter *)
Section TelnetFilter.
Import GoBytes Telnet Lrzsz.

Lemma scanSB_step (a b : Z) (l : list Z) :
  scanSB (a :: b :: l)
  = if (a =? IAC) && (b =? SE) then SBFound [] l
    else match scanSB (b :: l) with
         | SBFound sb after => SBFound (a :: sb) after
         | SBUnterminated atJ => SBUnterminated atJ
         end.
Proof. reflexivity. Qed.

Lemma scanSB_length (l : list Z) :
  match scanSB l with
  | SBFound _ after => (List.length after < List.length l)%nat
  | SBUnterminated atJ => (List.length atJ <= List.length l)%nat
  end.
Proof.
  induction l as [|a l IH]; [simpl; lia|].
  destruct l as [|b l]; [simpl; lia|].
  rewrite scanSB_step. destruct ((a =? IAC) && (b =? SE)); [simpl; lia|].
  destruct (scanSB (b :: l)); cbn [List.length] in *; lia.
Qed.

(** Every iteration of the filter's loop consumes at least one byte, so
    the fuel [len(data)] that [processTelnetData] gives it is never used
    up: any fuel that covers the input gives the same result. *)
Lemma telnetLoop_fuel (f1 : nat) :
  forall f2 c data clean response,
    (List.length data <= f1)%nat -> (List.length data <= f2)%nat ->
    telnetLoop f1 c data clean response = telnetLoop f2 c data clean response.
Proof.
  induction f1 as [|f1 IH]; intros f2 c data clean response H1 H2.
  - destruct data; [|simpl in H1; lia]. now destruct f2.
  - destruct data as [|d0 rest0]; [now destruct f2|].
    destruct f2 as [|f2]; [simpl in H2; lia|].
    simpl in H1, H2. cbn [telnetLoop].
    destruct (d0 =? IAC); [|apply IH; lia].
    destruct rest0 as [|d1 rest1]; [apply IH; simpl; lia|]. simpl in H1, H2.
    destruct (d1 =? IAC); [apply IH; lia|].
    destruct rest1 as [|option rest2].
    + destruct (d1 =? SB); apply IH; simpl; lia.
    + simpl in H1, H2. destruct ((SE <=? d1) && (d1 <=? DONT)).
      * destruct (negotiate c d1 option). apply IH; lia.
      * destruct (d1 =? SB); [|apply IH; simpl; lia].
        pose proof (scanSB_length rest2) as Hs.
        destruct (scanSB rest2); apply IH; lia.
Qed.

(** The loop on an escaped stream: every byte of the original comes out
    once, nothing is answered and no option flag moves. *)
Lemma telnetLoop_escapeIAC (bs : list Z) :
  forall fuel c clean response,
    (List.length (escapeIAC bs) <= fuel)%nat ->
    telnetLoop fuel c (escapeIAC bs) clean response
    = (c, clean ++ bs, response).
Proof.
  induction bs as [|b bs IH]; intros fuel c clean response Hfuel.
  - simpl. rewrite app_nil_r. now destruct fuel.
  - simpl in Hfuel |- *. destruct (b =? 255) eqn:Eb.
    + apply Z.eqb_eq in Eb. subst b. simpl in Hfuel.
      destruct fuel as [|fuel]; [lia|].
      cbn [app telnetLoop]. change (255 =? IAC) with true. cbv iota.
      rewrite IH by lia. now rewrite <- app_assoc.
    + simpl in Hfuel. destruct fuel as [|fuel]; [lia|].
      cbn [app telnetLoop]. unfold IAC at 1. rewrite Eb.
      rewrite IH by lia. now rewrite <- app_assoc.
Qed.

(** C5: doubling every 0xFF byte and then running the telnet filter
    over the result gives back the original bytes; each literal 0xFF
    survives as one 0xFF. *)
Theorem processTelnetData_escapeIAC_roundtrip (c : Client) (bs : list Z) :
  cleanOf c (escapeIAC bs) = bs.
Proof.
  unfold cleanOf, processTelnetData.
  rewrite telnetLoop_escapeIAC by lia. reflexivity.
Qed.

(** [IAC SB] followed by at least one more byte never reaches the
    subnegotiation branch: [SB] (250) lies between [SE] (240) and
    [DONT] (254), so the three bytes are skipped as a command with an
    option and the loop goes on with the subnegotiation's payload. *)
Lemma telnetLoop_SB_taken_as_command fuel c opt rest clean response :
  telnetLoop (S fuel) c (IAC :: SB :: opt :: rest) clean response
  = telnetLoop fuel c rest clean response.
Proof. cbn. now rewrite app_nil_r. Qed.

(** Bytes other than IAC are copied to the clean stream. *)
Lemma telnetLoop_plain (payload : list Z) :
  forall fuel c clean response,
    Forall (fun b => b <> IAC) payload ->
    (List.length payload <= fuel)%nat ->
    telnetLoop fuel c payload clean response = (c, clean ++ payload, response).
Proof.
  induction payload as [|b payload IH]; intros fuel c clean response Hall Hfuel.
  - rewrite app_nil_r. now destruct fuel.
  - inversion Hall as [|? ? Hb Hrest]; subst.
    destruct fuel as [|fuel]; [simpl in Hfuel; lia|]. simpl in Hfuel.
    cbn [telnetLoop]. apply Z.eqb_neq in Hb. rewrite Hb.
    rewrite IH by (assumption || lia). now rewrite <- app_assoc.
Qed.

(** C7, at a subnegotiation [IAC SB opt payload] that the chunk ends
    without [IAC SE]: the payload is returned in the clean stream
    instead of being dropped; for [IAC SB TTYPE 1 'A'] the clean stream
    is [1 'A']. *)
Theorem processTelnetData_unterminated_SB_leaks
        (c : Client) (opt : Z) (payload : list Z) :
  Forall (fun b => b <> IAC) payload ->
  cleanOf c (IAC :: SB :: opt :: payload) = payload /\
  cleanOf c [IAC; SB; TELOPT_TTYPE; 1; 65] = [1; 65].
Proof.
  intros Hall. split; [|reflexivity].
  unfold cleanOf, processTelnetData. cbn [List.length].
  rewrite telnetLoop_SB_taken_as_command.
  rewrite telnetLoop_plain by (assumption || lia). reflexivity.
Qed.

Lemma processTelnetData_unterminated_SB_leaks_witness :
  cleanOf (mkClient true "CP437" false 0 false false false false 80 25)
          (IAC :: SB :: TELOPT_NAWS :: [0; 80; 0; 25])
  = [0; 80; 0; 25].
Proof.
  apply (processTelnetData_unterminated_SB_leaks
           (mkClient true "CP437" false 0 false false false false 80 25)
           TELOPT_NAWS [0; 80; 0; 25]).
  repeat constructor; discriminate.
Defined.

End TelnetFilter.

(** ** The ZMODEM detector before activation *)
Section Lookback.
Import GoBytes Telnet Lrzsz.

Lemma firstIndex_absent (data : list Z) (patterns : list (list Z)) (first : Z) :
  (forall p, In p patterns -> Index data p = -1) ->
  firstIndex data patterns first = first.
Proof.
  revert first. induction patterns as [|p ps IH]; intros first H; simpl.
  - reflexivity.
  - rewrite (H p) by now left. simpl. apply IH. intros q Hq. apply H. now right.
Qed.

Lemma findZmodemStartIndex_absent (data : list Z) :
  (forall p, In p headerPatterns -> ~ occurs p data) ->
  findZmodemStartIndex data = (0, false).
Proof.
  intros H. unfold findZmodemStartIndex.
  rewrite firstIndex_absent; [reflexivity|].
  intros p Hp. apply Index_absent_iff. now apply H.
Qed.

(** The whole result of the call in that case: the chunk comes back,
    nothing is sent, and the receiver keeps the old buffer and the
    chunk, less its first 512 bytes once the sum is above 1024. *)
Lemma ProcessData_inactive_no_header
      (e : Env) (c : Client) (l : LrzszReceiver) (data : list Z) :
  active l = false ->
  (forall p, In p headerPatterns -> ~ occurs p (buffer l ++ data)) ->
  ProcessData e c l data
  = mkResult c
      (set_buffer l (if 1024 <? len (buffer l ++ data)
                     then from 512 (buffer l ++ data) else buffer l ++ data))
      data false [].
Proof.
  intros Hact Hnone. unfold ProcessData. rewrite Hact. cbn [negb].
  rewrite (findZmodemStartIndex_absent _ Hnone).
  destruct (1024 <? len (buffer l ++ data)); reflexivity.
Qed.

(** C10: while no transfer is active, a chunk that leaves the lookback
    buffer without any ZMODEM header pattern is returned as it came,
    with [consumed = false]; nothing is sent and the client is not
    touched. *)
Theorem ProcessData_inactive_passes_chunk_through
        (e : Env) (c : Client) (l : LrzszReceiver) (data : list Z) :
  active l = false ->
  (forall p, In p headerPatterns -> ~ occurs p (buffer l ++ data)) ->
  remaining (ProcessData e c l data) = data /\
  consumed (ProcessData e c l data) = false /\
  events (ProcessData e c l data) = [] /\
  client' (ProcessData e c l data) = c.
Proof.
  intros Hact Hnone.
  rewrite (ProcessData_inactive_no_header e c l data Hact Hnone).
  repeat split.
Qed.

Lemma ProcessData_inactive_passes_chunk_through_witness :
  active NewLrzszReceiver = false /\
  remaining (ProcessData (mkEnv 0 Started true [])
               (mkClient true "CP437" false 0 false false false false 80 25)
               NewLrzszReceiver [114; 122; 13; 72; 105])
  = [114; 122; 13; 72; 105].
Proof.
  split; [reflexivity|].
  apply (ProcessData_inactive_passes_chunk_through
           (mkEnv 0 Started true [])
           (mkClient true "CP437" false 0 false false false false 80 25)
           NewLrzszReceiver [114; 122; 13; 72; 105]); [reflexivity|].
  intros p Hp. apply Index_absent_iff.
  simpl in Hp. repeat (destruct Hp as [<-|Hp]; [reflexivity|]). destruct Hp.
Defined.

Lemma zeros_have_no_header (n : nat) :
  forall p, In p headerPatterns -> ~ occurs p (repeat 0 n).
Proof.
  intros p Hp [pre [post H]].
  assert (Hall : Forall (fun b => b = 0) (pre ++ p ++ post)).
  { rewrite <- H. apply Forall_forall. intros x Hx. now apply repeat_spec in Hx. }
  apply Forall_app in Hall. destruct Hall as [_ Hall].
  apply Forall_app in Hall. destruct Hall as [Hall _].
  simpl in Hp.
  repeat (destruct Hp as [<-|Hp]; [inversion Hall; discriminate|]). destruct Hp.
Qed.

(** C6, at a fresh receiver and a chunk of 2000 zero bytes: the chunk is
    passed through and the lookback buffer keeps 1488 bytes, more than
    the 1024 that trigger the trimming and far more than the 512 the
    source comment speaks of; with a chunk of [1025 + n] zero bytes it
    keeps [513 + n] bytes, so no constant bounds it. *)
Theorem ProcessData_lookback_not_capped (e : Env) (c : Client) :
  consumed (ProcessData e c NewLrzszReceiver (repeat 0 2000)) = false /\
  len (buffer (receiver' (ProcessData e c NewLrzszReceiver (repeat 0 2000))))
  = 1488 /\
  forall n : nat,
    len (buffer (receiver' (ProcessData e c NewLrzszReceiver
                              (repeat 0 (1025 + n)))))
    = 513 + Z.of_nat n.
Proof.
  split; [|split].
  - rewrite ProcessData_inactive_no_header;
      [reflexivity|reflexivity|apply (zeros_have_no_header 2000)].
  - rewrite ProcessData_inactive_no_header;
      [|reflexivity|apply (zeros_have_no_header 2000)].
    vm_compute. reflexivity.
  - intros n. rewrite ProcessData_inactive_no_header;
      [|reflexivity|apply (zeros_have_no_header (1025 + n))].
    cbn [receiver' buffer set_buffer].
    change (buffer NewLrzszReceiver ++ repeat 0 (1025 + n))
      with (repeat 0 (1025 + n)).
    assert (Hlen : len (repeat 0 (1025 + n)) = 1025 + Z.of_nat n).
    { unfold len. rewrite repeat_length. lia. }
    rewrite Hlen.
    destruct (1024 <? 1025 + Z.of_nat n) eqn:E; [|apply Z.ltb_ge in E; lia].
    rewrite len_from by lia. lia.
Qed.

End Lookback.

(** ** The final CSI/SGR normalisation pass *)
Section NormalizePass.
Import GoBytes Normalize.

Lemma csiFinal_Some (l params after : list Z) (c : Z) :
  csiFinal l = Some (params, c, after) ->
  l = params ++ c :: after /\
  forallb notFinal params = true /\ isFinal c = true.
Proof.
  revert params. induction l as [|x l IH]; intros params H; simpl in H.
  - discriminate.
  - destruct (isFinal x) eqn:Ex.
    + injection H as <- <- <-. now repeat split.
    + destruct (csiFinal l) as [[[ps f] r]|]; [|discriminate].
      injection H as <- <- <-.
      destruct (IH ps eq_refl) as [-> [Hps Hf]].
      repeat split; [|assumption]. simpl. unfold notFinal at 1.
      now rewrite Ex.
Qed.

Lemma csiFinal_app (params after : list Z) (c : Z) :
  forallb notFinal params = true -> isFinal c = true ->
  csiFinal (params ++ c :: after) = Some (params, c, after).
Proof.
  intros Hps Hc. induction params as [|x ps IH]; simpl.
  - now rewrite Hc.
  - simpl in Hps. apply andb_true_iff in Hps. destruct Hps as [Hx Hps].
    unfold notFinal in Hx. apply negb_true_iff in Hx. rewrite Hx.
    now rewrite (IH Hps).
Qed.

Lemma csiFinal_None (l : list Z) :
  forallb notFinal l = true -> csiFinal l = None.
Proof.
  induction l as [|x l IH]; simpl; [reflexivity|].
  intros H. apply andb_true_iff in H. destruct H as [Hx Hl].
  unfold notFinal in Hx. apply negb_true_iff in Hx. rewrite Hx.
  now rewrite (IH Hl).
Qed.

Lemma normalizeLoop_step (fuel : nat) (b : Z) (rest : list Z) :
  normalizeLoop (S fuel) (b :: rest)
  = match rest with
    | n1 :: body =>
        if (b =? 0x1B) && (n1 =? 91) then
          match csiFinal body with
          | Some (params, c, after) =>
              [0x1B; 91] ++ params ++ [fixFinal body params c]
                ++ normalizeLoop fuel after
          | None => [0x1B; 91] ++ body
          end
        else b :: normalizeLoop fuel rest
    | [] => b :: normalizeLoop fuel rest
    end.
Proof. reflexivity. Qed.

(** Any fuel that covers the input gives the same result. *)
Lemma normalizeLoop_fuel (f1 : nat) :
  forall f2 l, (List.length l <= f1)%nat -> (List.length l <= f2)%nat ->
               normalizeLoop f1 l = normalizeLoop f2 l.
Proof.
  induction f1 as [|f1 IH]; intros f2 l H1 H2.
  - destruct l; [|simpl in H1; lia]. now destruct f2.
  - destruct l as [|b rest]; [now destruct f2|].
    destruct f2 as [|f2]; [simpl in H2; lia|].
    simpl in H1, H2. rewrite !normalizeLoop_step.
    destruct rest as [|n1 body].
    + f_equal. apply IH; simpl; lia.
    + destruct ((b =? 27) && (n1 =? 91)).
      * destruct (csiFinal body) as [[[ps c] after]|] eqn:E; [|reflexivity].
        apply csiFinal_Some in E. destruct E as [E _].
        assert (List.length body = List.length ps + S (List.length after))%nat
          by (rewrite E, length_app; reflexivity).
        simpl in H1, H2. rewrite (IH f2 after) by lia. reflexivity.
      * f_equal. apply IH; simpl in *; lia.
Qed.

Lemma normalizeCSISGRAny_norm (l : list Z) : normalizeCSISGRAny l = norm l.
Proof.
  unfold normalizeCSISGRAny, norm.
  destruct (len l <? 3) eqn:E; [|reflexivity].
  apply Z.ltb_lt in E. unfold len in E.
  destruct l as [|a [|b [|x l]]]; try reflexivity; [|simpl in E; lia].
  simpl. destruct ((a =? 27) && (b =? 91)) eqn:Eab; [|reflexivity].
  apply andb_true_iff in Eab. destruct Eab as [Ea Eb].
  apply Z.eqb_eq in Ea, Eb. now subst.
Qed.

Lemma norm_byte (b : Z) (rest : list Z) :
  startsCSI (b :: rest) = false -> norm (b :: rest) = b :: norm rest.
Proof.
  intros H. unfold norm. cbn [List.length]. rewrite normalizeLoop_step.
  destruct rest as [|n1 body]; [reflexivity|].
  simpl in H. now rewrite H.
Qed.

Lemma norm_csi (body params after : list Z) (c : Z) :
  csiFinal body = Some (params, c, after) ->
  norm (0x1B :: 91 :: body)
  = [0x1B; 91] ++ params ++ [fixFinal body params c] ++ norm after.
Proof.
  intros H. unfold norm. cbn [List.length]. rewrite normalizeLoop_step.
  change ((27 =? 27) && (91 =? 91)) with true. cbv iota. rewrite H.
  rewrite (normalizeLoop_fuel (S (List.length body)) (List.length after) after);
    [reflexivity| |lia].
  apply csiFinal_Some in H. destruct H as [-> _].
  rewrite length_app. simpl. lia.
Qed.

Lemma norm_open (body : list Z) :
  csiFinal body = None -> norm (0x1B :: 91 :: body) = 0x1B :: 91 :: body.
Proof.
  intros H. unfold norm. cbn [List.length]. rewrite normalizeLoop_step.
  change ((27 =? 27) && (91 =? 91)) with true. cbv iota. now rewrite H.
Qed.

Lemma startsCSI_true (l : list Z) :
  startsCSI l = true -> exists body, l = 0x1B :: 91 :: body.
Proof.
  destruct l as [|b [|n1 body]]; try discriminate. simpl. intros H.
  apply andb_true_iff in H. destruct H as [Hb Hn].
  apply Z.eqb_eq in Hb, Hn. subst. now exists body.
Qed.

Lemma isPrivate_app (params after : list Z) (c c' : Z) (tail : list Z) :
  isFinal c = true -> isFinal c' = true ->
  isPrivate (params ++ c' :: tail) = isPrivate (params ++ c :: after).
Proof.
  intros Hc Hc'. destruct params as [|x ps]; [|reflexivity]. simpl.
  unfold isFinal in Hc, Hc'. apply andb_true_iff in Hc, Hc'.
  destruct Hc as [Hc _], Hc' as [Hc' _]. apply Z.leb_le in Hc, Hc'.
  destruct (c' =? 63) eqn:E1; [apply Z.eqb_eq in E1; lia|].
  destruct (c =? 63) eqn:E2; [apply Z.eqb_eq in E2; lia|]. reflexivity.
Qed.

Lemma fixFinal_isFinal (body params : list Z) (c : Z) :
  isFinal c = true -> isFinal (fixFinal body params c) = true.
Proof.
  intros Hc. unfold fixFinal.
  destruct (negb (isPrivate body)); [|assumption].
  destruct (c =? 77); [destruct (forallb isParam params); [reflexivity|assumption]|].
  destruct (c =? 106); [destruct (forallb isParam params); [reflexivity|assumption]|].
  assumption.
Qed.

(** Fixing the final byte a second time changes nothing. *)
Lemma fixFinal_again (body body' params : list Z) (c : Z) :
  isPrivate body' = isPrivate body ->
  fixFinal body' params (fixFinal body params c) = fixFinal body params c.
Proof.
  intros Hp. unfold fixFinal. rewrite Hp.
  destruct (negb (isPrivate body)); [|reflexivity].
  destruct (c =? 77) eqn:E77.
  - destruct (forallb isParam params) eqn:Ev; [reflexivity|].
    now rewrite E77.
  - destruct (c =? 106) eqn:E106.
    + destruct (forallb isParam params) eqn:Ev; [reflexivity|].
      now rewrite E77, E106.
    + now rewrite E77, E106.
Qed.

Lemma startsCSI_norm (b : Z) (rest : list Z) :
  startsCSI (b :: rest) = false -> startsCSI (b :: norm rest) = false.
Proof.
  intros H. destruct rest as [|n1 body]; [reflexivity|].
  destruct (startsCSI (n1 :: body)) eqn:E.
  - apply startsCSI_true in E. destruct E as [body' E].
    injection E as -> ->. simpl in H |- *.
    destruct (csiFinal body') as [[[ps c] after]|] eqn:Ec.
    + rewrite (norm_csi _ _ _ _ Ec). simpl.
      destruct (b =? 27); reflexivity.
    + rewrite (norm_open _ Ec). simpl. destruct (b =? 27); reflexivity.
  - rewrite (norm_byte _ _ E). exact H.
Qed.

Lemma norm_idempotent_upto (n : nat) :
  forall l, (List.length l <= n)%nat -> norm (norm l) = norm l.
Proof.
  induction n as [|n IH]; intros l Hn.
  - destruct l; [reflexivity | simpl in Hn; lia].
  - destruct l as [|b rest]; [reflexivity|]. simpl in Hn.
    destruct (startsCSI (b :: rest)) eqn:Es.
    + apply startsCSI_true in Es. destruct Es as [body Es].
      injection Es as -> ->.
      destruct (csiFinal body) as [[[ps c] after]|] eqn:Ec.
      * rewrite (norm_csi _ _ _ _ Ec).
        destruct (csiFinal_Some _ _ _ _ Ec) as [Hbody [Hps Hc]].
        cbn [app].
        rewrite (norm_csi (ps ++ fixFinal body ps c :: norm after) ps
                          (norm after) (fixFinal body ps c)).
        -- cbn [app]. do 2 f_equal. f_equal.
           rewrite fixFinal_again.
           ++ f_equal. apply IH.
              assert (List.length body
                      = List.length ps + S (List.length after))%nat
                by (rewrite Hbody, length_app; reflexivity).
              simpl in Hn. lia.
           ++ subst body. apply isPrivate_app; [assumption|].
              now apply fixFinal_isFinal.
        -- apply csiFinal_app; [assumption|]. now apply fixFinal_isFinal.
      * rewrite (norm_open _ Ec). now apply norm_open.
    + rewrite (norm_byte _ _ Es).
      rewrite (norm_byte _ _ (startsCSI_norm _ _ Es)).
      f_equal. apply IH. lia.
Qed.

Lemma fixFinal_ext (body body' params : list Z) (c : Z) :
  isPrivate body' = isPrivate body ->
  fixFinal body' params c = fixFinal body params c.
Proof. intros H. unfold fixFinal. now rewrite H. Qed.

(** After a stream that ends outside of any CSI sequence the pass
    starts afresh at the next [ESC]. *)
Lemma norm_after_outside (pre x : list Z) :
  outsideCSI pre ->
  norm (pre ++ 0x1B :: x) = norm pre ++ norm (0x1B :: x).
Proof.
  induction 1 as [|b l Hs Hl IH|params c l Hps Hc Hl IH].
  - reflexivity.
  - assert (Hs' : startsCSI (b :: l ++ 0x1B :: x) = false).
    { destruct l as [|n1 l]; [|exact Hs]. simpl. apply andb_false_r. }
    cbn [app]. rewrite (norm_byte _ _ Hs'), (norm_byte _ _ Hs), IH. reflexivity.
  - cbn [app]. rewrite <- app_assoc. cbn [app].
    rewrite (norm_csi _ params (l ++ 0x1B :: x) c)
      by (now apply csiFinal_app).
    rewrite (norm_csi _ params l c) by (now apply csiFinal_app).
    rewrite IH.
    rewrite (fixFinal_ext (params ++ c :: l) (params ++ c :: l ++ 0x1B :: x))
      by (now apply isPrivate_app).
    now rewrite <- !app_assoc.
Qed.

Lemma isParam_notFinal (d : Z) : isParam d = true -> notFinal d = true.
Proof.
  unfold isParam, notFinal, isFinal. intros H. apply negb_true_iff.
  apply andb_false_iff. left. apply Z.leb_gt.
  apply orb_true_iff in H. destruct H as [H|H].
  - apply Z.eqb_eq in H. lia.
  - apply andb_true_iff in H. destruct H as [_ H]. apply Z.leb_le in H. lia.
Qed.

Lemma params_notFinal (params : list Z) :
  forallb isParam params = true -> forallb notFinal params = true.
Proof.
  rewrite !forallb_forall. intros H x Hx. apply isParam_notFinal. now apply H.
Qed.

Lemma params_not_private (params : list Z) (c : Z) (rest : list Z) :
  forallb isParam params = true -> isFinal c = true ->
  isPrivate (params ++ c :: rest) = false.
Proof.
  intros Hps Hc. destruct params as [|x ps]; simpl.
  - unfold isFinal in Hc. apply andb_true_iff in Hc. destruct Hc as [Hc _].
    apply Z.leb_le in Hc. apply Z.eqb_neq. lia.
  - simpl in Hps. apply andb_true_iff in Hps. destruct Hps as [Hx _].
    unfold isParam in Hx. apply Z.eqb_neq.
    apply orb_true_iff in Hx. destruct Hx as [Hx|Hx].
    + apply Z.eqb_eq in Hx. lia.
    + apply andb_true_iff in Hx. destruct Hx as [_ Hx]. apply Z.leb_le in Hx. lia.
Qed.

(** A sequence with digit and semicolon parameters only: the final byte
    [from] is rewritten to [to] when the pair is ['M'], ['m'] or
    ['j'], ['J']. *)
Lemma norm_rewrites (from to : Z) (params rest : list Z) :
  (from = 77 /\ to = 109) \/ (from = 106 /\ to = 74) ->
  forallb isParam params = true ->
  norm (0x1B :: 91 :: params ++ from :: rest)
  = 0x1B :: 91 :: params ++ to :: norm rest.
Proof.
  intros Hft Hps.
  assert (Hfin : isFinal from = true) by (destruct Hft as [[-> _]|[-> _]]; reflexivity).
  rewrite (norm_csi _ params rest from)
    by (apply csiFinal_app; [now apply params_notFinal | assumption]).
  cbn [app]. do 2 f_equal. f_equal.
  unfold fixFinal. rewrite (params_not_private _ _ _ Hps Hfin). cbn [negb].
  rewrite Hps. destruct Hft as [[-> ->]|[-> ->]]; reflexivity.
Qed.

(** A private sequence, [ESC '[' '?' ...], is copied as it is. *)
Lemma norm_private (body rest : list Z) (c : Z) :
  forallb notFinal body = true -> isFinal c = true ->
  norm (0x1B :: 91 :: 63 :: body ++ c :: rest)
  = 0x1B :: 91 :: 63 :: body ++ c :: norm rest.
Proof.
  intros Hb Hc.
  rewrite (norm_csi (63 :: body ++ c :: rest) (63 :: body) rest c)
    by (apply (csiFinal_app (63 :: body)); [exact Hb | exact Hc]).
  reflexivity.
Qed.

(** In a stream whose part before the sequence ends outside of any
    CSI sequence, a sequence [ESC '[' params 'M'] with digits and
    semicolons only as parameters comes out as [ESC '[' params 'm'],
    such a sequence ending in ['j'] comes out ending in ['J'], and a
    sequence whose first byte after [ESC '['] is ['?'] comes out
    unchanged, complete or not; the pass goes on with what follows.  In
    particular [ESC [ 3 1 M] gives [ESC [ 3 1 m] and [ESC [ ? 1 ; 2 C]
    gives itself. *)
Theorem normalizeCSISGRAny_fixes_SGR_keeps_private
        (pre params body rest : list Z) (c : Z) :
  outsideCSI pre ->
  forallb isParam params = true ->
  forallb notFinal body = true -> isFinal c = true ->
  normalizeCSISGRAny (pre ++ [0x1B; 91] ++ params ++ [77] ++ rest)
  = normalizeCSISGRAny pre ++ [0x1B; 91] ++ params ++ [109]
      ++ normalizeCSISGRAny rest /\
  normalizeCSISGRAny (pre ++ [0x1B; 91] ++ params ++ [106] ++ rest)
  = normalizeCSISGRAny pre ++ [0x1B; 91] ++ params ++ [74]
      ++ normalizeCSISGRAny rest /\
  normalizeCSISGRAny (pre ++ [0x1B; 91; 63] ++ body ++ [c] ++ rest)
  = normalizeCSISGRAny pre ++ [0x1B; 91; 63] ++ body ++ [c]
      ++ normalizeCSISGRAny rest /\
  normalizeCSISGRAny (pre ++ [0x1B; 91; 63] ++ body)
  = normalizeCSISGRAny pre ++ [0x1B; 91; 63] ++ body /\
  normalizeCSISGRAny [0x1B; 91; 51; 49; 77] = [0x1B; 91; 51; 49; 109] /\
  normalizeCSISGRAny [0x1B; 91; 63; 49; 59; 50; 67]
  = [0x1B; 91; 63; 49; 59; 50; 67].
Proof.
  intros Hpre Hps Hbody Hc. rewrite !normalizeCSISGRAny_norm. cbn [app].
  rewrite !(norm_after_outside pre) by assumption.
  repeat split.
  - now rewrite (norm_rewrites 77 109) by (auto; left; auto).
  - now rewrite (norm_rewrites 106 74) by (auto; right; auto).
  - now rewrite norm_private.
  - now rewrite norm_open by (apply (csiFinal_None (63 :: body)); exact Hbody).
Qed.

Lemma normalizeCSISGRAny_fixes_SGR_keeps_private_witness :
  normalizeCSISGRAny ([72; 105] ++ [0x1B; 91] ++ [51; 49] ++ [77] ++ [33])
  = [72; 105; 0x1B; 91; 51; 49; 109; 33] /\
  normalizeCSISGRAny ([72; 105] ++ [0x1B; 91; 63] ++ [49; 59; 50] ++ [77] ++ [33])
  = [72; 105; 0x1B; 91; 63; 49; 59; 50; 77; 33].
Proof.
  assert (Hpre : outsideCSI [72; 105]) by (repeat constructor).
  destruct (normalizeCSISGRAny_fixes_SGR_keeps_private
              [72; 105] [51; 49] [49; 59; 50] [33] 77
              Hpre eq_refl eq_refl eq_refl) as [HM [_ [HP _]]].
  split; [exact HM | exact HP].
Defined.

(** C9: the final normalisation pass is idempotent. *)
Theorem normalizeCSISGRAny_idempotent (s : list Z) :
  normalizeCSISGRAny (normalizeCSISGRAny s) = normalizeCSISGRAny s.
Proof.
  rewrite !normalizeCSISGRAny_norm.
  now apply (norm_idempotent_upto (List.length s)).
Qed.

End NormalizePass.

(** ** Carriage returns in the PETSCII translator *)
Section PetsciiReturns.
Import GoBytes Telnet Petscii.

Lemma skipCRs_length (l : list Z) :
  (List.length (skipCRs l) <= List.length l)%nat.
Proof.
  induction l as [|x l IH]; simpl; [lia|].
  destruct (x =? 13); simpl; lia.
Qed.

Lemma translateByte_next (c : Client) (b : Z) (rest : list Z) :
  (List.length (snd (translateByte c b rest)) <= List.length rest)%nat.
Proof.
  unfold translateByte.
  repeat match goal with
         | |- context [if ?t then _ else _] =>
             destruct t; [simpl; try lia; apply skipCRs_length|]
         end.
  destruct (colorMap b); simpl; lia.
Qed.

Lemma translateLoop_fuel (f1 : nat) :
  forall f2 c l, (List.length l <= f1)%nat -> (List.length l <= f2)%nat ->
                 translateLoop f1 c l = translateLoop f2 c l.
Proof.
  induction f1 as [|f1 IH]; intros f2 c l H1 H2.
  - destruct l; [|simpl in H1; lia]. now destruct f2.
  - destruct l as [|b rest]; [now destruct f2|].
    destruct f2 as [|f2]; [simpl in H2; lia|].
    simpl in H1, H2. cbn [translateLoop].
    pose proof (translateByte_next c b rest) as Hn.
    destruct (translateByte c b rest) as [[bytes c'] next]. simpl in Hn.
    rewrite (IH f2 c' next) by lia. reflexivity.
Qed.

(** The translator, one loop iteration unfolded. *)
Lemma translate_cons (c : Client) (b : Z) (rest : list Z) :
  translatePETSCIIToANSI c (b :: rest)
  = (fst (translatePETSCIIToANSI (snd (fst (translateByte c b rest)))
                                 (snd (translateByte c b rest))),
     fst (fst (translateByte c b rest))
       ++ snd (translatePETSCIIToANSI (snd (fst (translateByte c b rest)))
                                      (snd (translateByte c b rest)))).
Proof.
  unfold translatePETSCIIToANSI. cbn [List.length translateLoop].
  pose proof (translateByte_next c b rest) as Hn.
  destruct (translateByte c b rest) as [[bytes c'] next]. simpl in Hn |- *.
  rewrite (translateLoop_fuel (List.length rest) (List.length next)) by lia.
  now destruct (translateLoop (List.length next) c' next).
Qed.

Lemma skipCRs_app (rest x : list Z) :
  rest <> [] -> endsWithCR rest = false ->
  skipCRs (rest ++ x) = skipCRs rest ++ x /\
  skipCRs rest <> [] /\ endsWithCR (skipCRs rest) = false.
Proof.
  induction rest as [|a rest IH]; intros Hne Hend; [congruence|].
  destruct rest as [|a' rest'].
  - simpl in Hend |- *. rewrite Hend. simpl. rewrite Hend.
    repeat split. discriminate.
  - cbn [app skipCRs]. destruct (a =? 13).
    + apply IH; [discriminate | exact Hend].
    + repeat split; [discriminate | exact Hend].
Qed.

(** What the loop does at a byte does not depend on what follows a
    non-empty rest of the stream that does not end in a carriage
    return. *)
Lemma translateByte_app (c : Client) (b : Z) (rest x : list Z) :
  endsWithCR (b :: rest) = false ->
  translateByte c b (rest ++ x)
  = (fst (fst (translateByte c b rest)),
     snd (fst (translateByte c b rest)),
     snd (translateByte c b rest) ++ x) /\
  endsWithCR (snd (translateByte c b rest)) = false.
Proof.
  intros Hend.
  assert (Hrest : endsWithCR rest = false).
  { destruct rest; [reflexivity | exact Hend]. }
  unfold translateByte.
  repeat match goal with
         | |- context [if ?b =? ?k then _ else _] =>
             lazymatch k with
             | 13 => fail
             | _ => destruct (b =? k); [now split|]
             end
         end.
  destruct (b =? 13) eqn:Eb.
  - assert (Hne : rest <> []).
    { intros ->. simpl in Hend. congruence. }
    destruct (skipCRs_app rest x Hne Hrest) as [Happ [Hne' Hend']].
    rewrite Happ. cbn [fst snd]. split; [|exact Hend'].
    destruct (skipCRs rest); [congruence | reflexivity].
  - destruct (colorMap b); now split.
Qed.

(** The translator works through a prefix that does not end in a
    carriage return without looking past it. *)
Lemma translate_app_upto (n : nat) :
  forall c pre x,
    (List.length pre <= n)%nat -> endsWithCR pre = false ->
    translatePETSCIIToANSI c (pre ++ x)
    = (fst (translatePETSCIIToANSI (fst (translatePETSCIIToANSI c pre)) x),
       snd (translatePETSCIIToANSI c pre)
         ++ snd (translatePETSCIIToANSI (fst (translatePETSCIIToANSI c pre)) x)).
Proof.
  induction n as [|n IH]; intros c pre x Hn Hend.
  - destruct pre; [|simpl in Hn; lia]. simpl.
    now destruct (translatePETSCIIToANSI c x).
  - destruct pre as [|b rest].
    + simpl. now destruct (translatePETSCIIToANSI c x).
    + cbn [app]. rewrite (translate_cons c b (rest ++ x)), (translate_cons c b rest).
      destruct (translateByte_app c b rest x Hend) as [-> Hend'].
      pose proof (translateByte_next c b rest) as Hlen.
      destruct (translateByte c b rest) as [[bytes c'] next].
      cbn [fst snd] in *. simpl in Hn.
      rewrite (IH c' next x) by (assumption || lia).
      cbn [fst snd]. now rewrite app_assoc.
Qed.

Lemma skipCRs_run (n : nat) (rest : list Z) :
  startsWith 13 rest = false -> skipCRs (repeat 13 n ++ rest) = rest.
Proof.
  intros H. induction n as [|n IH]; simpl; [|exact IH].
  destruct rest as [|x rest]; [reflexivity|]. simpl in H |- *. now rewrite H.
Qed.

(** A run of carriage returns, followed or not by one line feed, gives
    one [CR LF]. *)
Lemma translate_CR_run (c : Client) (n : nat) (rest : list Z) :
  startsWith 13 rest = false ->
  translatePETSCIIToANSI c (repeat 13 (S n) ++ rest)
  = (fst (translatePETSCIIToANSI c (dropLF rest)),
     [13; 10] ++ snd (translatePETSCIIToANSI c (dropLF rest))).
Proof.
  intros H. cbn [repeat app]. rewrite translate_cons.
  unfold translateByte. cbn -[skipCRs translatePETSCIIToANSI].
  rewrite (skipCRs_run n rest H).
  destruct rest as [|x rest]; [reflexivity|].
  cbn [dropLF]. destruct (x =? 10) eqn:Ex; [|reflexivity].
  apply Z.eqb_eq in Ex. subst x. rewrite translate_cons. reflexivity.
Qed.

(** C4: after a prefix that does not end in a carriage return, a run of
    [n >= 1] carriage returns gives exactly one [CR LF], whether or not a
    line feed follows the run; when the run ends the input the output
    ends in [CR LF]; three carriage returns give one [CR LF]. *)
Theorem translatePETSCIIToANSI_collapses_CR_run
        (c : Client) (pre rest : list Z) (n : nat) :
  endsWithCR pre = false -> (1 <= n)%nat -> startsWith 13 rest = false ->
  let c1 := fst (translatePETSCIIToANSI c pre) in
  snd (translatePETSCIIToANSI c (pre ++ repeat 13 n ++ rest))
  = snd (translatePETSCIIToANSI c pre) ++ [13; 10]
      ++ snd (translatePETSCIIToANSI c1 (dropLF rest)) /\
  snd (translatePETSCIIToANSI c (pre ++ repeat 13 n))
  = snd (translatePETSCIIToANSI c pre) ++ [13; 10] /\
  snd (translatePETSCIIToANSI c [13; 13; 13]) = [13; 10].
Proof.
  intros Hpre Hn Hrest c1. destruct n as [|n]; [lia|].
  split; [|split].
  - rewrite (translate_app_upto (List.length pre)) by (assumption || lia).
    cbn [fst snd]. fold c1.
    now rewrite (translate_CR_run c1 n rest Hrest).
  - rewrite (translate_app_upto (List.length pre)) by (assumption || lia).
    cbn [fst snd]. fold c1.
    pose proof (translate_CR_run c1 n [] eq_refl) as Hrun.
    rewrite app_nil_r in Hrun. now rewrite Hrun.
  - reflexivity.
Qed.

Lemma translatePETSCIIToANSI_collapses_CR_run_witness :
  snd (translatePETSCIIToANSI
         (mkClient true "PETSCIIU" false 0 false false false false 40 25)
         ([72; 73] ++ repeat 13 3 ++ [10; 0x93; 13; 65]))
  = [72; 73; 13; 10; 0x1B; 91; 50; 74; 0x1B; 91; 72; 13; 10; 65].
Proof.
  apply (translatePETSCIIToANSI_collapses_CR_run
           (mkClient true "PETSCIIU" false 0 false false false false 40 25)
           [72; 73] [10; 0x93; 13; 65] 3 eq_refl).
  - lia.
  - reflexivity.
Defined.

End PetsciiReturns.

(** ** The connect gate *)
Section ConnectGate.
Import GoBytes GoStrings Telnet Server.

(** A request that matches no entry of the list in force is answered
    with the error message and nothing else. *)
Lemma handleConnect_blocks (directory : option (list BBSInfo))
      (approvedList : list BBSInfo) (c : Client) (msg : Message) :
  let approved := if len approvedList =? 0
                  then refreshApprovedBBSList directory else approvedList in
  existsb (matchesBBS msg) approved = false ->
  handleConnect directory approvedList c msg
  = (approved, c,
     [SendJSON "error" "Connection blocked: Host not in approved list"]).
Proof. intros approved H. unfold handleConnect. fold approved. now rewrite H. Qed.

(** C8, at the request [{host: "bbs.example.com", port: 23, protocol:
    "TELNET"}] against the list with the one entry
    [("bbs.example.com", 23, "telnet")]: the protocol of the request is
    not the protocol of the entry, yet the request passes the gate; no
    error message is sent (and nothing is dialled). *)
Theorem handleConnect_accepts_folded_protocol
        (directory : option (list BBSInfo)) (c : Client) :
  let bbs := mkBBS "1" "Example" "bbs.example.com" 23 "telnet" "" "" "" in
  let msg := mkMessage "connect" "bbs.example.com" 23 "TELNET" "" "" "" in
  String.eqb (Protocol bbs) (msgProtocol msg) = false /\
  matchesBBS msg bbs = true /\
  handleConnect directory [bbs] c msg = ([bbs], c, []).
Proof. repeat split. Qed.

(** Whatever is dialled was asked for by a request that matches an
    entry of the list in force, and with the protocol spelled exactly
    ["telnet"] or ["ssh"]. *)
Lemma handleConnect_dials_only_approved (directory : option (list BBSInfo))
      (approvedList : list BBSInfo) (c : Client) (msg : Message) (ev : Event) :
  let approved := if len approvedList =? 0
                  then refreshApprovedBBSList directory else approvedList in
  In ev (snd (handleConnect directory approvedList c msg)) ->
  (exists h p, ev = ConnectTelnet h p) \/ (exists h p u w, ev = ConnectSSH h p u w) ->
  existsb (matchesBBS msg) approved = true /\
  (msgProtocol msg = "telnet"%string \/ msgProtocol msg = "ssh"%string).
Proof.
  intros approved Hin Hdial. unfold handleConnect in Hin. fold approved in Hin.
  destruct (existsb (matchesBBS msg) approved) eqn:Hm; cbn [negb] in Hin.
  - split; [reflexivity|].
    destruct (String.eqb (msgProtocol msg) "telnet") eqn:Et;
      [left; now apply String.eqb_eq|].
    destruct (String.eqb (msgProtocol msg) "ssh") eqn:Es;
      [right; now apply String.eqb_eq|].
    exfalso.
    destruct (negb (String.eqb (msgCharset msg) "")).
    + unfold setCharsetAndAdjust in Hin.
      match type of Hin with
      | context [if ?t then [TelnetWrite ?b] else []] => destruct t
      end; cbn in Hin.
      * destruct Hin as [<-|[]].
        destruct Hdial as [[h [p H]]|[h [p [u [w H]]]]]; discriminate.
      * destruct Hin.
    + destruct Hin.
  - exfalso. cbn in Hin. destruct Hin as [<-|[]].
    destruct Hdial as [[h [p H]]|[h [p [u [w H]]]]]; discriminate.
Qed.

End ConnectGate.

(** ** The hand-over to the transfer *)
Section TransferExclusive.
Import GoBytes Telnet Lrzsz Server.

Lemma quiet_app (a b : list Event) : quiet a -> quiet b -> quiet (a ++ b).
Proof.
  unfold quiet, rzWrites. intros [Ha1 Ha2] [Hb1 Hb2].
  rewrite filter_app, flat_map_app.
  unfold rzWrites in Ha2, Hb2. now rewrite Ha1, Ha2, Hb1, Hb2.
Qed.

Lemma processTelnetData_quiet (c : Client) (data : list Z) :
  quiet (snd (processTelnetData c data)).
Proof.
  unfold processTelnetData.
  destruct (telnetLoop (List.length data) c data [] []) as [[c' clean] response].
  cbn [snd]. destruct ((0 <? len response) && telnet c'); now split.
Qed.

Lemma telnetLoop_clean_client (fuel : nat) :
  forall c1 c2 data clean r1 r2,
    snd (fst (telnetLoop fuel c1 data clean r1))
    = snd (fst (telnetLoop fuel c2 data clean r2)).
Proof.
  induction fuel as [|fuel IH]; intros c1 c2 data clean r1 r2; [reflexivity|].
  destruct data as [|d0 rest0]; [reflexivity|]. cbn [telnetLoop].
  destruct (d0 =? IAC); [|apply IH].
  destruct rest0 as [|d1 rest1]; [apply IH|].
  destruct (d1 =? IAC); [apply IH|].
  destruct rest1 as [|option rest2].
  - destruct (d1 =? SB); apply IH.
  - destruct ((SE <=? d1) && (d1 <=? DONT)).
    + destruct (negotiate c1 d1 option), (negotiate c2 d1 option). apply IH.
    + destruct (d1 =? SB); [|apply IH].
      destruct (scanSB rest2); apply IH.
Qed.

(** The clean stream does not depend on the client. *)
Lemma cleanOf_client (c1 c2 : Client) (data : list Z) :
  cleanOf c1 data = cleanOf c2 data.
Proof.
  unfold cleanOf, processTelnetData.
  pose proof (telnetLoop_clean_client (List.length data) c1 c2 data [] [] []) as H.
  destruct (telnetLoop (List.length data) c1 data [] []) as [[c1' cl1] rs1].
  destruct (telnetLoop (List.length data) c2 data [] []) as [[c2' cl2] rs2].
  exact H.
Qed.

(** Whether the detector consumes a chunk does not depend on the
    client either. *)
Lemma consumed_client (e : Env) (c1 c2 : Client) (l : LrzszReceiver)
      (data : list Z) :
  consumed (ProcessData e c1 l data) = consumed (ProcessData e c2 l data).
Proof.
  unfold ProcessData. destruct (negb (active l)).
  - destruct (findZmodemStartIndex (buffer l ++ data)) as [startIdx ok].
    destruct ok; [|reflexivity].
    unfold startRz. destruct (rzSpawn e); try reflexivity.
    cbn -[processTelnetData from].
    destruct (startIdx <? len (buffer l ++ data)); [|reflexivity].
    destruct (processTelnetData c1 _) as [[? cl1] ?].
    destruct (processTelnetData c2 _) as [[? cl2] ?].
    destruct (0 <? len cl1), (0 <? len cl2); reflexivity.
  - destruct (rzStdin l); [|reflexivity].
    destruct (processTelnetData c1 data) as [[? cl1] ?].
    destruct (processTelnetData c2 data) as [[? cl2] ?].
    unfold writeRz. destruct (rzWriteOk e); reflexivity.
Qed.

(** [completeTransfer] and [Cancel] end the transfer. *)
Lemma completeTransfer_inactive (e : Env) (l : LrzszReceiver) :
  active (fst (completeTransfer e l)) = false /\
  buffer (fst (completeTransfer e l)) = [] /\
  rzStdin (fst (completeTransfer e l)) = None.
Proof. repeat split. Qed.

Lemma Cancel_inactive (l : LrzszReceiver) :
  active (fst (Cancel l)) = false /\ pipeOpen (fst (Cancel l)).
Proof.
  unfold Cancel, pipeOpen. destruct (active l) eqn:E; cbn.
  - split; [reflexivity | discriminate].
  - split; [exact E | congruence].
Qed.

(** A chunk the detector consumes: nothing is left for the display,
    nothing of what the call sends goes to the display, and an active
    receiver comes out with its pipe open. *)
Lemma ProcessData_consumed (e : Env) (c : Client) (l : LrzszReceiver)
      (data : list Z) :
  consumed (ProcessData e c l data) = true ->
  remaining (ProcessData e c l data) = [] /\
  filter isDisplay (events (ProcessData e c l data)) = [] /\
  pipeOpen (receiver' (ProcessData e c l data)).
Proof.
  unfold ProcessData, pipeOpen. destruct (negb (active l)).
  - destruct (findZmodemStartIndex (buffer l ++ data)) as [startIdx ok].
    destruct ok.
    + unfold startRz, requestTelnetBinary.
      destruct (rzSpawn e); cbn -[processTelnetData from]; try discriminate.
      destruct (startIdx <? len (buffer l ++ data)).
      * pose proof (processTelnetData_quiet c (from startIdx (buffer l ++ data)))
          as [Hq _].
        destruct (processTelnetData c _) as [[c1 clean] evTel]. cbn [snd] in Hq.
        unfold writeRz. destruct (0 <? len clean); cbn; intros _;
          (repeat split; [|discriminate]);
          destruct (telnet c); cbn; rewrite ?filter_app, ?Hq; reflexivity.
      * cbn. intros _. repeat split; [|discriminate].
        destruct (telnet c); reflexivity.
    + destruct (1024 <? len (buffer l ++ data)); discriminate.
  - destruct (rzStdin l) as [pipe|]; [|discriminate].
    pose proof (processTelnetData_quiet c data) as [Hq _].
    destruct (processTelnetData c data) as [[c1 clean] evTel]. cbn [snd] in Hq.
    unfold writeRz, completeTransfer. destruct (rzWriteOk e); cbn; intros _.
    + repeat split; [|discriminate]. rewrite filter_app, Hq. reflexivity.
    + repeat split; [|discriminate]. rewrite filter_app, Hq. cbn.
      destruct (tempDir l); [|reflexivity].
      induction (rzFiles e); [reflexivity | assumption].
Qed.

(** A chunk that arrives while the transfer is under way: it is
    consumed, its telnet-cleaned bytes are what is written to rz, and
    that is the only write. *)
Lemma ProcessData_active (e : Env) (c : Client) (l : LrzszReceiver)
      (data pipe : list Z) :
  active l = true -> rzStdin l = Some pipe ->
  consumed (ProcessData e c l data) = true /\
  rzWrites (events (ProcessData e c l data)) = [cleanOf c data].
Proof.
  intros Hact Hpipe. unfold ProcessData. rewrite Hact, Hpipe. cbn [negb].
  unfold cleanOf.
  pose proof (processTelnetData_quiet c data) as [_ Hq].
  destruct (processTelnetData c data) as [[c1 clean] evTel]. cbn [fst snd] in *.
  unfold writeRz, completeTransfer, rzWrites in *.
  destruct (rzWriteOk e); cbn; (split; [reflexivity|]);
    rewrite flat_map_app, Hq; cbn; [reflexivity|].
  destruct (tempDir l); [|reflexivity].
  induction (rzFiles e); [reflexivity | assumption].
Qed.

Lemma len_pos (d : list Z) : d <> [] -> (0 <? len d) = true.
Proof.
  intros H. destruct d; [congruence|]. unfold len. simpl. apply Z.ltb_lt. lia.
Qed.

(** One iteration of the read loop on a chunk the detector consumes. *)
Lemma readTelnetChunk_consumed (e : Env) (s : Session) (l : LrzszReceiver)
      (rawData : list Z) :
  zmodemReceiver s = Some l ->
  consumed (ProcessData e (client s) l rawData) = true ->
  filter isDisplay (snd (readTelnetChunk e s rawData)) = [] /\
  exists l', zmodemReceiver (fst (readTelnetChunk e s rawData)) = Some l' /\
             pipeOpen l'.
Proof.
  intros Hrecv Hcons. unfold readTelnetChunk.
  destruct (negb (0 <? len rawData)).
  - split; [reflexivity|]. exists l. split; [assumption|].
    unfold pipeOpen. intros Hact Hnone. unfold ProcessData in Hcons.
    rewrite Hact, Hnone in Hcons. discriminate.
  - rewrite Hrecv.
    set (c := if hasZmodemSignature rawData && negb (receiverActive (Some l))
              then if negb (suppressZmodem (client s))
                   then set_suppress (client s) true (now e + 5000)
                   else client s
              else client s).
    rewrite (consumed_client e (client s) c) in Hcons.
    destruct (ProcessData_consumed e c l rawData Hcons) as [Hrem [Hev Hopen]].
    rewrite Hcons, Hrem. cbn [len List.length Z.of_nat Z.ltb Z.compare].
    cbv iota beta.
    replace (if Active (receiver' (ProcessData e c l rawData))
             then [] else []) with (@nil Z)
      by (now destruct (Active _)).
    cbn [fst snd len List.length Z.of_nat Z.ltb Z.compare andb].
    rewrite app_nil_r, app_nil_r. split; [exact Hev|].
    eexists. split; [reflexivity | exact Hopen].
Qed.

(** One iteration of the read loop while the transfer is under way. *)
Lemma readTelnetChunk_active (e : Env) (s : Session) (l : LrzszReceiver)
      (rawData : list Z) :
  zmodemReceiver s = Some l -> active l = true -> pipeOpen l ->
  rawData <> [] ->
  filter isDisplay (snd (readTelnetChunk e s rawData)) = [] /\
  rzWrites (snd (readTelnetChunk e s rawData)) = [cleanOf (client s) rawData] /\
  exists l', zmodemReceiver (fst (readTelnetChunk e s rawData)) = Some l' /\
             pipeOpen l'.
Proof.
  intros Hrecv Hact Hopen Hne.
  destruct (rzStdin l) as [pipe|] eqn:Hpipe; [|now elim (Hopen Hact)].
  destruct (ProcessData_active e (client s) l rawData pipe Hact Hpipe)
    as [Hcons Hw].
  destruct (readTelnetChunk_consumed e s l rawData Hrecv Hcons) as [Hd Hl'].
  split; [exact Hd|]. split; [|exact Hl'].
  unfold readTelnetChunk. rewrite (len_pos _ Hne). cbn [negb].
  rewrite Hrecv. change (receiverActive (Some l)) with (active l).
  rewrite Hact. cbn [negb]. rewrite andb_false_r. rewrite Hcons.
  destruct (ProcessData_consumed e (client s) l rawData Hcons) as [Hrem _].
  rewrite Hrem. cbn [len List.length Z.of_nat Z.ltb Z.compare].
  cbv iota beta.
  replace (if Active (receiver' (ProcessData e (client s) l rawData))
           then [] else []) with (@nil Z)
    by (now destruct (Active _)).
  cbn [fst snd len List.length Z.of_nat Z.ltb Z.compare andb].
  rewrite app_nil_r, app_nil_r. exact Hw.
Qed.

(** What is sent when rz exits or the download is cancelled goes
    neither to the display nor to rz. *)
Lemma monitorRz_quiet (e : Env) (l : LrzszReceiver) :
  quiet (snd (monitorRz e l)) /\ pipeOpen (fst (monitorRz e l)).
Proof.
  unfold monitorRz, completeTransfer, quiet, pipeOpen.
  destruct (active l) eqn:E; cbn; [|repeat split; congruence].
  repeat split; try discriminate;
    (destruct (tempDir l); [|reflexivity]);
    induction (rzFiles e); (reflexivity || assumption).
Qed.

Lemma Cancel_quiet (l : LrzszReceiver) : quiet (snd (Cancel l)).
Proof. unfold Cancel. destruct (negb (active l)); now split. Qed.

(** A run in which every chunk arrives while the transfer is under
    way. *)
Lemma runSession_active (inputs : list Input) :
  forall (s : Session) (l : LrzszReceiver) (c : Client),
    zmodemReceiver s = Some l -> pipeOpen l ->
    Forall chunkNonEmpty inputs ->
    transferStaysActive s inputs ->
    filter isDisplay (snd (runSession s inputs)) = [] /\
    rzWrites (snd (runSession s inputs)) = cleanedChunks c inputs.
Proof.
  induction inputs as [|i inputs IH]; intros s l c Hrecv Hopen Hne Hstay.
  - now split.
  - cbn [runSession]. cbn [transferStaysActive] in Hstay.
    destruct Hstay as [Hact Hstay].
    inversion Hne as [|? ? Hne1 Hne2]; subst.
    assert (Hstep : filter isDisplay (snd (sessionStep s i)) = [] /\
                    rzWrites (snd (sessionStep s i)) = cleanedChunks c [i] /\
                    exists l', zmodemReceiver (fst (sessionStep s i)) = Some l' /\
                               pipeOpen l').
    { destruct i as [rawData e|e|]; cbn [sessionStep].
      - rewrite Hrecv in Hact. cbn in Hact. cbn in Hne1.
        destruct (readTelnetChunk_active e s l rawData Hrecv Hact Hopen Hne1)
          as [Hd [Hw Hl']].
        repeat split; [exact Hd | | exact Hl'].
        rewrite Hw. cbn. now rewrite (cleanOf_client (client s) c).
      - rewrite Hrecv. destruct (monitorRz_quiet e l) as [[Hd Hw] Hopen'].
        destruct (monitorRz e l) as [l' evs]. cbn [fst snd] in *.
        repeat split; [exact Hd | exact Hw |].
        exists l'. now split.
      - rewrite Hrecv. destruct (Cancel_quiet l) as [Hd Hw].
        destruct (Cancel_inactive l) as [_ Hopen'].
        destruct (Cancel l) as [l' evs]. cbn [fst snd] in *.
        repeat split; [exact Hd | exact Hw |].
        exists l'. now split. }
    destruct Hstep as [Hd [Hw [l' [Hrecv' Hopen']]]].
    destruct (sessionStep s i) as [s1 evs1]. cbn [fst snd] in *.
    destruct (IH s1 l' c Hrecv' Hopen' Hne2 Hstay) as [Hd' Hw'].
    destruct (runSession s1 inputs) as [s2 evs2]. cbn [fst snd] in *.
    unfold rzWrites, cleanedChunks in *.
    rewrite filter_app, flat_map_app, Hd, Hd', Hw, Hw'.
    split; [reflexivity|]. cbn [flat_map]. now rewrite app_nil_r.
Qed.

(** Once [ProcessData] has reported [consumed = true] for a chunk,
    neither that chunk nor any chunk that arrives before the transfer
    completes or is cancelled reaches the display pipeline, and each of
    those later chunks is written, telnet-cleaned, to the input pipe of
    rz. *)
Theorem readTelnet_transfer_exclusive
        (s : Session) (l : LrzszReceiver) (rawData : list Z) (e : Env)
        (inputs : list Input) :
  zmodemReceiver s = Some l ->
  consumed (ProcessData e (client s) l rawData) = true ->
  Forall chunkNonEmpty inputs ->
  transferStaysActive (fst (readTelnetChunk e s rawData)) inputs ->
  filter isDisplay (snd (runSession s (Chunk rawData e :: inputs))) = [] /\
  rzWrites (snd (runSession (fst (readTelnetChunk e s rawData)) inputs))
  = cleanedChunks (client s) inputs.
Proof.
  intros Hrecv Hcons Hne Hstay.
  destruct (readTelnetChunk_consumed e s l rawData Hrecv Hcons)
    as [Hd [l' [Hrecv' Hopen']]].
  destruct (runSession_active inputs _ l' (client s) Hrecv' Hopen' Hne Hstay)
    as [Hd' Hw'].
  split; [|exact Hw'].
  cbn [runSession sessionStep].
  destruct (readTelnetChunk e s rawData) as [s1 evs1]. cbn [fst snd] in *.
  destruct (runSession s1 inputs) as [s2 evs2]. cbn [fst snd] in *.
  now rewrite filter_app, Hd, Hd'.
Qed.

Lemma readTelnet_transfer_exclusive_witness :
  let c := mkClient true "CP437" false 0 false false false false 80 25 in
  let s := mkSession c (Some NewLrzszReceiver) in
  let e := mkEnv 1000 Started true [] in
  let inputs := [Chunk [1; 2; 255; 255; 3] e;
                 Chunk [13; 10] (mkEnv 2000 Started true []);
                 CancelDownload] in
  filter isDisplay
         (snd (runSession s (Chunk [42; 42; 24; 66; 48; 48] e :: inputs))) = [] /\
  rzWrites (snd (runSession
                   (fst (readTelnetChunk e s [42; 42; 24; 66; 48; 48])) inputs))
  = [[1; 2; 255; 3]; [13; 10]].
Proof.
  cbv zeta.
  apply (readTelnet_transfer_exclusive
           (mkSession (mkClient true "CP437" false 0 false false false false 80 25)
                      (Some NewLrzszReceiver))
           NewLrzszReceiver [42; 42; 24; 66; 48; 48]
           (mkEnv 1000 Started true [])
           [Chunk [1; 2; 255; 255; 3] (mkEnv 1000 Started true []);
            Chunk [13; 10] (mkEnv 2000 Started true []);
            CancelDownload]).
  - reflexivity.
  - reflexivity.
  - repeat constructor; discriminate.
  - cbn [transferStaysActive]. repeat split; reflexivity.
Defined.

End TransferExclusive.

(** * Further properties *)

(** ** The enhanced ANSI processor *)
Section AnsiProcessor.
Import GoBytes AnsiEnhanced Normalize.

Lemma Equal_eq (a b : list Z) : Equal a b = true <-> a = b.
Proof.
  revert b. induction a as [|x a IH]; intros [|y b]; simpl;
    try (split; [discriminate | intros H; discriminate]).
  - now split.
  - rewrite andb_true_iff, Z.eqb_eq, IH. split.
    + now intros [-> ->].
    + intros H. injection H as -> ->. now split.
Qed.

Lemma processLoop_cons (p : ANSIEnhancedProcessor) (result : list Z)
      (b : Z) (data : list Z) :
  processLoop p result (b :: data)
  = processLoop (fst (processByte p result b)) (snd (processByte p result b)) data.
Proof. cbn [processLoop]. now destruct (processByte p result b). Qed.

(** An idle processor copies a byte that is not special. *)
Lemma processByte_ordinary (p : ANSIEnhancedProcessor) (result : list Z) (b : Z) :
  inSequence p = false -> ansiSpecial b = false ->
  processByte p result b = (p, result ++ [b]).
Proof.
  intros Hidle Hb. unfold ansiSpecial in Hb.
  repeat (apply orb_false_iff in Hb; destruct Hb as [Hb ?]).
  unfold processByte.
  repeat match goal with
         | H : (b =? ?k) = false |- _ => rewrite H; clear H
         end.
  rewrite Hidle.
  destruct (b =? 14); [reflexivity|]. destruct (b =? 15); reflexivity.
Qed.

Lemma processLoop_ordinary (data : list Z) :
  forall p result,
    inSequence p = false -> forallb (fun b => negb (ansiSpecial b)) data = true ->
    processLoop p result data = (p, result ++ data).
Proof.
  induction data as [|b data IH]; intros p result Hidle Hall.
  - cbn. now rewrite app_nil_r.
  - cbn [forallb] in Hall. apply andb_true_iff in Hall. destruct Hall as [Hb Hall].
    apply negb_true_iff in Hb.
    rewrite processLoop_cons, (processByte_ordinary p result b Hidle Hb).
    cbn [fst snd]. rewrite (IH p _ Hidle Hall). now rewrite <- app_assoc.
Qed.

(** X1: a processor that is not inside a sequence returns text without
    [ESC], form feed and the C1 codes 0x90, 0x9B, 0x9C, 0x9D exactly as
    it came, and stays as it was. *)
Theorem ProcessANSIData_ordinary_text (p : ANSIEnhancedProcessor) (data : list Z) :
  inSequence p = false -> sequenceBuffer p = [] ->
  forallb (fun b => negb (ansiSpecial b)) data = true ->
  ProcessANSIData p data = (p, data).
Proof.
  intros Hidle Hbuf Hall. unfold ProcessANSIData.
  rewrite (processLoop_ordinary data p [] Hidle Hall). now rewrite Hbuf.
Qed.

Lemma ProcessANSIData_ordinary_text_witness :
  ProcessANSIData (NewANSIEnhancedProcessor false) [72; 105; 13; 10; 0xC9; 0xCD; 14]
  = (NewANSIEnhancedProcessor false, [72; 105; 13; 10; 0xC9; 0xCD; 14]).
Proof.
  apply (ProcessANSIData_ordinary_text (NewANSIEnhancedProcessor false)
           [72; 105; 13; 10; 0xC9; 0xCD; 14]); reflexivity.
Defined.

(** A sequence buffer of more than 100 bytes always counts as
    complete. *)
Lemma isSequenceComplete_long (buf : list Z) :
  100 < len buf -> isSequenceComplete buf = true.
Proof.
  intros H. destruct buf as [|b0 [|second rest]];
    try (unfold len in H; simpl in H; lia).
  unfold isSequenceComplete.
  assert (Hlong : (100 <? len (b0 :: second :: rest)) = true) by now apply Z.ltb_lt.
  assert (H3 : (3 <=? len (b0 :: second :: rest)) = true) by (apply Z.leb_le; lia).
  rewrite Hlong, H3.
  repeat match goal with
         | |- context [if ?t then _ else _] => destruct t
         end; reflexivity.
Qed.

Lemma len_app1 (l : list Z) (b : Z) : len (l ++ [b]) = len l + 1.
Proof. unfold len. rewrite length_app. simpl. lia. Qed.

Lemma processByte_bounded (p : ANSIEnhancedProcessor) (result : list Z) (b : Z) :
  len (sequenceBuffer p) <= 100 ->
  len (sequenceBuffer (fst (processByte p result b))) <= 100.
Proof.
  intros H. unfold processByte.
  repeat match goal with
         | |- context [if ?t =? ?k then _ else _] => destruct (t =? k)
         end; try (cbn; unfold len; simpl; lia); try assumption.
  - destruct (inSequence p); cbn [fst]; [cbn; unfold len; simpl; lia | assumption].
  - destruct (inSequence p); [|assumption].
    destruct (isSequenceComplete (sequenceBuffer p ++ [b])) eqn:E;
      cbn [fst sequenceBuffer setSeq]; [unfold len; simpl; lia|].
    destruct (Z.le_gt_cases (len (sequenceBuffer p ++ [b])) 100) as [Hle|Hgt];
      [exact Hle|].
    rewrite (isSequenceComplete_long _ Hgt) in E. discriminate.
Qed.

Lemma processLoop_bounded (data : list Z) :
  forall p result,
    len (sequenceBuffer p) <= 100 ->
    len (sequenceBuffer (fst (processLoop p result data))) <= 100.
Proof.
  induction data as [|b data IH]; intros p result H; [exact H|].
  rewrite processLoop_cons. apply IH. now apply processByte_bounded.
Qed.

Lemma ProcessANSIData_bounded (p : ANSIEnhancedProcessor) (data : list Z) :
  len (sequenceBuffer p) <= 100 ->
  len (sequenceBuffer (fst (ProcessANSIData p data))) <= 100.
Proof.
  intros H. unfold ProcessANSIData.
  pose proof (processLoop_bounded data p [] H) as Hb.
  destruct (processLoop p [] data) as [p' result]. cbn [fst] in Hb.
  now destruct (0 <? len (sequenceBuffer p')).
Qed.

(** X2: whatever chunks a new processor is fed, the sequence it holds
    back never grows beyond 100 bytes: a longer one is taken as
    complete and flushed. *)
Theorem feedChunks_carry_bounded (debug : bool) (chunks : list (list Z)) :
  len (sequenceBuffer (fst (feedChunks (NewANSIEnhancedProcessor debug) chunks)))
  <= 100.
Proof.
  assert (H : forall chunks p,
             len (sequenceBuffer p) <= 100 ->
             len (sequenceBuffer (fst (feedChunks p chunks))) <= 100).
  { clear chunks. induction chunks as [|ch chunks IH]; intros p Hp; [exact Hp|].
    cbn [feedChunks].
    pose proof (ProcessANSIData_bounded p ch Hp) as H1.
    destruct (ProcessANSIData p ch) as [p1 out1]. cbn [fst] in H1.
    specialize (IH p1 H1). now destruct (feedChunks p1 chunks). }
  apply H. unfold len. simpl. lia.
Qed.

(** The 8-bit introducers CSI (0x9B) and OSC (0x9D) are handled
    exactly as their 7-bit forms [ESC '['] and [ESC ']'], whatever the
    processor holds and whatever follows. *)
Theorem ProcessANSIData_C1_as_7bit (p : ANSIEnhancedProcessor) (rest : list Z) :
  ProcessANSIData p (0x9B :: rest) = ProcessANSIData p (0x1B :: 91 :: rest) /\
  ProcessANSIData p (0x9D :: rest) = ProcessANSIData p (0x1B :: 93 :: rest).
Proof.
  unfold ProcessANSIData. split; rewrite !processLoop_cons; reflexivity.
Qed.

Lemma isParam_range (x : Z) : isParam x = true -> 48 <= x <= 59.
Proof.
  unfold isParam. intros H. apply orb_true_iff in H. destruct H as [H|H].
  - apply Z.eqb_eq in H. lia.
  - apply andb_true_iff in H. destruct H as [H1 H2].
    apply Z.leb_le in H1, H2. lia.
Qed.

Lemma isFinalByte_range (c : Z) : isFinalByte c = true -> 64 <= c <= 126.
Proof.
  unfold isFinalByte. intros H. apply andb_true_iff in H. destruct H as [H1 H2].
  apply Z.leb_le in H1, H2. lia.
Qed.

Lemma params_no_final (params : list Z) :
  forallb isParam params = true -> existsb isFinalByte params = false.
Proof.
  induction params as [|x ps IH]; [reflexivity|]. cbn [forallb existsb].
  intros H. apply andb_true_iff in H. destruct H as [Hx Hps].
  rewrite (IH Hps), orb_false_r. apply isParam_range in Hx.
  unfold isFinalByte. apply andb_false_iff. left. apply Z.leb_gt. lia.
Qed.

Ltac eqb_false_by_lia :=
  repeat match goal with
         | |- context [?x =? ?k] =>
             let E := fresh "E" in
             destruct (x =? k) eqn:E; [apply Z.eqb_eq in E; lia | clear E]
         end.

(** Inside [ESC '['] a digit or semicolon is added to the buffer. *)
Lemma processByte_param (p : ANSIEnhancedProcessor) (result done : list Z) (x : Z) :
  forallb isParam done = true -> isParam x = true ->
  len (0x1B :: 91 :: done ++ [x]) <= 100 ->
  processByte (setSeq p true (0x1B :: 91 :: done)) result x
  = (setSeq p true (0x1B :: 91 :: done ++ [x]), result).
Proof.
  intros Hdone Hx Hlen. pose proof (isParam_range x Hx) as Hr.
  unfold processByte. eqb_false_by_lia.
  cbn [inSequence sequenceBuffer setSeq app].
  assert (Hc : isSequenceComplete (27 :: 91 :: done ++ [x]) = false).
  { unfold isSequenceComplete. change (91 =? 91) with true. cbv iota.
    rewrite (params_no_final (done ++ [x])).
    - apply Z.ltb_ge. exact Hlen.
    - rewrite forallb_app, Hdone. cbn. now rewrite Hx. }
  rewrite Hc. reflexivity.
Qed.

Lemma processLoop_params (params : list Z) :
  forall p result done tl,
    forallb isParam done = true -> forallb isParam params = true ->
    len (0x1B :: 91 :: done ++ params) <= 100 ->
    processLoop (setSeq p true (0x1B :: 91 :: done)) result (params ++ tl)
    = processLoop (setSeq p true (0x1B :: 91 :: done ++ params)) result tl.
Proof.
  induction params as [|x ps IH]; intros p result done tl Hdone Hps Hlen.
  - now rewrite app_nil_r.
  - cbn [forallb] in Hps. apply andb_true_iff in Hps. destruct Hps as [Hx Hps].
    cbn [app]. rewrite processLoop_cons.
    assert (Hlen1 : len (27 :: 91 :: done ++ [x]) <= 100).
    { unfold len in *. cbn [List.length] in *. rewrite length_app in *.
      cbn [List.length] in *. lia. }
    rewrite (processByte_param p result done x Hdone Hx Hlen1). cbn [fst snd].
    change (setSeq p true (27 :: 91 :: done ++ [x]))
      with (setSeq p true (27 :: 91 :: (done ++ [x]))).
    rewrite (IH p result (done ++ [x]) tl).
    + now rewrite <- app_assoc.
    + rewrite forallb_app, Hdone. cbn. now rewrite Hx.
    + exact Hps.
    + now rewrite <- app_assoc.
Qed.

(** The final byte completes the sequence, which is handed whole to
    [processCompleteSequence]. *)
Lemma processByte_final (p : ANSIEnhancedProcessor) (result params : list Z) (c : Z) :
  isFinalByte c = true ->
  processByte (setSeq p true (0x1B :: 91 :: params)) result c
  = (setSeq p false [],
     result ++ processCompleteSequence (0x1B :: 91 :: params ++ [c])).
Proof.
  intros Hc. pose proof (isFinalByte_range c Hc) as Hr.
  unfold processByte. eqb_false_by_lia.
  cbn [inSequence sequenceBuffer setSeq app].
  assert (Hcomplete : isSequenceComplete (27 :: 91 :: params ++ [c]) = true).
  { unfold isSequenceComplete. change (91 =? 91) with true. cbv iota.
    rewrite existsb_app. cbn [existsb]. rewrite Hc.
    now rewrite orb_true_r. }
  rewrite Hcomplete. reflexivity.
Qed.

Lemma Index_present (s sub : list Z) : Index s sub <> -1 -> occurs sub s.
Proof.
  induction s as [|x s IH]; cbn [Index].
  - destruct (HasPrefix [] sub) eqn:E; [|congruence].
    intros _. apply HasPrefix_true_iff in E. destruct E as [post E].
    now exists [], post.
  - destruct (HasPrefix (x :: s) sub) eqn:E.
    + intros _. apply HasPrefix_true_iff in E. destruct E as [post E].
      now exists [], post.
    + destruct (Index s sub <? 0) eqn:Elt; [congruence|].
      intros _. apply Z.ltb_ge in Elt.
      destruct IH as [pre [post H]]; [lia|].
      exists (x :: pre), post. now rewrite H.
Qed.

Lemma Contains_true_iff (s sub : list Z) : Contains s sub = true <-> occurs sub s.
Proof.
  unfold Contains. rewrite negb_true_iff, Z.eqb_neq. split.
  - apply Index_present.
  - intros Hocc E. apply Index_absent_iff in E. contradiction.
Qed.

Lemma Equal_false_length (a b : list Z) :
  List.length a <> List.length b -> Equal a b = false.
Proof.
  intros H. apply not_true_iff_false. rewrite Equal_eq. intros ->. now apply H.
Qed.

Lemma Equal_csi_tail (params tail : list Z) (c k : Z) :
  Equal (0x1B :: 91 :: params ++ [c]) (0x1B :: 91 :: tail ++ [k])
  = Equal params tail && (c =? k).
Proof.
  apply eq_true_iff_eq. rewrite andb_true_iff, !Equal_eq, Z.eqb_eq. split.
  - intros H. injection H as H. apply app_inj_tail in H. exact H.
  - now intros [-> ->].
Qed.

Lemma last_app1 (l : list Z) (x d : Z) : last (l ++ [x]) d = x.
Proof. apply last_last. Qed.

(** ["2J"] is found in [ESC '[' params c] exactly when [c] is ['J'] and
    the last parameter byte is ['2']. *)
Lemma Contains_2J (params : list Z) (c : Z) :
  forallb isParam params = true -> isFinalByte c = true ->
  Contains (0x1B :: 91 :: params ++ [c]) [50; 74]
  = (c =? 74) && (last params 0 =? 50) && negb (Equal params []).
Proof.
  intros Hps Hc. apply eq_true_iff_eq.
  rewrite Contains_true_iff, !andb_true_iff, !Z.eqb_eq, negb_true_iff. split.
  - intros [pre [post H]].
    assert (Hno74 : ~ In 74 (27 :: 91 :: params)).
    { intros [E|[E|Hin]]; try discriminate.
      rewrite forallb_forall in Hps. apply Hps in Hin.
      apply isParam_range in Hin. lia. }
    destruct (rev post) as [|z tsop] eqn:Er.
    + assert (post = []) by (apply (f_equal (@rev Z)) in Er;
                             now rewrite rev_involutive in Er).
      subst post. cbn [app] in H.
      change (27 :: 91 :: params ++ [c]) with ((27 :: 91 :: params) ++ [c]) in H.
      replace (pre ++ [50; 74]) with ((pre ++ [50]) ++ [74]) in H
        by now rewrite <- app_assoc.
      apply app_inj_tail in H. destruct H as [H ->].
      destruct params as [|x ps].
      * exfalso. destruct pre as [|a [|b pre]]; try discriminate.
        destruct pre; discriminate.
      * assert (Hl : last (27 :: 91 :: x :: ps) 0 = 50)
          by (rewrite H; apply last_last).
        repeat split. exact Hl.
    + exfalso. assert (Hp : post = rev tsop ++ [z]).
      { apply (f_equal (@rev Z)) in Er. rewrite rev_involutive in Er.
        exact Er. }
      subst post.
      change (27 :: 91 :: params ++ [c]) with ((27 :: 91 :: params) ++ [c]) in H.
      replace (pre ++ [50; 74] ++ rev tsop ++ [z])
        with ((pre ++ [50; 74] ++ rev tsop) ++ [z]) in H
        by (now rewrite <- !app_assoc).
      apply app_inj_tail in H. destruct H as [H _].
      apply Hno74. rewrite H. apply in_or_app. right. right. now left.
  - intros [[-> Hlast] Hne].
    destruct params as [|x ps] using rev_ind; [discriminate|].
    rewrite last_last in Hlast. subst x.
    exists (27 :: 91 :: ps), []. cbn [app]. now rewrite <- app_assoc.
Qed.

(** On a sequence with digits and semicolons as parameters
    [processCompleteSequence] does what [canonicalCSI] says. *)
Lemma processCompleteSequence_CSI (params : list Z) (c : Z) :
  forallb isParam params = true -> isFinalByte c = true ->
  processCompleteSequence (0x1B :: 91 :: params ++ [c]) = canonicalCSI params c.
Proof.
  intros Hps Hc. destruct params as [|x ps].
  - unfold processCompleteSequence, canonicalCSI. cbn.
    destruct (c =? 74) eqn:E1; [apply Z.eqb_eq in E1; now subst|].
    destruct (c =? 75) eqn:E2; [apply Z.eqb_eq in E2; now subst|].
    destruct (c =? 109) eqn:E3; [apply Z.eqb_eq in E3; now subst|].
    reflexivity.
  - pose proof (Contains_2J (x :: ps) c Hps Hc) as HC.
    unfold processCompleteSequence, canonicalCSI.
    rewrite !Equal_false_length
      by (cbn [List.length app]; rewrite length_app; cbn; lia).
    assert (Hcsi : (4 <=? len (27 :: 91 :: (x :: ps) ++ [c])) = true).
    { apply Z.leb_le. unfold len. cbn [List.length app].
      rewrite length_app. cbn. lia. }
    cbn [app] in Hcsi |- *. rewrite Hcsi.
    change ((27 =? 27) && (91 =? 91)) with true. cbn [andb].
    change (27 :: 91 :: x :: ps ++ [c]) with (27 :: 91 :: (x :: ps) ++ [c]).
    rewrite (Equal_csi_tail (x :: ps) [50] c 74 : Equal _ [27; 91; 50; 74] = _).
    rewrite (Equal_csi_tail (x :: ps) [48; 59; 50] c 74
             : Equal _ [27; 91; 48; 59; 50; 74] = _).
    rewrite HC. change (Equal (x :: ps) []) with false. cbn [negb].
    rewrite andb_true_r.
    change (27 =? 27) with true. cbn [andb].
    destruct (c =? 74) eqn:E74; cbn [andb orb]; rewrite ?andb_false_r;
      [|reflexivity].
    apply Z.eqb_eq in E74. subst c. rewrite ?andb_true_r.
    destruct (last (x :: ps) 0 =? 50) eqn:El.
    + destruct (Equal (x :: ps) [50] || Equal (x :: ps) [48; 59; 50]);
        [reflexivity|]. cbn [app]. now rewrite <- app_assoc.
    + assert (H1 : Equal (x :: ps) [50] = false).
      { apply not_true_iff_false. rewrite Equal_eq. intros H. rewrite H in El.
        discriminate. }
      assert (H2 : Equal (x :: ps) [48; 59; 50] = false).
      { apply not_true_iff_false. rewrite Equal_eq. intros H. rewrite H in El.
        discriminate. }
      rewrite H1, H2. reflexivity.
Qed.

(** X3: a CSI sequence with digits and semicolons as parameters, met
    anywhere in a chunk and short enough not to be cut off, is emitted
    in one piece and canonical: a bare [ESC[J], [ESC[K] or [ESC[m] gets
    the parameter [0]; a sequence ending in [2J] gets [ESC[H] after it
    ([ESC[0;2J] becoming [ESC[2J]); any other comes out as it is.  The
    processor then goes on with an empty buffer. *)
Theorem ProcessANSIData_canonical_CSI
        (p : ANSIEnhancedProcessor) (params rest : list Z) (c : Z) :
  forallb isParam params = true -> isFinalByte c = true -> len params <= 98 ->
  ProcessANSIData p (0x1B :: 91 :: params ++ c :: rest)
  = (fst (ProcessANSIData (setSeq p false []) rest),
     canonicalCSI params c ++ snd (ProcessANSIData (setSeq p false []) rest)).
Proof.
  intros Hps Hc Hlen. unfold ProcessANSIData.
  rewrite !processLoop_cons.
  change (fst (processByte p [] 27)) with (setSeq p true [27]).
  change (snd (processByte p [] 27)) with (@nil Z).
  change (fst (processByte (setSeq p true [27]) [] 91))
    with (setSeq p true (27 :: 91 :: [])).
  change (snd (processByte (setSeq p true [27]) [] 91)) with (@nil Z).
  rewrite (processLoop_params params p [] [] (c :: rest) eq_refl Hps)
    by (unfold len in *; cbn [List.length app] in *; lia).
  cbn [app]. rewrite processLoop_cons, (processByte_final p [] params c Hc).
  cbn [fst snd app]. rewrite (processCompleteSequence_CSI params c Hps Hc).
  change (setSeq (setSeq p true (27 :: 91 :: params)) false [])
    with (setSeq p false []).
  rewrite (processLoop_result rest (setSeq p false []) (canonicalCSI params c)).
  destruct (processLoop (setSeq p false []) [] rest) as [p' out]. cbn [fst snd].
  destruct (0 <? len (sequenceBuffer p')); [now rewrite <- app_assoc | reflexivity].
Qed.

Lemma ProcessANSIData_canonical_CSI_witness :
  ProcessANSIData (NewANSIEnhancedProcessor false)
                  (0x1B :: 91 :: [49; 50] ++ 74 :: [65; 0x1B; 91; 109])
  = (NewANSIEnhancedProcessor false,
     [0x1B; 91; 49; 50; 74; 0x1B; 91; 72; 65; 0x1B; 91; 48; 109]).
Proof.
  apply (ProcessANSIData_canonical_CSI (NewANSIEnhancedProcessor false)
           [49; 50] [65; 0x1B; 91; 109] 74 eq_refl eq_refl).
  unfold len. simpl. lia.
Defined.

End AnsiProcessor.

(** ** The telnet filter on text and on option commands *)
Section TelnetText.
Import GoBytes Telnet Lrzsz.

(** X4: a chunk without any 0xFF byte is returned as it came; nothing
    is written to the socket and no option flag moves. *)
Theorem processTelnetData_plain (c : Client) (data : list Z) :
  Forall (fun b => b <> IAC) data ->
  processTelnetData c data = (c, data, []).
Proof.
  intros H. unfold processTelnetData.
  rewrite telnetLoop_plain by (assumption || lia). reflexivity.
Qed.

Lemma processTelnetData_plain_witness :
  processTelnetData (mkClient true "CP437" false 0 false false false false 80 25)
                    [72; 105; 13; 10]
  = (mkClient true "CP437" false 0 false false false false 80 25,
     [72; 105; 13; 10], []).
Proof.
  apply (processTelnetData_plain
           (mkClient true "CP437" false 0 false false false false 80 25)
           [72; 105; 13; 10]).
  repeat constructor; discriminate.
Defined.

Lemma telnetLoop_clean_length (fuel : nat) :
  forall c data clean response,
    (List.length (snd (fst (telnetLoop fuel c data clean response)))
     <= List.length clean + List.length data)%nat.
Proof.
  induction fuel as [|fuel IH]; intros c data clean response; [simpl; lia|].
  destruct data as [|d0 rest0]; [simpl; lia|]. cbn [telnetLoop].
  destruct (d0 =? IAC).
  - destruct rest0 as [|d1 rest1].
    + specialize (IH c [] clean response). simpl in *. lia.
    + destruct (d1 =? IAC).
      * specialize (IH c rest1 (clean ++ [IAC]) response).
        rewrite length_app in IH. simpl in *. lia.
      * destruct rest1 as [|option rest2].
        -- destruct (d1 =? SB); specialize (IH c [] clean response);
             simpl in *; lia.
        -- destruct ((SE <=? d1) && (d1 <=? DONT)).
           ++ destruct (negotiate c d1 option) as [c' resp].
              specialize (IH c' rest2 clean (response ++ resp)). simpl in *. lia.
           ++ destruct (d1 =? SB).
              ** pose proof (scanSB_length rest2) as Hs.
                 destruct (scanSB rest2) as [sb after|atJ].
                 --- match goal with
                     | |- context [telnetLoop fuel c after clean ?r] =>
                         specialize (IH c after clean r)
                     end. simpl in *. lia.
                 --- specialize (IH c atJ clean response). simpl in *. lia.
              ** specialize (IH c (option :: rest2) clean response).
                 simpl in *. lia.
  - specialize (IH c rest0 (clean ++ [d0]) response).
    rewrite length_app in IH. simpl in *. lia.
Qed.

(** The filter only removes: the clean stream is never longer than
    the chunk. *)
Theorem processTelnetData_never_grows (c : Client) (data : list Z) :
  len (cleanOf c data) <= len data.
Proof.
  unfold cleanOf, processTelnetData, len.
  pose proof (telnetLoop_clean_length (List.length data) c data [] []) as H.
  destruct (telnetLoop (List.length data) c data [] []) as [[c' clean] response].
  cbn [fst snd] in *. simpl in H. lia.
Qed.

Lemma telnetLoop_clean_acc (fuel : nat) :
  forall c data clean response,
    snd (fst (telnetLoop fuel c data clean response))
    = clean ++ snd (fst (telnetLoop fuel c data [] response)).
Proof.
  induction fuel as [|fuel IH]; intros c data clean response;
    [cbn; now rewrite app_nil_r|].
  destruct data as [|d0 rest0]; [cbn; now rewrite app_nil_r|]. cbn [telnetLoop].
  destruct (d0 =? IAC).
  - destruct rest0 as [|d1 rest1]; [apply IH|].
    destruct (d1 =? IAC).
    + rewrite (IH c rest1 (clean ++ [IAC])), (IH c rest1 ([] ++ [IAC])).
      now rewrite <- app_assoc.
    + destruct rest1 as [|option rest2].
      * destruct (d1 =? SB); apply IH.
      * destruct ((SE <=? d1) && (d1 <=? DONT)).
        -- destruct (negotiate c d1 option). apply IH.
        -- destruct (d1 =? SB); [|apply IH]. destruct (scanSB rest2); apply IH.
  - rewrite (IH c rest0 (clean ++ [d0])), (IH c rest0 ([] ++ [d0])).
    now rewrite <- app_assoc.
Qed.

(** X5: an option command [IAC cmd opt] (any command byte from SE to
    DONT) in the middle of text is cut out and the text around it is
    joined: what precedes it, free of 0xFF, and the cleaned rest. *)
Theorem processTelnetData_strips_command
        (c : Client) (pre post : list Z) (cmd opt : Z) :
  Forall (fun b => b <> IAC) pre -> SE <= cmd <= DONT ->
  cleanOf c (pre ++ IAC :: cmd :: opt :: post) = pre ++ cleanOf c post.
Proof.
  intros Hpre Hcmd. unfold cleanOf at 1, processTelnetData.
  assert (Hgo : forall fuel c clean response,
             (List.length (pre ++ IAC :: cmd :: opt :: post) <= fuel)%nat ->
             snd (fst (telnetLoop fuel c (pre ++ IAC :: cmd :: opt :: post)
                                  clean response))
             = clean ++ pre ++ cleanOf c post).
  { clear c. induction pre as [|b pre IH]; intros fuel c clean response Hfuel.
    - cbn [app] in *. destruct fuel as [|fuel]; [simpl in Hfuel; lia|].
      cbn [telnetLoop]. change (IAC =? IAC) with true. cbv iota.
      assert (E1 : (cmd =? IAC) = false) by (apply Z.eqb_neq; unfold IAC, DONT in *; lia).
      assert (E2 : ((SE <=? cmd) && (cmd <=? DONT)) = true).
      { apply andb_true_iff. split; apply Z.leb_le; lia. }
      rewrite E1, E2. destruct (negotiate c cmd opt) as [c' resp].
      rewrite telnetLoop_clean_acc. f_equal.
      simpl in Hfuel.
      rewrite (telnetLoop_fuel fuel (List.length post)) by lia.
      unfold cleanOf, processTelnetData.
      pose proof (telnetLoop_clean_client (List.length post) c' c post [] (response ++ resp) [])
        as Hcl.
      destruct (telnetLoop (List.length post) c' post [] (response ++ resp))
        as [[? ?] ?].
      destruct (telnetLoop (List.length post) c post [] []) as [[? ?] ?].
      exact Hcl.
    - inversion Hpre as [|? ? Hb Hpre']; subst.
      destruct fuel as [|fuel]; [simpl in Hfuel; lia|]. simpl in Hfuel.
      cbn [app telnetLoop]. apply Z.eqb_neq in Hb. rewrite Hb.
      rewrite (IH Hpre' fuel c (clean ++ [b]) response) by lia.
      now rewrite <- app_assoc. }
  pose proof (Hgo (List.length (pre ++ IAC :: cmd :: opt :: post)) c [] []
                  (Nat.le_refl _)) as H.
  destruct (telnetLoop (List.length (pre ++ IAC :: cmd :: opt :: post)) c
                       (pre ++ IAC :: cmd :: opt :: post) [] [])
    as [[c' clean] response].
  exact H.
Qed.

Lemma processTelnetData_strips_command_witness :
  cleanOf (mkClient true "CP437" false 0 false false false false 80 25)
          ([76; 111] ++ IAC :: WILL :: 1 :: [103; 105; 110; 58])
  = [76; 111; 103; 105; 110; 58].
Proof.
  apply (processTelnetData_strips_command
           (mkClient true "CP437" false 0 false false false false 80 25)
           [76; 111] [103; 105; 110; 58] WILL 1).
  - repeat constructor; discriminate.
  - unfold SE, WILL, DONT. lia.
Defined.

(** X6: the NAWS subnegotiation is always nine bytes,
    [IAC SB NAWS wHi wLo hHi hLo IAC SE]; for a terminal size below
    65536 in both directions the two byte pairs give the columns and
    the rows back, and a size with a zero in it is sent as 80 x 25. *)
Theorem buildNAWSSB_encodes_size (c : Client) :
  0 <= termCols c < 65536 -> 0 <= termRows c < 65536 ->
  exists wHi wLo hHi hLo,
    buildNAWSSB c = [IAC; SB; TELOPT_NAWS; wHi; wLo; hHi; hLo; IAC; SE] /\
    0 <= wHi < 256 /\ 0 <= wLo < 256 /\ 0 <= hHi < 256 /\ 0 <= hLo < 256 /\
    (256 * wHi + wLo, 256 * hHi + hLo)
    = if (termCols c =? 0) || (termRows c =? 0) then (80, 25)
      else (termCols c, termRows c).
Proof.
  intros Hc Hr. unfold buildNAWSSB.
  assert (Hsplit : forall v, 0 <= v < 65536 ->
            0 <= Z.land (Z.shiftr v 8) 255 < 256 /\ 0 <= Z.land v 255 < 256 /\
            256 * Z.land (Z.shiftr v 8) 255 + Z.land v 255 = v).
  { intros v Hv. change 255 with (Z.ones 8).
    rewrite !Z.land_ones by lia. rewrite Z.shiftr_div_pow2 by lia.
    change (2 ^ 8) with 256.
    assert (Hq : 0 <= v / 256 < 256).
    { split; [apply Z.div_pos; lia | apply Z.div_lt_upper_bound; lia]. }
    rewrite (Z.mod_small (v / 256) 256) by lia.
    pose proof (Z.mod_pos_bound v 256 ltac:(lia)).
    pose proof (Z.div_mod v 256 ltac:(lia)). lia. }
  destruct ((termCols c =? 0) || (termRows c =? 0)).
  - do 4 eexists. split; [reflexivity|]. cbn. repeat split; lia.
  - destruct (Hsplit (termCols c) Hc) as [? [? Hcols]].
    destruct (Hsplit (termRows c) Hr) as [? [? Hrows]].
    do 4 eexists. split; [reflexivity|].
    repeat split; try lia. now rewrite Hcols, Hrows.
Qed.

Lemma buildNAWSSB_encodes_size_witness :
  exists wHi wLo hHi hLo,
    buildNAWSSB (mkClient true "CP437" false 0 false false true false 300 25)
    = [IAC; SB; TELOPT_NAWS; wHi; wLo; hHi; hLo; IAC; SE] /\
    0 <= wHi < 256 /\ 0 <= wLo < 256 /\ 0 <= hHi < 256 /\ 0 <= hLo < 256 /\
    (256 * wHi + wLo, 256 * hHi + hLo) = (300, 25).
Proof.
  apply (buildNAWSSB_encodes_size
           (mkClient true "CP437" false 0 false false true false 300 25));
    cbn; lia.
Defined.

Lemma escapeIAC_app (a b : list Z) :
  escapeIAC (a ++ b) = escapeIAC a ++ escapeIAC b.
Proof.
  induction a as [|x a IH]; [reflexivity|]. cbn [app escapeIAC].
  now rewrite IH, <- app_assoc.
Qed.

Lemma escapeIAC_length (a : list Z) :
  (List.length a <= List.length (escapeIAC a) <= 2 * List.length a)%nat.
Proof.
  induction a as [|x a IH]; [simpl; lia|]. cbn [escapeIAC].
  rewrite length_app. destruct (x =? 255); simpl; lia.
Qed.

(** X7: the relay escapes each block it reads from rz on its own; the
    escaped blocks put end to end are the escaping of the whole output,
    at most twice as long, and the telnet filter gives the whole output
    back from them. *)
Theorem escapeIAC_blockwise (c : Client) (blocks : list (list Z)) :
  List.concat (map escapeIAC blocks) = escapeIAC (List.concat blocks) /\
  len (List.concat blocks) <= len (escapeIAC (List.concat blocks)) <= 2 * len (List.concat blocks) /\
  cleanOf c (List.concat (map escapeIAC blocks)) = List.concat blocks.
Proof.
  assert (H : List.concat (map escapeIAC blocks) = escapeIAC (List.concat blocks)).
  { induction blocks as [|b blocks IH]; [reflexivity|].
    cbn [map List.concat]. now rewrite IH, escapeIAC_app. }
  split; [exact H|]. split.
  - pose proof (escapeIAC_length (List.concat blocks)). unfold len. lia.
  - rewrite H. unfold cleanOf, processTelnetData.
    rewrite telnetLoop_escapeIAC by lia. reflexivity.
Qed.

End TelnetText.

(** ** The ZMODEM detector: where a transfer starts and how it ends *)
Section Detector.
Import GoBytes Telnet Lrzsz Server.

Lemma from_cons_succ {A} (i : Z) (x : A) (s : list A) :
  0 <= i -> from (i + 1) (x :: s) = from i s.
Proof.
  intros H. unfold from. replace (Z.to_nat (i + 1)) with (S (Z.to_nat i)) by lia.
  reflexivity.
Qed.

(** [bytes.Index] gives the first place where the pattern starts. *)
Lemma Index_first (s p : list Z) :
  forall i, Index s p = i -> 0 <= i ->
            HasPrefix (from i s) p = true /\
            forall j, 0 <= j < i -> HasPrefix (from j s) p = false.
Proof.
  induction s as [|x s IH]; intros i Hi Hpos; cbn [Index] in Hi.
  - destruct (HasPrefix [] p) eqn:E; [|lia]. subst i.
    split; [exact E | intros j Hj; lia].
  - destruct (HasPrefix (x :: s) p) eqn:E.
    + subst i. split; [exact E | intros j Hj; lia].
    + destruct (Index s p <? 0) eqn:Elt; [lia|]. apply Z.ltb_ge in Elt.
      destruct (IH (Index s p) eq_refl Elt) as [Hat Hbefore].
      subst i. split.
      * now rewrite from_cons_succ.
      * intros j Hj. destruct (Z.eq_dec j 0) as [->|Hne]; [exact E|].
        replace j with ((j - 1) + 1) by lia.
        rewrite from_cons_succ by lia. apply Hbefore. lia.
Qed.

Lemma HasPrefix_from_occurs (s p : list Z) (j : Z) :
  HasPrefix (from j s) p = true -> occurs p s.
Proof.
  intros H. apply HasPrefix_true_iff in H. destruct H as [post H].
  exists (firstn (Z.to_nat j) s), post. unfold from in H.
  now rewrite <- H, firstn_skipn.
Qed.

Lemma firstIndex_least (data : list Z) (patterns : list (list Z)) :
  forall first,
    first = -1 \/ 0 <= first ->
    let r := firstIndex data patterns first in
    (r = -1 \/ 0 <= r) /\
    (r = first \/ exists p, In p patterns /\ Index data p = r /\ 0 <= r) /\
    (0 <= first -> 0 <= r <= first) /\
    (forall q, In q patterns -> 0 <= Index data q -> 0 <= r <= Index data q).
Proof.
  induction patterns as [|p ps IH]; intros first Hfirst; cbn [firstIndex].
  - split; [lia|]. split; [now left|]. split; [lia|]. intros q [].
  - pose proof (Index_lower_bound data p) as Hlb.
    set (idx := Index data p) in *.
    set (first' := if negb (idx =? -1)
                   then if (first =? -1) || (idx <? first) then idx else first
                   else first).
    assert (Hf' : (first' = -1 \/ 0 <= first') /\
                  (first' = first \/ (first' = idx /\ 0 <= idx)) /\
                  (0 <= first -> 0 <= first' <= first) /\
                  (0 <= idx -> 0 <= first' <= idx)).
    { unfold first'. destruct (idx =? -1) eqn:E1; cbn [negb].
      - apply Z.eqb_eq in E1. repeat split; lia.
      - apply Z.eqb_neq in E1. destruct (first =? -1) eqn:E2; cbn [orb].
        + apply Z.eqb_eq in E2. repeat split; lia.
        + apply Z.eqb_neq in E2. destruct (idx <? first) eqn:E3.
          * apply Z.ltb_lt in E3. repeat split; lia.
          * apply Z.ltb_ge in E3. repeat split; lia. }
    destruct Hf' as [Hf1 [Hf2 [Hf3 Hf4]]].
    destruct (IH first' Hf1) as [H1 [H2 [H3 H4]]].
    split; [exact H1|]. split; [|split].
    + destruct H2 as [H2|[q [Hq [Hiq Hr]]]].
      * destruct Hf2 as [Hf2|[Hf2 Hpos]]; [left; congruence|].
        right. exists p. split; [now left|]. split; [fold idx; congruence | lia].
      * right. exists q. split; [now right|]. split; [exact Hiq | exact Hr].
    + intros Hpos. specialize (Hf3 Hpos). specialize (H3 ltac:(lia)). lia.
    + intros q [<-|Hq] Hge.
      * fold idx in Hge |- *. specialize (Hf4 Hge). specialize (H3 ltac:(lia)). lia.
      * now apply H4.
Qed.

(** X8: when a header is found, the index returned is the start of a
    header pattern and no header pattern starts before it: the earliest
    match wins, whichever pattern it is. *)
Theorem findZmodemStartIndex_earliest (data : list Z) (i : Z) :
  findZmodemStartIndex data = (i, true) ->
  0 <= i /\
  (exists p, In p headerPatterns /\ HasPrefix (from i data) p = true) /\
  (forall j q, 0 <= j < i -> In q headerPatterns ->
               HasPrefix (from j data) q = false).
Proof.
  unfold findZmodemStartIndex. intros H.
  destruct (firstIndex_least data headerPatterns (-1) (or_introl eq_refl))
    as [_ [H2 [_ H4]]].
  set (r := firstIndex data headerPatterns (-1)) in *.
  destruct (0 <=? r) eqn:E; [|discriminate].
  apply Z.leb_le in E. injection H as <-.
  split; [exact E|]. split.
  - destruct H2 as [H2|[p [Hp [Hip _]]]]; [lia|].
    exists p. split; [exact Hp|]. now apply (Index_first data p r).
  - intros j q Hj Hq.
    destruct (HasPrefix (from j data) q) eqn:Ej; [|reflexivity]. exfalso.
    pose proof (Index_lower_bound data q) as Hlb.
    destruct (Z.eq_dec (Index data q) (-1)) as [Habs|Hpres].
    + apply Index_absent_iff in Habs. apply Habs.
      now apply (HasPrefix_from_occurs data q j).
    + assert (Hge : 0 <= Index data q) by lia.
      specialize (H4 q Hq Hge).
      destruct (Index_first data q _ eq_refl Hge) as [_ Hbefore].
      rewrite Hbefore in Ej by lia. discriminate.
Qed.

Lemma findZmodemStartIndex_earliest_witness :
  0 <= 3 /\
  (exists p, In p headerPatterns /\
             HasPrefix (from 3 [114; 122; 13; 42; 42; 24; 66; 48; 48; 13]) p = true) /\
  (forall j q, 0 <= j < 3 -> In q headerPatterns ->
               HasPrefix (from j [114; 122; 13; 42; 42; 24; 66; 48; 48; 13]) q = false).
Proof.
  apply (findZmodemStartIndex_earliest
           [114; 122; 13; 42; 42; 24; 66; 48; 48; 13] 3).
  reflexivity.
Defined.

Lemma findZmodemStartIndex_ok_iff (data : list Z) :
  snd (findZmodemStartIndex data) = true
  <-> exists p, In p headerPatterns /\ occurs p data.
Proof.
  unfold findZmodemStartIndex.
  destruct (firstIndex_least data headerPatterns (-1) (or_introl eq_refl))
    as [_ [H2 [_ H4]]].
  destruct (0 <=? firstIndex data headerPatterns (-1)) eqn:E; cbn [snd].
  - apply Z.leb_le in E. split; [intros _|reflexivity].
    destruct H2 as [H2|[p [Hp [Hip _]]]]; [lia|].
    exists p. split; [exact Hp|]. apply Index_present. lia.
  - apply Z.leb_gt in E. split; [discriminate|].
    intros [p [Hp Hocc]]. exfalso.
    pose proof (Index_lower_bound data p) as Hlb.
    destruct (Z.eq_dec (Index data p) (-1)) as [Habs|Hpres].
    + apply Index_absent_iff in Habs. contradiction.
    + specialize (H4 p Hp ltac:(lia)). lia.
Qed.

(** X9: while no transfer is active, a chunk is consumed exactly when
    the lookback buffer with the chunk holds a header pattern and rz
    could be started.  In every state the first return value is empty
    when the chunk is consumed and the chunk itself when it is not, and
    a chunk that is not consumed leaves an inactive receiver
    inactive. *)
Theorem ProcessData_consumes_iff
        (e : Env) (c : Client) (l : LrzszReceiver) (data : list Z) :
  (active l = false ->
   (consumed (ProcessData e c l data) = true <->
    (exists p, In p headerPatterns /\ occurs p (buffer l ++ data))
    /\ rzSpawn e = Started)) /\
  remaining (ProcessData e c l data)
  = (if consumed (ProcessData e c l data) then [] else data) /\
  (active l = false -> consumed (ProcessData e c l data) = false ->
   active (receiver' (ProcessData e c l data)) = false).
Proof.
  pose proof (findZmodemStartIndex_ok_iff (buffer l ++ data)) as Hok.
  unfold ProcessData.
  destruct (active l) eqn:Hact; cbn [negb].
  - split; [discriminate|]. split.
    + destruct (rzStdin l); [|reflexivity].
      destruct (processTelnetData c data) as [[c1 clean] evTel].
      unfold writeRz, completeTransfer. destruct (rzWriteOk e); reflexivity.
    + discriminate.
  - destruct (findZmodemStartIndex (buffer l ++ data)) as [startIdx ok].
    cbn [snd] in Hok. destruct ok.
    + assert (Hex : exists p, In p headerPatterns /\ occurs p (buffer l ++ data))
        by now apply Hok.
      unfold startRz.
      destruct (rzSpawn e) eqn:Hs; cbn -[processTelnetData from];
        try (split; [intros _; split; [intros H; discriminate
                                      | intros [_ H]; discriminate]
                    | split; [reflexivity | intros _ _; exact Hact]]).
      destruct (startIdx <? len (buffer l ++ data)).
      * destruct (processTelnetData c _) as [[c1 clean] evTel].
        unfold writeRz. destruct (0 <? len clean); cbn;
          (split; [intros _; split; [intros _; now split | reflexivity]
                  | split; [reflexivity | discriminate]]).
      * cbn. split; [intros _; split; [intros _; now split | reflexivity]
                    | split; [reflexivity | discriminate]].
    + assert (Hno : ~ exists p, In p headerPatterns /\ occurs p (buffer l ++ data)).
      { intros H. apply Hok in H. discriminate. }
      destruct (1024 <? len (buffer l ++ data)); cbn;
        (split; [intros _; split; [discriminate | intros [H _]; contradiction]
                | split; [reflexivity | intros _ _; exact Hact]]).
Qed.

(** Tearing a transfer down is done once: after [Cancel] or
    [completeTransfer] the receiver is inactive, holds no lookback
    bytes and no pipe, and a further [Cancel] or exit of rz changes
    nothing and sends nothing; [Cancel] on an active receiver sends the
    eight CAN bytes. *)
Theorem teardown_once (e e' : Env) (l : LrzszReceiver) :
  let l1 := fst (Cancel l) in
  let l2 := fst (completeTransfer e l) in
  Cancel l1 = (l1, []) /\ monitorRz e' l1 = (l1, []) /\
  Cancel l2 = (l2, []) /\ monitorRz e' l2 = (l2, []) /\
  active l1 = false /\
  (active l = true ->
   buffer l1 = [] /\ rzStdin l1 = None /\
   snd (Cancel l)
   = [SendToRemote [0x18; 0x18; 0x18; 0x18; 0x18; 0x18; 0x18; 0x18]]).
Proof.
  unfold Cancel, monitorRz, completeTransfer.
  destruct (active l) eqn:E; cbn; rewrite ?E; cbn; repeat split; discriminate.
Qed.

End Detector.


(** ** The shape of what the final normalisation pass returns *)
Section NormalizeShape.
Import GoBytes Normalize.

Lemma caseFix_refl (l : list Z) : Forall2 caseFix l l.
Proof. induction l; constructor; [now left | assumption]. Qed.

Lemma fixFinal_caseFix (body params : list Z) (c : Z) :
  caseFix c (fixFinal body params c).
Proof.
  unfold fixFinal, caseFix.
  destruct (negb (isPrivate body)); [|now left].
  destruct (c =? 77) eqn:E1.
  - apply Z.eqb_eq in E1. destruct (forallb isParam params); [right; left|left]; auto.
  - destruct (c =? 106) eqn:E2; [|now left].
    apply Z.eqb_eq in E2.
    destruct (forallb isParam params); [right; right|left]; auto.
Qed.

Lemma norm_pointwise_upto (n : nat) :
  forall l, (List.length l <= n)%nat -> Forall2 caseFix l (norm l).
Proof.
  induction n as [|n IH]; intros l Hn.
  - destruct l; [constructor | simpl in Hn; lia].
  - destruct l as [|b rest]; [constructor|]. simpl in Hn.
    destruct (startsCSI (b :: rest)) eqn:Hs.
    + apply startsCSI_true in Hs. destruct Hs as [body Hs].
      injection Hs as -> ->.
      destruct (csiFinal body) as [[[params c] after]|] eqn:E.
      * rewrite (norm_csi _ _ _ _ E).
        apply csiFinal_Some in E. destruct E as [-> _].
        simpl in Hn. rewrite length_app in Hn. simpl in Hn.
        cbn [app]. constructor; [now left|]. constructor; [now left|].
        apply Forall2_app; [apply caseFix_refl|].
        constructor; [apply fixFinal_caseFix|]. apply IH. lia.
      * rewrite (norm_open _ E). apply caseFix_refl.
    + rewrite (norm_byte _ _ Hs). constructor; [now left|]. apply IH. lia.
Qed.

(** X10: the final pass changes no length and moves no byte: the output
    is the input byte for byte, except that an ['M'] can have become
    ['m'] and a ['j'] can have become ['J']. *)
Theorem normalizeCSISGRAny_pointwise (inp : list Z) :
  Forall2 caseFix inp (normalizeCSISGRAny inp).
Proof.
  rewrite normalizeCSISGRAny_norm.
  now apply (norm_pointwise_upto (List.length inp)).
Qed.

Lemma last_skip (a l : list Z) (x d : Z) :
  last (a ++ x :: l) d = last (x :: l) d.
Proof.
  induction a as [|y a IH]; [reflexivity|]. cbn [app].
  destruct (a ++ x :: l) as [|z t] eqn:E; [destruct a; discriminate|].
  exact IH.
Qed.

Lemma norm_chunkwise (pre x : list Z) :
  outsideCSI pre -> last pre 0 <> 0x1B ->
  norm (pre ++ x) = norm pre ++ norm x.
Proof.
  induction 1 as [|b l Hs Hl IH|params c l Hps Hc Hl IH]; intros Hlast.
  - reflexivity.
  - assert (Hs' : startsCSI (b :: l ++ x) = false).
    { destruct l as [|n1 l]; [|exact Hs]. simpl in Hlast.
      destruct x as [|x0 x]; [reflexivity|]. simpl.
      apply andb_false_iff. left. now apply Z.eqb_neq. }
    assert (Hlast' : last l 0 <> 0x1B).
    { destruct l as [|n1 l]; [simpl; lia | exact Hlast]. }
    cbn [app]. rewrite (norm_byte _ _ Hs'), (norm_byte _ _ Hs), (IH Hlast').
    reflexivity.
  - assert (Hlast' : last l 0 <> 0x1B).
    { destruct l as [|n1 l]; [simpl; lia|].
      replace (0x1B :: 91 :: params ++ c :: n1 :: l)
        with ((0x1B :: 91 :: params ++ [c]) ++ n1 :: l) in Hlast
        by (cbn [app]; now rewrite <- app_assoc).
      rewrite last_skip in Hlast. exact Hlast. }
    cbn [app]. rewrite <- app_assoc. cbn [app].
    rewrite (norm_csi _ params (l ++ x) c) by (now apply csiFinal_app).
    rewrite (norm_csi _ params l c) by (now apply csiFinal_app).
    rewrite (IH Hlast').
    rewrite (fixFinal_ext (params ++ c :: l) (params ++ c :: l ++ x))
      by (now apply isPrivate_app).
    now rewrite <- !app_assoc.
Qed.

(** X11: the final pass can be run chunk by chunk: when a chunk ends
    outside of any CSI sequence and not on an [ESC], normalising it and
    what follows separately gives the normalised whole. *)
Theorem normalizeCSISGRAny_chunkwise (pre x : list Z) :
  outsideCSI pre -> last pre 0 <> 0x1B ->
  normalizeCSISGRAny (pre ++ x)
  = normalizeCSISGRAny pre ++ normalizeCSISGRAny x.
Proof.
  intros Hpre Hlast. rewrite !normalizeCSISGRAny_norm.
  now apply norm_chunkwise.
Qed.

Lemma normalizeCSISGRAny_chunkwise_witness :
  normalizeCSISGRAny ([0x1B; 91; 49; 77; 65] ++ [0x1B; 91; 106])
  = normalizeCSISGRAny [0x1B; 91; 49; 77; 65]
      ++ normalizeCSISGRAny [0x1B; 91; 106].
Proof.
  apply (normalizeCSISGRAny_chunkwise [0x1B; 91; 49; 77; 65] [0x1B; 91; 106]).
  - apply (outside_csi [49] 77 [65]); [reflexivity | reflexivity|].
    apply outside_byte; [reflexivity | apply outside_nil].
  - cbn. lia.
Defined.

End NormalizeShape.

(** ** The normalisation pass on any stream *)
Section NormalizeAnywhere.
Import GoBytes Normalize.








End NormalizeAnywhere.

(** ** What the PETSCII translator returns and leaves *)
Section PetsciiOutput.
Import GoBytes GoStrings Telnet Petscii.

Lemma colorMap_bytes (b : Z) (sgr : string) :
  colorMap b = Some sgr ->
  Forall (fun x => petsciiCode x = false) (bytesOf sgr).
Proof.
  unfold colorMap.
  repeat match goal with
         | |- context [if ?t then _ else _] =>
             destruct t; [intros H; injection H as <-; repeat constructor|]
         end.
  discriminate.
Qed.

Lemma translateByte_bytes (c : Client) (b : Z) (rest : list Z) :
  Forall (fun x => petsciiCode x = false) (fst (fst (translateByte c b rest))).
Proof.
  unfold translateByte.
  destruct (b =? 7); [repeat constructor|].
  destruct (b =? 9); [repeat constructor|].
  destruct (b =? 14) eqn:E0E; [constructor|].
  destruct (b =? 15) eqn:E0F; [constructor|].
  destruct (b =? 142) eqn:E8E; [constructor|].
  destruct (b =? 17) eqn:E11; [repeat constructor|].
  destruct (b =? 145) eqn:E91; [repeat constructor|].
  destruct (b =? 29) eqn:E1D; [repeat constructor|].
  destruct (b =? 157) eqn:E9D; [repeat constructor|].
  destruct (b =? 20) eqn:E14; [repeat constructor|].
  destruct (b =? 19) eqn:E13; [repeat constructor|].
  destruct (b =? 147) eqn:E93; [repeat constructor|].
  destruct (b =? 18) eqn:E12; [repeat constructor|].
  destruct (b =? 146) eqn:E92; [repeat constructor|].
  destruct (b =? 13) eqn:E0D.
  - cbn [fst]. destruct (skipCRs rest) as [|next l]; [repeat constructor|].
    destruct (next =? 10); repeat constructor.
  - destruct (colorMap b) as [sgr|] eqn:Ec; cbn [fst].
    + constructor; [reflexivity|]. constructor; [reflexivity|].
      apply Forall_app. split; [now apply (colorMap_bytes b)|].
      repeat constructor.
    + constructor; [|constructor].
      unfold colorMap in Ec.
      repeat match type of Ec with
             | (if ?t then _ else _) = None =>
                 destruct t eqn:?; [discriminate|]
             end.
      unfold petsciiCode. cbn [existsb].
      repeat match goal with
             | H : (b =? ?k) = false |- context [b =? ?k] => rewrite H
             end.
      reflexivity.
Qed.

Lemma translate_no_codes_upto (n : nat) :
  forall c data, (List.length data <= n)%nat ->
    Forall (fun x => petsciiCode x = false)
           (snd (translatePETSCIIToANSI c data)).
Proof.
  induction n as [|n IH]; intros c data Hn.
  - destruct data; [constructor | simpl in Hn; lia].
  - destruct data as [|b rest]; [constructor|]. simpl in Hn.
    rewrite translate_cons. cbn [snd].
    apply Forall_app. split; [apply translateByte_bytes|].
    apply IH. pose proof (translateByte_next c b rest). lia.
Qed.

(** X12: what the PETSCII translator returns holds no PETSCII control
    or colour code any more: each of them was dropped or replaced by
    ASCII and ANSI bytes. *)
Theorem translatePETSCIIToANSI_no_petscii_codes (c : Client) (data : list Z) :
  Forall (fun x => petsciiCode x = false)
         (snd (translatePETSCIIToANSI c data)).
Proof. now apply (translate_no_codes_upto (List.length data)). Qed.

Lemma set_charset_same (c : Client) : set_charset c (charset c) = c.
Proof. now destruct c. Qed.

Lemma shiftCharset_skipCRs (cs : string) (l : list Z) :
  shiftCharset cs (skipCRs l) = shiftCharset cs l.
Proof.
  induction l as [|x l IH]; [reflexivity|]. cbn [skipCRs].
  destruct (x =? 13) eqn:E; [|reflexivity].
  apply Z.eqb_eq in E. subst x. rewrite IH. reflexivity.
Qed.

Lemma translateByte_client (c : Client) (b : Z) (rest : list Z) :
  snd (fst (translateByte c b rest))
  = set_charset c (shiftCharset (charset c) [b]) /\
  shiftCharset (shiftCharset (charset c) [b]) (snd (translateByte c b rest))
  = shiftCharset (charset c) (b :: rest).
Proof.
  unfold translateByte.
  destruct (b =? 7) eqn:E07;
    [apply Z.eqb_eq in E07; subst b; split; [symmetry; apply set_charset_same | reflexivity]|].
  destruct (b =? 9) eqn:E09;
    [apply Z.eqb_eq in E09; subst b; split; [symmetry; apply set_charset_same | reflexivity]|].
  destruct (b =? 14) eqn:E0E;
    [apply Z.eqb_eq in E0E; subst b; split; reflexivity|].
  destruct (b =? 15) eqn:E0F;
    [apply Z.eqb_eq in E0F; subst b; split; [symmetry; apply set_charset_same | reflexivity]|].
  destruct (b =? 142) eqn:E8E;
    [apply Z.eqb_eq in E8E; subst b; split; reflexivity|].
  assert (Hb : shiftCharset (charset c) [b] = charset c).
  { cbn. now rewrite E0E, E8E. }
  assert (Hcons : shiftCharset (charset c) (b :: rest)
                  = shiftCharset (charset c) rest).
  { cbn. now rewrite E0E, E8E. }
  rewrite Hb, Hcons, set_charset_same.
  repeat match goal with
         | |- context [if ?t then _ else _] =>
             lazymatch t with
             | b =? 13 => fail
             | _ => destruct t; [now split|]
             end
         end.
  destruct (b =? 13).
  - cbn [fst snd]. split; [reflexivity | apply shiftCharset_skipCRs].
  - destruct (colorMap b); now split.
Qed.

Lemma translate_client_upto (n : nat) :
  forall c data, (List.length data <= n)%nat ->
    fst (translatePETSCIIToANSI c data)
    = set_charset c (shiftCharset (charset c) data).
Proof.
  induction n as [|n IH]; intros c data Hn.
  - destruct data; [|simpl in Hn; lia]. cbn. symmetry. apply set_charset_same.
  - destruct data as [|b rest]; [cbn; symmetry; apply set_charset_same|].
    simpl in Hn. rewrite translate_cons. cbn [fst].
    pose proof (translateByte_next c b rest) as Hlen.
    destruct (translateByte_client c b rest) as [Hc Hs].
    rewrite IH by lia. rewrite Hc. cbn [charset set_charset].
    rewrite Hs. reflexivity.
Qed.

(** X13: the translator touches nothing of the client but its character
    set, and that ends as the last case shift of the stream says
    ([0x0E] lower case, [0x8E] upper case); a stream without a case
    shift leaves the client as it was. *)
Theorem translatePETSCIIToANSI_client (c : Client) (data : list Z) :
  fst (translatePETSCIIToANSI c data)
  = set_charset c (shiftCharset (charset c) data) /\
  (forallb (fun b => negb (b =? 0x0E) && negb (b =? 0x8E)) data = true ->
   fst (translatePETSCIIToANSI c data) = c).
Proof.
  split; [now apply (translate_client_upto (List.length data))|].
  intros H. rewrite (translate_client_upto (List.length data)) by lia.
  replace (shiftCharset (charset c) data) with (charset c);
    [apply set_charset_same|].
  unfold shiftCharset. generalize (charset c) as cs.
  induction data as [|b data IH]; intros cs; [reflexivity|].
  cbn [forallb] in H. apply andb_true_iff in H. destruct H as [Hb Hd].
  apply andb_true_iff in Hb. destruct Hb as [H1 H2].
  apply negb_true_iff in H1, H2. cbn [fold_left]. rewrite H1, H2.
  now apply IH.
Qed.

(** X14: PETSCII can be translated chunk by chunk: when a chunk does
    not end in a carriage return, translating it and then what follows,
    with the client the first call left, gives what one call on the
    whole gives. *)
Theorem translatePETSCIIToANSI_chunkwise (c : Client) (pre x : list Z) :
  endsWithCR pre = false ->
  translatePETSCIIToANSI c (pre ++ x)
  = (fst (translatePETSCIIToANSI (fst (translatePETSCIIToANSI c pre)) x),
     snd (translatePETSCIIToANSI c pre)
       ++ snd (translatePETSCIIToANSI (fst (translatePETSCIIToANSI c pre)) x)).
Proof.
  intros H. now apply (translate_app_upto (List.length pre)).
Qed.

Lemma translatePETSCIIToANSI_chunkwise_witness :
  translatePETSCIIToANSI
    (mkClient true "PETSCIIU" false 0 false false false false 40 25)
    ([0x0E; 72; 13; 10] ++ [13; 13; 0x93])
  = (mkClient true "PETSCIIL" false 0 false false false false 40 25,
     [72; 13; 10] ++ [13; 10; 0x1B; 91; 50; 74; 0x1B; 91; 72]).
Proof.
  apply (translatePETSCIIToANSI_chunkwise
           (mkClient true "PETSCIIU" false 0 false false false false 40 25)
           [0x0E; 72; 13; 10] [13; 13; 0x93]).
  reflexivity.
Defined.

End PetsciiOutput.

(** ** The pre-suppression window of the read loop *)
Section Suppression.
Import GoBytes Telnet Lrzsz Server.

Lemma telnetLoop_keeps {A : Type} (f : Client -> A) :
  (forall c cmd o, f (fst (negotiate c cmd o)) = f c) ->
  forall fuel c data clean resp,
    f (fst (fst (telnetLoop fuel c data clean resp))) = f c.
Proof.
  intros Hf. induction fuel as [|fuel IH]; intros c data clean resp;
    [reflexivity|].
  destruct data as [|d0 rest0]; [reflexivity|]. cbn [telnetLoop].
  destruct (d0 =? IAC); [|apply IH].
  destruct rest0 as [|d1 rest1]; [apply IH|].
  destruct (d1 =? IAC); [apply IH|].
  destruct rest1 as [|option rest2].
  - destruct (d1 =? SB); apply IH.
  - destruct ((SE <=? d1) && (d1 <=? DONT)).
    + specialize (Hf c d1 option).
      destruct (negotiate c d1 option) as [c' resp']. cbn [fst] in Hf.
      rewrite IH. exact Hf.
    + destruct (d1 =? SB); [|apply IH].
      destruct (scanSB rest2); apply IH.
Qed.

Lemma processTelnetData_keeps {A : Type} (f : Client -> A) :
  (forall c cmd o, f (fst (negotiate c cmd o)) = f c) ->
  forall c data, f (fst (fst (processTelnetData c data))) = f c.
Proof.
  intros Hf c data. unfold processTelnetData.
  pose proof (telnetLoop_keeps f Hf (List.length data) c data [] []) as H.
  destruct (telnetLoop (List.length data) c data [] []) as [[c' clean] response].
  exact H.
Qed.

Lemma negotiate_outside (c : Client) (cmd o : Z) :
  outsideNegotiation (fst (negotiate c cmd o)) = outsideNegotiation c.
Proof.
  unfold negotiate.
  repeat match goal with
         | |- context [if ?t then _ else _] => destruct t
         end; reflexivity.
Qed.

(** X15: what the telnet filter never does.  Whatever bytes arrive, it
    only removes bytes (the clean stream is never longer than the
    chunk), and it changes nothing of the client but the four option
    flags: the connection, the character set, the pre-suppression
    window and the terminal size are as they were. *)
Theorem processTelnetData_outside_negotiation (c : Client) (data : list Z) :
  let c' := fst (fst (processTelnetData c data)) in
  len (cleanOf c data) <= len data /\
  telnet c' = telnet c /\ charset c' = charset c /\
  suppressZmodem c' = suppressZmodem c /\ suppressUntil c' = suppressUntil c /\
  termCols c' = termCols c /\ termRows c' = termRows c.
Proof.
  intros c'. split; [apply processTelnetData_never_grows|].
  pose proof (processTelnetData_keeps outsideNegotiation negotiate_outside c data)
    as H.
  fold c' in H. unfold outsideNegotiation in H.
  injection H as H1 H2 H3 H4 H5 H6. now repeat split.
Qed.















End Suppression.

(** ** The transfer from its start to its end *)
Section TransferRun.
Import GoBytes Telnet Lrzsz Server.









End TransferRun.

(** ** Holding back an incomplete escape sequence *)
Section AnsiJoinFacts.
Import GoBytes Normalize AnsiJoin.

Lemma len_cons {A} (x : A) (l : list A) : len (x :: l) = 1 + len l.
Proof. unfold len. cbn [List.length]. lia. Qed.

Lemma len_app {A} (a b : list A) : len (a ++ b) = len a + len b.
Proof. unfold len. rewrite length_app. lia. Qed.

Lemma len_nonneg {A} (l : list A) : 0 <= len l.
Proof. unfold len. lia. Qed.

(** A complete OSC body is settled by its own bytes. *)
Lemma oscEnd_Some (l : list Z) :
  forall k after, oscEnd l = Some (k, after) ->
    exists s, l = s ++ after /\ len s = k /\ s <> [] /\
              forall y, oscEnd (s ++ y) = Some (k, y).
Proof.
  induction l as [|x l IH]; intros k after H; [discriminate|].
  cbn [oscEnd] in H. destruct (x =? 7) eqn:E7.
  - injection H as <- <-. exists [x]. repeat split; [discriminate|].
    intros y. cbn [app oscEnd]. now rewrite E7.
  - destruct ((x =? 27) && match l with y :: _ => y =? 92 | [] => false end)
      eqn:Eesc.
    + injection H as <- <-. destruct l as [|y0 l]; [now rewrite andb_false_r in Eesc|].
      exists [x; y0]. repeat split; [discriminate|].
      intros y. cbn [app oscEnd tl]. now rewrite E7, Eesc.
    + destruct (oscEnd l) as [[k' after']|] eqn:El; [|discriminate].
      injection H as <- <-.
      destruct (IH k' after' eq_refl) as [s [Hl [Hk [Hne Hy]]]].
      exists (x :: s). repeat split.
      * now rewrite Hl.
      * rewrite len_cons. lia.
      * discriminate.
      * intros y. cbn [app oscEnd]. rewrite E7.
        destruct s as [|s0 s]; [congruence|]. subst l. cbn [app] in Eesc |- *.
        rewrite Eesc. change (s0 :: s ++ y) with ((s0 :: s) ++ y).
        now rewrite Hy.
Qed.

Lemma dcsEnd_Some (l : list Z) :
  forall k after, dcsEnd l = Some (k, after) ->
    exists s, l = s ++ after /\ len s = k /\ s <> [] /\
              forall y, dcsEnd (s ++ y) = Some (k, y).
Proof.
  induction l as [|x l IH]; intros k after H; [discriminate|].
  cbn [dcsEnd] in H.
  destruct ((x =? 27) && match l with y :: _ => y =? 92 | [] => false end)
    eqn:Eesc.
  - injection H as <- <-. destruct l as [|y0 l]; [now rewrite andb_false_r in Eesc|].
    exists [x; y0]. repeat split; [discriminate|].
    intros y. cbn [app dcsEnd tl]. now rewrite Eesc.
  - destruct (dcsEnd l) as [[k' after']|] eqn:El; [|discriminate].
    injection H as <- <-.
    destruct (IH k' after' eq_refl) as [s [Hl [Hk [Hne Hy]]]].
    exists (x :: s). repeat split.
    + now rewrite Hl.
    + rewrite len_cons. lia.
    + discriminate.
    + intros y. cbn [app dcsEnd].
      destruct s as [|s0 s]; [congruence|]. subst l. cbn [app] in Eesc |- *.
      rewrite Eesc. change (s0 :: s ++ y) with ((s0 :: s) ++ y).
      now rewrite Hy.
Qed.

Lemma escEnd_cons (n : Z) (body : list Z) :
  escEnd (n :: body)
  = if n =? 91 then
      match csiFinal body with
      | Some (params, _, after) => Some (2 + len params + 1, after)
      | None => None
      end
    else if n =? 93 then
      match oscEnd body with
      | Some (k, after) => Some (2 + k, after)
      | None => None
      end
    else if n =? 80 then
      match dcsEnd body with
      | Some (k, after) => Some (2 + k, after)
      | None => None
      end
    else if (n =? 55) || (n =? 56) || (n =? 99)
            || (n =? 68) || (n =? 77) || (n =? 69)
    then Some (2, body)
    else if (0x40 <=? n) && (n <=? 0x7F) then Some (2, body)
    else None.
Proof. reflexivity. Qed.

(** A complete escape sequence is settled by its own bytes: what
    follows it has no part in where it ends. *)
Lemma escEnd_Some (rest : list Z) (k : Z) (after : list Z) :
  escEnd rest = Some (k, after) ->
  exists s, rest = s ++ after /\ k = 1 + len s /\
            forall y, escEnd (s ++ y) = Some (k, y).
Proof.
  destruct rest as [|n body]; [discriminate|]. rewrite escEnd_cons.
  destruct (n =? 91) eqn:E91.
  { destruct (csiFinal body) as [[[params c] after']|] eqn:Ec; [|discriminate].
    intros H.
    assert (Hk : k = 2 + len params + 1) by congruence.
    assert (Ha : after' = after) by congruence. clear H. subst k after'.
    apply csiFinal_Some in Ec. destruct Ec as [-> [Hps Hc]].
    exists (n :: params ++ [c]). split; [|split].
    - cbn [app]. now rewrite <- app_assoc.
    - rewrite len_cons, len_app, len_cons. unfold len at 3. cbn [List.length].
      lia.
    - intros y. cbn [app]. rewrite escEnd_cons, E91, <- app_assoc. cbn [app].
      now rewrite (csiFinal_app params y c Hps Hc). }
  destruct (n =? 93) eqn:E93.
  { destruct (oscEnd body) as [[k' after']|] eqn:Eo; [|discriminate].
    intros H.
    assert (Hk : k = 2 + k') by congruence.
    assert (Ha : after' = after) by congruence. clear H. subst k after'.
    destruct (oscEnd_Some body k' after Eo) as [s [-> [Hk [_ Hy]]]].
    exists (n :: s). split; [|split].
    - reflexivity.
    - rewrite len_cons. lia.
    - intros y. cbn [app]. now rewrite escEnd_cons, E91, E93, Hy. }
  destruct (n =? 80) eqn:E80.
  { destruct (dcsEnd body) as [[k' after']|] eqn:Eo; [|discriminate].
    intros H.
    assert (Hk : k = 2 + k') by congruence.
    assert (Ha : after' = after) by congruence. clear H. subst k after'.
    destruct (dcsEnd_Some body k' after Eo) as [s [-> [Hk [_ Hy]]]].
    exists (n :: s). split; [|split].
    - reflexivity.
    - rewrite len_cons. lia.
    - intros y. cbn [app]. now rewrite escEnd_cons, E91, E93, E80, Hy. }
  destruct ((n =? 55) || (n =? 56) || (n =? 99)
            || (n =? 68) || (n =? 77) || (n =? 69)) eqn:E1.
  { intros H. injection H as <- <-. exists [n]. repeat split.
    intros y. cbn [app]. now rewrite escEnd_cons, E91, E93, E80, E1. }
  destruct ((64 <=? n) && (n <=? 127)) eqn:E2; [|discriminate].
  intros H. injection H as <- <-. exists [n]. repeat split.
  intros y. cbn [app]. now rewrite escEnd_cons, E91, E93, E80, E1, E2.
Qed.

Lemma cutLoop_shift (fuel : nat) :
  forall i l, cutLoop fuel i l = i + cutLoop fuel 0 l.
Proof.
  induction fuel as [|fuel IH]; intros i l; cbn [cutLoop]; [lia|].
  destruct l as [|b rest]; [lia|].
  destruct (negb (b =? 27)).
  - rewrite (IH (i + 1)), (IH (0 + 1)). lia.
  - destruct (escEnd rest) as [[k after]|]; [|lia].
    rewrite (IH (i + k)), (IH (0 + k)). lia.
Qed.

Lemma cutLoop_fuel (f1 : nat) :
  forall f2 i l, (List.length l <= f1)%nat -> (List.length l <= f2)%nat ->
                 cutLoop f1 i l = cutLoop f2 i l.
Proof.
  induction f1 as [|f1 IH]; intros f2 i l H1 H2.
  - destruct l; [|simpl in H1; lia]. now destruct f2.
  - destruct l as [|b rest]; [now destruct f2|].
    destruct f2 as [|f2]; [simpl in H2; lia|].
    simpl in H1, H2. cbn [cutLoop].
    destruct (negb (b =? 27)); [apply IH; lia|].
    destruct (escEnd rest) as [[k after]|] eqn:E; [|reflexivity].
    apply escEnd_Some in E. destruct E as [s [-> _]].
    rewrite length_app in H1, H2. apply IH; lia.
Qed.

Lemma cut_nil : completeAnsiCutIndex [] = 0.
Proof. reflexivity. Qed.

Lemma cut_byte (b : Z) (rest : list Z) :
  (b =? 0x1B) = false ->
  completeAnsiCutIndex (b :: rest) = 1 + completeAnsiCutIndex rest.
Proof.
  intros H. unfold completeAnsiCutIndex. cbn [List.length cutLoop].
  rewrite H. cbn [negb]. rewrite cutLoop_shift. reflexivity.
Qed.

Lemma cut_esc_Some (rest after : list Z) (k : Z) :
  escEnd rest = Some (k, after) ->
  completeAnsiCutIndex (0x1B :: rest) = k + completeAnsiCutIndex after.
Proof.
  intros H. unfold completeAnsiCutIndex. cbn [List.length cutLoop].
  change (27 =? 27) with true. cbn [negb]. rewrite H.
  rewrite cutLoop_shift. cbn [Z.add]. f_equal.
  apply escEnd_Some in H. destruct H as [s [-> _]].
  apply cutLoop_fuel; rewrite ?length_app; lia.
Qed.

Lemma cut_esc_None (rest : list Z) :
  escEnd rest = None -> completeAnsiCutIndex (0x1B :: rest) = 0.
Proof.
  intros H. unfold completeAnsiCutIndex. cbn [List.length cutLoop].
  change (27 =? 27) with true. cbn [negb]. now rewrite H.
Qed.

(** What the scan makes of a buffer: the complete part, which it reads
    the same way whatever follows, and the held-back part, which is
    empty or an escape sequence that is not complete yet. *)
Lemma cut_split_upto (n : nat) :
  forall l, (List.length l <= n)%nat ->
    exists e r,
      l = e ++ r /\ completeAnsiCutIndex l = len e /\
      (r = [] \/ exists rest, r = 0x1B :: rest /\ escEnd rest = None) /\
      forall y, completeAnsiCutIndex (e ++ y) = len e + completeAnsiCutIndex y.
Proof.
  induction n as [|n IH]; intros l Hn.
  - destruct l; [|simpl in Hn; lia]. exists [], []. repeat split; auto.
  - destruct l as [|b rest]; [exists [], []; repeat split; auto|].
    simpl in Hn. destruct (b =? 27) eqn:Eb.
    + apply Z.eqb_eq in Eb. subst b.
      destruct (escEnd rest) as [[k after]|] eqn:E.
      * destruct (escEnd_Some rest k after E) as [s [Hrest [Hk Hs]]].
        assert (Hlen : (List.length after <= n)%nat).
        { rewrite Hrest, length_app in Hn. lia. }
        destruct (IH after Hlen) as [e [r [Hl [Hcut [Hr Hy]]]]].
        exists (27 :: s ++ e), r. repeat split.
        -- rewrite Hrest, Hl. cbn [app]. now rewrite <- app_assoc.
        -- rewrite (cut_esc_Some rest after k E), Hcut.
           rewrite len_cons, len_app. lia.
        -- exact Hr.
        -- intros y. cbn [app]. rewrite <- app_assoc.
           rewrite (cut_esc_Some (s ++ e ++ y) (e ++ y) k (Hs (e ++ y))).
           rewrite Hy, len_cons, len_app. lia.
      * exists [], (27 :: rest). repeat split.
        -- now apply cut_esc_None.
        -- right. now exists rest.
    + assert (Hlen : (List.length rest <= n)%nat) by lia.
      destruct (IH rest Hlen) as [e [r [Hl [Hcut [Hr Hy]]]]].
      exists (b :: e), r. repeat split.
      * now rewrite Hl.
      * rewrite (cut_byte b rest Eb), Hcut, len_cons. reflexivity.
      * exact Hr.
      * intros y. cbn [app]. rewrite (cut_byte b (e ++ y) Eb), Hy, len_cons. lia.
Qed.

Lemma cut_split (l : list Z) :
  exists e r,
    l = e ++ r /\ completeAnsiCutIndex l = len e /\
    (r = [] \/ exists rest, r = 0x1B :: rest /\ escEnd rest = None) /\
    forall y, completeAnsiCutIndex (e ++ y) = len e + completeAnsiCutIndex y.
Proof. now apply (cut_split_upto (List.length l)). Qed.

Lemma upto_len_app {A} (e r : list A) : upto (len e) (e ++ r) = e.
Proof.
  unfold upto, len. rewrite Nat2Z.id.
  rewrite firstn_app, Nat.sub_diag, firstn_all. cbn. apply app_nil_r.
Qed.

Lemma from_len_app {A} (e r : list A) : from (len e) (e ++ r) = r.
Proof.
  unfold from, len. rewrite Nat2Z.id.
  rewrite skipn_app, Nat.sub_diag, skipn_all. reflexivity.
Qed.

(** [joinANSIChunks] cuts the joined buffer at the index the scan
    returns, on both of its paths. *)
Lemma joinANSIChunks_cut (carry chunk : list Z) :
  joinANSIChunks carry chunk
  = (upto (completeAnsiCutIndex (carry ++ chunk)) (carry ++ chunk),
     from (completeAnsiCutIndex (carry ++ chunk)) (carry ++ chunk)).
Proof.
  assert (Hfull : forall buf : list Z,
             (if completeAnsiCutIndex buf =? len buf then (buf, [])
              else (upto (completeAnsiCutIndex buf) buf,
                    from (completeAnsiCutIndex buf) buf))
             = (upto (completeAnsiCutIndex buf) buf,
                from (completeAnsiCutIndex buf) buf)).
  { intros buf. destruct (completeAnsiCutIndex buf =? len buf) eqn:E;
      [|reflexivity].
    apply Z.eqb_eq in E. rewrite E.
    pose proof (upto_len_app buf []) as H1.
    pose proof (from_len_app buf []) as H2.
    rewrite app_nil_r in H1, H2. now rewrite H1, H2. }
  unfold joinANSIChunks. destruct (len carry =? 0) eqn:E.
  - destruct carry; [|discriminate]. cbn [app]. apply Hfull.
  - apply Hfull.
Qed.

Lemma joinANSIChunks_split (carry chunk : list Z) :
  exists e r,
    carry ++ chunk = e ++ r /\ joinANSIChunks carry chunk = (e, r) /\
    (r = [] \/ exists rest, r = 0x1B :: rest /\ escEnd rest = None) /\
    forall y, completeAnsiCutIndex (e ++ y) = len e + completeAnsiCutIndex y.
Proof.
  destruct (cut_split (carry ++ chunk)) as [e [r [Hl [Hcut [Hr Hy]]]]].
  exists e, r. repeat split; try assumption.
  rewrite joinANSIChunks_cut, Hcut, Hl.
  now rewrite upto_len_app, from_len_app.
Qed.

(** X18: [joinANSIChunks] loses and reorders nothing: what it emits
    followed by what it holds back is the carry followed by the chunk.
    What it emits would be emitted whole if it came again, and what it
    holds back is empty or begins with [ESC] and would be held back
    whole. *)
Theorem joinANSIChunks_lossless (carry chunk : list Z) :
  let emit := fst (joinANSIChunks carry chunk) in
  let rest := snd (joinANSIChunks carry chunk) in
  emit ++ rest = carry ++ chunk /\
  joinANSIChunks [] emit = (emit, []) /\
  (rest = [] \/ exists tail, rest = 0x1B :: tail) /\
  joinANSIChunks [] rest = ([], rest).
Proof.
  destruct (joinANSIChunks_split carry chunk) as [e [r [Hl [Hj [Hr Hy]]]]].
  rewrite Hj. cbn [fst snd]. repeat split.
  - now rewrite Hl.
  - rewrite joinANSIChunks_cut. cbn [app].
    pose proof (Hy []) as H0. rewrite app_nil_r, cut_nil, Z.add_0_r in H0.
    rewrite H0.
    pose proof (upto_len_app e []) as H1.
    pose proof (from_len_app e []) as H2.
    rewrite app_nil_r in H1, H2. now rewrite H1, H2.
  - destruct Hr as [->|[rest [-> _]]]; [now left | right; now exists rest].
  - rewrite joinANSIChunks_cut. cbn [app].
    destruct Hr as [->|[rest [-> Hnone]]]; [reflexivity|].
    now rewrite (cut_esc_None rest Hnone).
Qed.

Lemma cut_nonneg (l : list Z) : 0 <= completeAnsiCutIndex l.
Proof.
  destruct (cut_split l) as [e [r [_ [-> _]]]]. apply len_nonneg.
Qed.

Lemma upto_app_len {A} (e b : list A) (k : Z) :
  0 <= k -> upto (len e + k) (e ++ b) = e ++ upto k b.
Proof.
  intros Hk. unfold upto, len.
  rewrite Z2Nat.inj_add, Nat2Z.id by lia.
  rewrite firstn_app. f_equal.
  - apply firstn_all2. lia.
  - f_equal. lia.
Qed.

Lemma from_app_len {A} (e b : list A) (k : Z) :
  0 <= k -> from (len e + k) (e ++ b) = from k b.
Proof.
  intros Hk. unfold from, len.
  rewrite Z2Nat.inj_add, Nat2Z.id by lia.
  rewrite skipn_app.
  rewrite (skipn_all2 e) by lia. cbn [app]. f_equal. lia.
Qed.

Lemma joinANSIChunks_app (carry a b : list Z) :
  joinANSIChunks carry (a ++ b)
  = (fst (joinANSIChunks carry a)
       ++ fst (joinANSIChunks (snd (joinANSIChunks carry a)) b),
     snd (joinANSIChunks (snd (joinANSIChunks carry a)) b)).
Proof.
  destruct (joinANSIChunks_split carry a) as [e [r [Hl [Hj [_ Hy]]]]].
  rewrite Hj. cbn [fst snd]. rewrite !joinANSIChunks_cut.
  rewrite app_assoc, Hl, <- app_assoc, Hy. cbn [fst snd].
  pose proof (cut_nonneg (r ++ b)) as Hpos.
  now rewrite upto_app_len, from_app_len.
Qed.

(** A rest that [joinANSIChunks] holds back. *)
Lemma joinANSIChunks_held (carry : list Z) :
  carry = [] \/ (exists rest, carry = 0x1B :: rest /\ escEnd rest = None) ->
  joinANSIChunks carry [] = ([], carry).
Proof.
  intros H. rewrite joinANSIChunks_cut, app_nil_r.
  destruct H as [->|[rest [-> Hnone]]]; [reflexivity|].
  now rewrite (cut_esc_None rest Hnone).
Qed.

Lemma joinAll_concat (chunks : list (list Z)) :
  forall carry,
    carry = [] \/ (exists rest, carry = 0x1B :: rest /\ escEnd rest = None) ->
    (List.concat (fst (joinAll carry chunks)), snd (joinAll carry chunks))
    = joinANSIChunks carry (List.concat chunks).
Proof.
  induction chunks as [|a chunks IH]; intros carry Hc.
  - cbn. now rewrite joinANSIChunks_held.
  - cbn [joinAll List.concat]. rewrite joinANSIChunks_app.
    destruct (joinANSIChunks_split carry a) as [e [r [_ [Hj [Hr _]]]]].
    rewrite Hj. cbn [fst snd]. specialize (IH r Hr).
    destruct (joinAll r chunks) as [emits final]. cbn [fst snd] in IH |- *.
    cbn [List.concat]. rewrite <- IH. reflexivity.
Qed.

(** X19: how the stream is cut into chunks makes no difference to
    [joinANSIChunks]: fed chunk by chunk, each call given what the call
    before held back, it emits in all what one call on the whole stream
    emits, and ends holding back the same. *)
Theorem joinANSIChunks_chunking (chunks : list (list Z)) :
  (List.concat (fst (joinAll [] chunks)), snd (joinAll [] chunks))
  = joinANSIChunks [] (List.concat chunks).
Proof. apply joinAll_concat. now left. Qed.

End AnsiJoinFacts.

(** ** What is typed, on its way to a legacy system *)
Section LegacyInput.
Import GoBytes GoStrings Telnet Petscii Legacy.

Lemma inputLoop_fuel (f1 : nat) :
  forall f2 cs l, (List.length l <= f1)%nat -> (List.length l <= f2)%nat ->
                  inputLoop f1 cs l = inputLoop f2 cs l.
Proof.
  induction f1 as [|f1 IH]; intros f2 cs l H1 H2.
  - destruct l; [|simpl in H1; lia]. now destruct f2.
  - destruct l as [|b rest]; [now destruct f2|].
    destruct f2 as [|f2]; [simpl in H2; lia|].
    simpl in H1, H2. cbn [inputLoop].
    rewrite (IH f2 cs rest) by lia.
    destruct (b =? 27); [|reflexivity].
    destruct rest as [|n rest2]; [reflexivity|].
    destruct (n =? 91).
    + destruct rest2 as [|final after]; [reflexivity|].
      destruct (csiKey cs final after) as [[bytes mapped] extra].
      destruct mapped; [|reflexivity]. f_equal.
      apply IH; destruct extra, after; simpl in *; lia.
    + destruct (n =? 79); [|reflexivity].
      destruct rest2 as [|final after]; [reflexivity|].
      destruct (ss3Key cs final) as [bytes mapped].
      destruct mapped; [|reflexivity]. f_equal.
      apply IH; simpl in *; lia.
Qed.

(** The translation of what is typed, one loop iteration unfolded. *)
Lemma translateANSIInputToLegacy_cons (cs : string) (b : Z) (rest : list Z) :
  translateANSIInputToLegacy (b :: rest) cs
  = let plain := b :: translateANSIInputToLegacy rest cs in
    if b =? 0x1B then
      match rest with
      | n :: rest2 =>
        if n =? 91 then
          match rest2 with
          | final :: after =>
              let '(bytes, mapped, extra) := csiKey cs final after in
              if mapped
              then bytes ++ translateANSIInputToLegacy
                              (if extra then tl after else after) cs
              else plain
          | [] => plain
          end
        else if n =? 79 then
          match rest2 with
          | final :: after =>
              let '(bytes, mapped) := ss3Key cs final in
              if mapped then bytes ++ translateANSIInputToLegacy after cs
              else plain
          | [] => plain
          end
        else plain
      | [] => plain
      end
    else plain.
Proof.
  unfold translateANSIInputToLegacy. cbn [List.length inputLoop]. cbv zeta.
  destruct (b =? 27); [|reflexivity].
  destruct rest as [|n rest2]; [reflexivity|].
  destruct (n =? 91).
  - destruct rest2 as [|final after]; [reflexivity|].
    destruct (csiKey cs final after) as [[bytes mapped] extra].
    destruct mapped; [|reflexivity]. f_equal.
    apply inputLoop_fuel; destruct extra, after; simpl; lia.
  - destruct (n =? 79); [|reflexivity].
    destruct rest2 as [|final after]; [reflexivity|].
    destruct (ss3Key cs final) as [bytes mapped].
    destruct mapped; [|reflexivity]. f_equal.
    apply inputLoop_fuel; simpl; lia.
Qed.

Lemma translateANSIInputToLegacy_byte (cs : string) (b : Z) (rest : list Z) :
  (b =? 0x1B) = false ->
  translateANSIInputToLegacy (b :: rest) cs
  = b :: translateANSIInputToLegacy rest cs.
Proof. intros H. rewrite translateANSIInputToLegacy_cons. now rewrite H. Qed.

Lemma keyCase_plain (cs : string) (p a : Z) :
  isLegacy cs = false -> keyCase cs p a = ([], false).
Proof.
  unfold isLegacy, keyCase. intros H. apply orb_false_iff in H.
  destruct H as [-> ->]. reflexivity.
Qed.

Lemma petsciiCase_plain (cs : string) (p : Z) :
  isLegacy cs = false -> petsciiCase cs p = ([], false).
Proof.
  unfold isLegacy, petsciiCase. intros H. apply orb_false_iff in H.
  destruct H as [-> _]. reflexivity.
Qed.

Lemma csiKey_plain (cs : string) (final : Z) (after : list Z) :
  isLegacy cs = false -> snd (fst (csiKey cs final after)) = false.
Proof.
  intros H. unfold csiKey.
  rewrite !(keyCase_plain cs) by assumption.
  rewrite !(petsciiCase_plain cs) by assumption.
  assert (Hp : isPETSCII cs = false).
  { unfold isLegacy in H. now apply orb_false_iff in H. }
  rewrite Hp.
  repeat match goal with
         | |- context [if ?t then _ else _] => destruct t
         end; reflexivity.
Qed.

Lemma ss3Key_plain (cs : string) (final : Z) :
  isLegacy cs = false -> snd (ss3Key cs final) = false.
Proof.
  intros H. unfold ss3Key.
  rewrite !(keyCase_plain cs) by assumption.
  rewrite !(petsciiCase_plain cs) by assumption.
  repeat match goal with
         | |- context [if ?t then _ else _] => destruct t
         end; reflexivity.
Qed.

Lemma translateANSIInputToLegacy_plain_upto (n : nat) (cs : string) :
  isLegacy cs = false ->
  forall inp, (List.length inp <= n)%nat ->
              translateANSIInputToLegacy inp cs = inp.
Proof.
  intros Hcs. induction n as [|n IH]; intros inp Hn.
  - destruct inp; [reflexivity | simpl in Hn; lia].
  - destruct inp as [|b rest]; [reflexivity|]. simpl in Hn.
    rewrite translateANSIInputToLegacy_cons. cbv zeta.
    rewrite (IH rest) by lia.
    destruct (b =? 27); [|reflexivity].
    destruct rest as [|n0 rest2]; [reflexivity|].
    destruct (n0 =? 91).
    + destruct rest2 as [|final after]; [reflexivity|].
      pose proof (csiKey_plain cs final after Hcs) as Hk.
      destruct (csiKey cs final after) as [[bytes mapped] extra].
      cbn [fst snd] in Hk. now rewrite Hk.
    + destruct (n0 =? 79); [|reflexivity].
      destruct rest2 as [|final after]; [reflexivity|].
      pose proof (ss3Key_plain cs final Hcs) as Hk.
      destruct (ss3Key cs final) as [bytes mapped].
      cbn [snd] in Hk. now rewrite Hk.
Qed.

Lemma translateANSIInputToLegacy_text (cs : string) (inp : list Z) :
  forallb (fun b => negb (b =? 0x1B)) inp = true ->
  translateANSIInputToLegacy inp cs = inp.
Proof.
  induction inp as [|b rest IH]; intros H; [reflexivity|].
  cbn [forallb] in H. apply andb_true_iff in H. destruct H as [Hb Hrest].
  apply negb_true_iff in Hb.
  rewrite (translateANSIInputToLegacy_byte cs b rest Hb). now rewrite IH.
Qed.

(** What is typed is sent on as it is when the character set is
    none of the three legacy sets, whatever the bytes, and for every
    character set when the bytes hold no [ESC]. *)
Theorem translateANSIInputToLegacy_identity (inp : list Z) (cs : string) :
  isLegacy cs = false \/ forallb (fun b => negb (b =? 0x1B)) inp = true ->
  translateANSIInputToLegacy inp cs = inp.
Proof.
  intros [H|H].
  - now apply (translateANSIInputToLegacy_plain_upto (List.length inp)).
  - now apply translateANSIInputToLegacy_text.
Qed.

Lemma translateANSIInputToLegacy_identity_witness :
  translateANSIInputToLegacy [0x1B; 91; 65; 0x1B; 79; 72; 0x1B; 91; 74] "CP437"
  = [0x1B; 91; 65; 0x1B; 79; 72; 0x1B; 91; 74].
Proof.
  apply translateANSIInputToLegacy_identity. left. reflexivity.
Defined.

(** X20: a CSI sequence with a parameter is never translated: after
    [ESC '['] a digit or a semicolon is no key the switch knows, so the
    sequence is sent on byte by byte.  The test for [ESC '[' '2' 'J']
    inside the case of ['J'] cannot succeed: [ESC '[' '2' 'J'] goes
    out as it came, in every character set, while [ESC '[' 'J'] becomes
    the PETSCII clear-screen code. *)
Theorem translateANSIInputToLegacy_parameters_pass
        (cs : string) (d : Z) (rest : list Z) :
  Normalize.isParam d = true ->
  translateANSIInputToLegacy (0x1B :: 91 :: d :: rest) cs
  = 0x1B :: 91 :: translateANSIInputToLegacy (d :: rest) cs /\
  translateANSIInputToLegacy (0x1B :: 91 :: 50 :: 74 :: rest) cs
  = 0x1B :: 91 :: 50 :: 74 :: translateANSIInputToLegacy rest cs /\
  (isPETSCII cs = true ->
   translateANSIInputToLegacy (0x1B :: 91 :: 74 :: rest) cs
   = 0x93 :: translateANSIInputToLegacy rest cs).
Proof.
  intros Hd.
  assert (Hpass : forall x tail,
             Normalize.isParam x = true ->
             translateANSIInputToLegacy (0x1B :: 91 :: x :: tail) cs
             = 0x1B :: 91 :: translateANSIInputToLegacy (x :: tail) cs).
  { intros x tail Hx. apply isParam_range in Hx.
    rewrite translateANSIInputToLegacy_cons.
    change (27 =? 27) with true. change (91 =? 91) with true. cbv iota zeta.
    unfold csiKey.
    repeat match goal with
           | |- context [x =? ?k] =>
               replace (x =? k) with false by (symmetry; apply Z.eqb_neq; lia)
           end.
    cbv iota.
    now rewrite (translateANSIInputToLegacy_byte cs 91) by reflexivity. }
  split; [now apply Hpass|]. split.
  - rewrite (Hpass 50 (74 :: rest) eq_refl).
    now rewrite !translateANSIInputToLegacy_byte by reflexivity.
  - intros Hp. rewrite translateANSIInputToLegacy_cons.
    change (27 =? 27) with true. change (91 =? 91) with true. cbv iota zeta.
    unfold csiKey, petsciiCase. cbn [Z.eqb Pos.eqb andb]. rewrite Hp.
    reflexivity.
Qed.

Lemma translateANSIInputToLegacy_parameters_pass_witness :
  translateANSIInputToLegacy (0x1B :: 91 :: 49 :: [59; 49; 72]) "PETSCIIU"
  = 0x1B :: 91 :: translateANSIInputToLegacy (49 :: [59; 49; 72]) "PETSCIIU".
Proof.
  apply (translateANSIInputToLegacy_parameters_pass "PETSCIIU" 49 [59; 49; 72]).
  reflexivity.
Defined.

Lemma isPETSCII_not_ATASCII (cs : string) :
  isPETSCII cs = true -> String.eqb cs "ATASCII" = false.
Proof.
  unfold isPETSCII. intros H. apply orb_true_iff in H.
  destruct H as [H|H]; apply String.eqb_eq in H; now subst cs.
Qed.

Lemma legacyKey_cases (cs : string) (k : Z) :
  legacyKey cs k = true ->
  k = 65 \/ k = 66 \/ k = 67 \/ k = 68 \/ (isPETSCII cs = true /\ k = 72).
Proof.
  unfold legacyKey, cursorKey. intros H.
  repeat (apply orb_true_iff in H; destruct H as [H|H]);
    try (apply Z.eqb_eq in H; tauto).
  apply andb_true_iff in H. destruct H as [Hp H]. apply Z.eqb_eq in H. tauto.
Qed.

(** A key PETSCII has a code for: what is typed becomes that one code,
    and the code comes back as the CSI sequence of the key. *)
Lemma petscii_key (cs : string) (intro k : Z) (rest : list Z) :
  isPETSCII cs = true -> intro = 91 \/ intro = 79 -> legacyKey cs k = true ->
  exists code,
    translateANSIInputToLegacy (0x1B :: intro :: k :: rest) cs
    = code :: translateANSIInputToLegacy rest cs /\
    forall c x, translateByte c code x = ([0x1B; 91; k], c, x).
Proof.
  intros Hp Hi Hk. pose proof (isPETSCII_not_ATASCII cs Hp) as Ha.
  apply legacyKey_cases in Hk.
  rewrite translateANSIInputToLegacy_cons.
  destruct Hi as [->| ->];
    destruct Hk as [->|[->|[->|[->|[_ ->]]]]];
    cbn [Z.eqb Pos.eqb]; cbv iota zeta;
    unfold csiKey, ss3Key, keyCase, petsciiCase; cbn [Z.eqb Pos.eqb andb];
    rewrite Hp, ?Ha; cbv iota beta; cbn [app];
    eexists; (split; [reflexivity | intros c x; reflexivity]).
Qed.

(** The same for ATASCII and the four cursor keys. *)
Lemma atascii_key (intro k : Z) (rest : list Z) :
  intro = 91 \/ intro = 79 -> cursorKey k = true ->
  exists code,
    translateANSIInputToLegacy (0x1B :: intro :: k :: rest) "ATASCII"
    = code :: translateANSIInputToLegacy rest "ATASCII" /\
    atasciiByte code = [0x1B; 91; k].
Proof.
  intros Hi Hk.
  assert (Hk' : legacyKey "ATASCII" k = true)
    by (unfold legacyKey; now rewrite Hk).
  apply legacyKey_cases in Hk'.
  rewrite translateANSIInputToLegacy_cons.
  destruct Hi as [->| ->];
    destruct Hk' as [->|[->|[->|[->|[Hp _]]]]]; try discriminate Hp;
    cbn [Z.eqb Pos.eqb]; cbv iota zeta;
    unfold csiKey, ss3Key, keyCase; cbn; eexists; (split; reflexivity).
Qed.

(** X21: the cursor keys make the round trip.  In a legacy session a
    run of cursor keys (and Home, which PETSCII knows), typed as
    [ESC '[' k] or as [ESC 'O' k], is sent out as one legacy code per
    key, and the same codes coming in from the remote system are
    translated back to the CSI sequences of the keys. *)
Theorem legacy_keys_round_trip (c : Client) (keys : list (Z * Z)) :
  isLegacy (charset c) = true ->
  Forall (fun key => (fst key = 91 \/ fst key = 79)
                     /\ legacyKey (charset c) (snd key) = true) keys ->
  snd (translateLegacyControls
         c (translateANSIInputToLegacy (flat_map keySeq keys) (charset c)))
  = flat_map keyCSI keys.
Proof.
  intros Hleg Hkeys. unfold translateLegacyControls.
  fold (isPETSCII (charset c)).
  destruct (isPETSCII (charset c)) eqn:Hp.
  - induction Hkeys as [|[intro k] keys [Hi Hk] _ IH]; [reflexivity|].
    cbn [flat_map keySeq keyCSI fst snd app].
    destruct (petscii_key (charset c) intro k (flat_map keySeq keys) Hp Hi Hk)
      as [code [-> Hcode]].
    rewrite translate_cons, Hcode. cbn [fst snd]. now rewrite IH.
  - unfold isLegacy in Hleg. rewrite Hp in Hleg. cbn [orb] in Hleg.
    rewrite Hleg. cbn [snd]. apply String.eqb_eq in Hleg.
    revert Hkeys. rewrite Hleg. intros Hkeys.
    induction Hkeys as [|[intro k] keys [Hi Hk] _ IH]; [reflexivity|].
    cbn [flat_map keySeq keyCSI fst snd app] in *.
    assert (Hk' : cursorKey k = true).
    { unfold legacyKey in Hk. apply orb_true_iff in Hk.
      destruct Hk as [Hk|Hk]; [exact Hk|].
      apply andb_true_iff in Hk. destruct Hk as [Hk _].
      vm_compute in Hk. discriminate Hk. }
    destruct (atascii_key intro k (flat_map keySeq keys) Hi Hk')
      as [code [-> Hcode]].
    cbn [translateATASCIIToANSI]. now rewrite Hcode, IH.
Qed.

Lemma legacy_keys_round_trip_witness :
  snd (translateLegacyControls
         (mkClient true "PETSCIIL" false 0 false false false false 40 25)
         (translateANSIInputToLegacy
            (flat_map keySeq [(91, 65); (79, 68); (91, 72)]) "PETSCIIL"))
  = flat_map keyCSI [(91, 65); (79, 68); (91, 72)].
Proof.
  apply (legacy_keys_round_trip
           (mkClient true "PETSCIIL" false 0 false false false false 40 25)
           [(91, 65); (79, 68); (91, 72)]).
  - reflexivity.
  - repeat (constructor; [split; [cbn; auto | reflexivity]|]). constructor.
Defined.

End LegacyInput.

(** ** The plain-text heuristic of legacy sessions *)
Section BypassFacts.
Import GoBytes Bypass.

Lemma countLoop_counts (data : list Z) :
  forall p n,
    countLoop data p n
    = (p + len (filter isPrintable data),
       n + len (filter (fun b => negb (isPrintable b) && (0x80 <=? b)) data)).
Proof.
  induction data as [|b rest IH]; intros p n.
  - cbn. f_equal; lia.
  - cbn [countLoop filter]. destruct (isPrintable b) eqn:Ep; cbn [negb andb].
    + rewrite IH, len_cons. f_equal. lia.
    + destruct (128 <=? b) eqn:Eh; rewrite IH, ?len_cons; f_equal; lia.
Qed.

Lemma isPrintable_low (b : Z) : isPrintable b = true -> b < 0x80.
Proof.
  unfold isPrintable. intros H.
  repeat (apply orb_true_iff in H; destruct H as [H|H]);
    try (apply Z.eqb_eq in H; lia).
  apply andb_true_iff in H. destruct H as [_ H]. apply Z.leb_le in H. lia.
Qed.

Lemma no_high_bytes (data : list Z) :
  len (filter (fun b => negb (isPrintable b) && (0x80 <=? b)) data) = 0
  <-> forallb (fun b => b <? 0x80) data = true.
Proof.
  induction data as [|b rest IH]; [now split|].
  cbn [filter forallb]. destruct (isPrintable b) eqn:Ep; cbn [negb andb].
  - apply isPrintable_low in Ep.
    replace (b <? 128) with true by (symmetry; apply Z.ltb_lt; lia).
    exact IH.
  - destruct (128 <=? b) eqn:Eh.
    + replace (b <? 128) with false
        by (symmetry; apply Z.ltb_ge; apply Z.leb_le in Eh; lia).
      rewrite len_cons. pose proof (len_nonneg (filter (fun b0 => negb (isPrintable b0) && (128 <=? b0)) rest)).
      split; [lia | discriminate].
    + replace (b <? 128) with true
        by (symmetry; apply Z.ltb_lt; apply Z.leb_gt in Eh; lia).
      exact IH.
Qed.

(** X22: a chunk of a legacy session is taken for plain text exactly
    when it is not empty, holds no byte from 0x80 on, and at least 85
    in 100 of its bytes are printable ASCII, carriage return, line feed
    or tab. *)
Theorem shouldBypassLegacyMapping_iff (data : list Z) :
  shouldBypassLegacyMapping data = true
  <-> data <> [] /\
      forallb (fun b => b <? 0x80) data = true /\
      85 * len data <= 100 * len (filter isPrintable data).
Proof.
  unfold shouldBypassLegacyMapping.
  destruct (len data =? 0) eqn:E0.
  - apply Z.eqb_eq in E0. destruct data; [|rewrite len_cons in E0;
      pose proof (len_nonneg data); lia].
    split; [discriminate | intros [H _]; congruence].
  - apply Z.eqb_neq in E0. pose proof (len_nonneg data) as Hn.
    rewrite countLoop_counts. cbn [Z.add].
    pose proof (len_nonneg (filter isPrintable data)) as Hp.
    rewrite Z.quot_div_nonneg by lia.
    rewrite andb_true_iff, Z.eqb_eq, Z.leb_le, no_high_bytes.
    assert (Hdiv : 85 <= len (filter isPrintable data) * 100 / len data
                   <-> 85 * len data <= 100 * len (filter isPrintable data)).
    { split; intros H.
      - pose proof (Z.mul_div_le (len (filter isPrintable data) * 100)
                                 (len data) ltac:(lia)). nia.
      - apply Z.div_le_lower_bound; lia. }
    rewrite Hdiv. split.
    + intros [H1 H2]. repeat split; try assumption. intros ->. now apply E0.
    + intros [_ [H1 H2]]. now split.
Qed.

End BypassFacts.

(** ** The terminal size and the dial of a curated entry *)
Section ControlFacts.
Import GoBytes GoStrings Telnet Server Control.




(** X24: [connectToBBS] dials only curated entries: what it dials is
    the host and port of the first entry of the list with the given
    ID, and only if that entry's protocol is ["telnet"] or ["ssh"];
    with an ID that is not in the list it dials nothing, leaves the
    client alone and answers with the error.  Of the client it sets
    the character set at most: the terminal size stays. *)
Theorem connectToBBS_dials_listed
        (approved : list BBSInfo) (c : Client) (bbsID : string) :
  let c' := fst (connectToBBS approved c bbsID) in
  let evs := snd (connectToBBS approved c bbsID) in
  (forall ev h p, In ev evs -> dialled ev = Some (h, p) ->
     exists bbs, In bbs approved /\ ID bbs = bbsID /\
                 Host bbs = h /\ Port bbs = p /\
                 (Protocol bbs = "telnet" \/ Protocol bbs = "ssh")%string) /\
  ((forall bbs, In bbs approved -> ID bbs <> bbsID) ->
   c' = c /\ evs = [SendJSON "error" ("BBS not found: " ++ bbsID)]) /\
  termCols c' = termCols c /\ termRows c' = termRows c.
Proof.
  cbv zeta. induction approved as [|bbs rest IH]; cbn [connectToBBS].
  - repeat split.
    intros ev h p [<-|[]] H. discriminate.
  - destruct (String.eqb (ID bbs) bbsID) eqn:Eid.
    + apply String.eqb_eq in Eid. cbn [fst snd]. split; [|split].
      * intros ev h p Hin Hd. exists bbs. split; [now left|]. split; [exact Eid|].
        destruct (String.eqb (Protocol bbs) "telnet") eqn:Et.
        -- destruct Hin as [<-|[]]. cbn in Hd. injection Hd as <- <-.
           apply String.eqb_eq in Et. auto.
        -- destruct (String.eqb (Protocol bbs) "ssh") eqn:Es; [|destruct Hin].
           destruct Hin as [<-|[]]. cbn in Hd. injection Hd as <- <-.
           apply String.eqb_eq in Es. auto.
      * intros Hno. exfalso. apply (Hno bbs); [now left | exact Eid].
      * destruct (negb (String.eqb (Encoding bbs) "")); now split.
    + destruct IH as [IH1 [IH2 IH3]]. split; [|split].
      * intros ev h p Hin Hd. destruct (IH1 ev h p Hin Hd) as [b [Hb Hrest]].
        exists b. split; [now right | exact Hrest].
      * intros Hno. apply IH2. intros b Hb. apply Hno. now right.
      * exact IH3.
Qed.

End ControlFacts.

(** ** Holding back the preamble of a legacy session *)
Section PreambleFacts.
Import GoBytes GoStrings Telnet PreambleHold.

Lemma shouldFlushLegacyPreamble_false (c : Client) (p : Preamble) (now : Z)
      (chunk : list Z) :
  shouldFlushLegacyPreamble c p now chunk = false ->
  chunk = [] \/ len (preambleBuf p) + len chunk <= 8192.
Proof.
  unfold shouldFlushLegacyPreamble.
  destruct (len chunk =? 0) eqn:E0.
  - intros _. left. apply Z.eqb_eq in E0. destruct chunk; [reflexivity|].
    rewrite len_cons in E0. pose proof (len_nonneg chunk). lia.
  - destruct (upperPETSCII c && _); [discriminate|].
    destruct (upperATASCII c && _); [discriminate|].
    destruct (1500 <? now - preambleStart p); [discriminate|].
    destruct (8192 <? len (preambleBuf p) + len chunk) eqn:E; [discriminate|].
    intros _. right. now apply Z.ltb_ge.
Qed.

Lemma setCharsetPreamble_OK (now : Z) (p : Preamble) (cs : string) :
  preambleOK (setCharsetPreamble now p cs).
Proof.
  unfold setCharsetPreamble, preambleOK.
  destruct (_ || _ || _)%bool; cbn; split; auto; lia.
Qed.

Lemma preambleStep_OK (c : Client) (p : Preamble) (now : Z) (data : list Z) :
  upperPETSCII c || upperATASCII c = true -> preambleOK p ->
  preambleOK (fst (preambleStep c p now data)) /\
  match snd (preambleStep c p now data) with
  | Some bytes => bytes
  | None => []
  end ++ preambleBuf (fst (preambleStep c p now data))
  = preambleBuf p ++ data.
Proof.
  intros Hleg [Hoff Hlen]. unfold preambleStep. rewrite Hleg. cbn [andb].
  destruct (preambleActive p) eqn:Ha.
  - destruct (shouldFlushLegacyPreamble c _ now data) eqn:Ef; cbn [fst snd].
    + split; [split; cbn; auto; lia|]. cbn. apply app_nil_r.
    + split; [|reflexivity].
      apply shouldFlushLegacyPreamble_false in Ef. cbn [preambleBuf] in Ef.
      split; cbn [preambleActive preambleBuf]; [congruence|].
      destruct Ef as [->|Ef]; [now rewrite app_nil_r|].
      pose proof (len_nonneg data). lia.
  - cbn [fst snd]. split; [split; [intros _; now apply Hoff | exact Hlen]|].
    rewrite (Hoff eq_refl). now rewrite app_nil_r.
Qed.

(** X25: the preamble hold of a legacy session loses nothing and keeps
    to its buffer.  Started from fields as [setCharsetAndAdjust] leaves
    them, over any run of chunks: what the display pipeline went on
    with, put end to end, followed by what is still held, is the
    stream that came in; the held bytes never exceed 8192; and once
    the hold is off nothing is held and every chunk goes on as it
    came. *)
Theorem preamble_hold_lossless
        (c : Client) (p : Preamble) (chunks : list (Z * list Z)) :
  upperPETSCII c || upperATASCII c = true -> preambleOK p ->
  let p' := fst (preambleRun c p chunks) in
  let outs := snd (preambleRun c p chunks) in
  List.concat outs ++ preambleBuf p'
  = preambleBuf p ++ List.concat (map snd chunks) /\
  preambleOK p' /\
  (preambleActive p = false -> p' = p /\ outs = map snd chunks).
Proof.
  intros Hleg. cbv zeta. revert p.
  induction chunks as [|[now data] chunks IH]; intros p Hok.
  - cbn [preambleRun map List.concat fst snd app]. rewrite app_nil_r.
    split; [reflexivity|]. split; [exact Hok|]. intros _. now split.
  - cbn [preambleRun map List.concat snd].
    destruct (preambleStep_OK c p now data Hleg Hok) as [Hok1 Hstep].
    assert (Hoff : preambleActive p = false ->
                   preambleStep c p now data = (p, Some data)).
    { intros Ha. unfold preambleStep. rewrite Ha. now rewrite andb_false_r. }
    destruct (preambleStep c p now data) as [p1 out]. cbn [fst snd] in *.
    destruct (IH p1 Hok1) as [IH1 [IH2 IH3]].
    destruct (preambleRun c p1 chunks) as [p2 outs]. cbn [fst snd] in *.
    split; [|split].
    + rewrite app_assoc, <- Hstep, <- app_assoc, <- IH1.
      destruct out as [bytes|]; cbn [List.concat app];
        now rewrite ?app_assoc.
    + exact IH2.
    + intros Ha. specialize (Hoff Ha). injection Hoff as -> ->.
      destruct (IH3 Ha) as [-> ->]. now split.
Qed.

Lemma preamble_hold_lossless_witness :
  List.concat
    (snd (preambleRun
            (mkClient true "petsciiu" false 0 false false false false 40 25)
            (setCharsetPreamble 0 (mkPreamble false [] 0) "petsciiu")
            [(100, [76; 79]); (200, [71; 0x93; 79]); (300, [78])]))
  ++ preambleBuf
       (fst (preambleRun
               (mkClient true "petsciiu" false 0 false false false false 40 25)
               (setCharsetPreamble 0 (mkPreamble false [] 0) "petsciiu")
               [(100, [76; 79]); (200, [71; 0x93; 79]); (300, [78])]))
  = preambleBuf (setCharsetPreamble 0 (mkPreamble false [] 0) "petsciiu")
      ++ [76; 79; 71; 0x93; 79; 78].
Proof.
  apply (preamble_hold_lossless
           (mkClient true "petsciiu" false 0 false false false false 40 25)
           (setCharsetPreamble 0 (mkPreamble false [] 0) "petsciiu")
           [(100, [76; 79]); (200, [71; 0x93; 79]); (300, [78])]).
  - reflexivity.
  - apply setCharsetPreamble_OK.
Defined.

End PreambleFacts.

(** ** The ANSI music detector *)
Section MusicFacts.
Import GoBytes Music.

Lemma findTerm_none (l : list Z) :
  forallb (fun b => negb (musicEnd b)) l = true -> findTerm l = None.
Proof.
  induction l as [|x l IH]; [reflexivity|]. cbn [forallb findTerm].
  intros H. apply andb_true_iff in H. destruct H as [Hx Hl].
  apply negb_true_iff in Hx. unfold musicEnd in Hx.
  apply orb_false_iff in Hx. destruct Hx as [Hx ->]. rewrite Hx.
  now rewrite (IH Hl).
Qed.

Lemma findTerm_closed (payload post : list Z) (term : Z) :
  forallb (fun b => negb (musicEnd b)) payload = true ->
  (term =? 0x07) || (term =? 0x0E) || (term =? 0x0F) = true ->
  findTerm (payload ++ term :: post) = Some (payload, post).
Proof.
  intros Hp Ht. induction payload as [|x l IH]; cbn [app findTerm].
  - now rewrite Ht.
  - cbn [forallb] in Hp. apply andb_true_iff in Hp. destruct Hp as [Hx Hl].
    apply negb_true_iff in Hx. unfold musicEnd in Hx.
    apply orb_false_iff in Hx. destruct Hx as [Hx ->]. rewrite Hx.
    now rewrite (IH Hl).
Qed.

Lemma findTerm_length (l payload tail : list Z) :
  findTerm l = Some (payload, tail) ->
  (List.length tail <= List.length l)%nat.
Proof.
  revert payload. induction l as [|x l IH]; intros payload; [discriminate|].
  cbn [findTerm]. destruct ((x =? 7) || (x =? 14) || (x =? 15)).
  - intros H. injection H as _ <-. simpl. lia.
  - destruct (x =? 27).
    + destruct l as [|y l'].
      * intros H. injection H as _ <-. lia.
      * destruct (y =? 92); intros H; injection H as _ <-; simpl; lia.
    + destruct (findTerm l) as [[pl tl]|]; [|discriminate].
      intros H. injection H as _ <-. specialize (IH pl eq_refl). simpl. lia.
Qed.

Lemma findIntro_length (l pre body : list Z) (intro : Z) :
  findIntro l = Some (pre, intro, body) ->
  (List.length body + 3 <= List.length l)%nat.
Proof.
  revert pre. induction l as [|b rest IH]; intros pre; [discriminate|].
  cbn [findIntro].
  assert (Hnext : match findIntro rest with
                  | Some (pre0, intro0, body0) => Some (b :: pre0, intro0, body0)
                  | None => None
                  end = Some (pre, intro, body) ->
                  (List.length body + 3 <= List.length (b :: rest))%nat).
  { destruct (findIntro rest) as [[[pre0 intro0] body0]|]; [|discriminate].
    intros H. injection H as _ <- <-. specialize (IH pre0 eq_refl). simpl. lia. }
  destruct rest as [|n [|x body0]]; try exact Hnext.
  destruct ((b =? 27) && (n =? 91) && ((x =? 124) || (x =? 77) || (x =? 78)));
    [|exact Hnext].
  intros H. injection H as _ _ <-. simpl. lia.
Qed.

Lemma findIntro_first (pre body : list Z) (intro : Z) :
  forallb (fun b => negb (b =? 0x1B)) pre = true -> musicIntro intro = true ->
  findIntro (pre ++ 0x1B :: 91 :: intro :: body) = Some (pre, intro, body).
Proof.
  intros Hpre Hi. induction pre as [|b pre IH].
  - cbn [app findIntro]. unfold musicIntro in Hi.
    change (27 =? 27) with true. change (91 =? 91) with true. cbn [andb].
    now rewrite Hi.
  - cbn [forallb] in Hpre. apply andb_true_iff in Hpre.
    destruct Hpre as [Hb Hpre]. apply negb_true_iff in Hb.
    cbn [app findIntro]. rewrite (IH Hpre).
    destruct (pre ++ 27 :: 91 :: intro :: body) as [|n [|x body0]];
      try reflexivity.
    now rewrite Hb.
Qed.

(** The accumulators of the scan are only added to. *)
Lemma scanLoop_acc (fuel : nat) :
  forall p out consumed emitted data,
    scanLoop fuel p out consumed emitted data
    = let '(p', o, c, e) := scanLoop fuel p [] false [] data in
      (p', out ++ o, consumed || c, emitted ++ e).
Proof.
  induction fuel as [|fuel IH]; intros p out consumed emitted data.
  - cbn. now rewrite orb_false_r, app_nil_r.
  - cbn [scanLoop].
    destruct (findIntro data) as [[[pre intro] body]|].
    + destruct (findTerm body) as [[payload tail]|].
      * rewrite (IH p (out ++ pre)), (IH p ([] ++ pre) true).
        destruct (scanLoop fuel p [] false [] tail) as [[[p' o] c] e].
        cbn [app orb]. now rewrite orb_true_r, !app_assoc.
      * cbn [app]. now rewrite orb_true_r, app_nil_r.
    + cbn [app]. now rewrite orb_false_r, app_nil_r.
Qed.

Lemma scanLoop_fuel (f1 : nat) :
  forall f2 p out consumed emitted data,
    (List.length data <= f1)%nat -> (List.length data <= f2)%nat ->
    scanLoop f1 p out consumed emitted data
    = scanLoop f2 p out consumed emitted data.
Proof.
  induction f1 as [|f1 IH]; intros f2 p out consumed emitted data H1 H2.
  - destruct data; [|simpl in H1; lia]. now destruct f2.
  - destruct f2 as [|f2].
    + destruct data; [reflexivity | simpl in H2; lia].
    + cbn [scanLoop].
      destruct (findIntro data) as [[[pre intro] body]|] eqn:Ei; [|reflexivity].
      destruct (findTerm body) as [[payload tail]|] eqn:Et; [|reflexivity].
      apply findIntro_length in Ei. apply findTerm_length in Et.
      apply IH; lia.
Qed.

(** X26: an unterminated music sequence swallows what follows it.
    [ESC '[' 'M'] (which is also the ANSI delete-line sequence),
    [ESC '[' '|'] or [ESC '[' 'N'] after text without [ESC] starts a
    music sequence; as long as no BEL, SO, SI or [ESC] arrives, the
    text before the introducer is all that reaches the display,
    nothing is emitted, and every byte since the introducer is kept in
    the buffer, which has no bound. *)
Theorem music_sequence_swallows
        (pre body : list Z) (intro : Z) (chunks : list (list Z)) :
  forallb (fun b => negb (b =? 0x1B)) pre = true -> musicIntro intro = true ->
  forallb (fun b => negb (musicEnd b)) body = true ->
  forallb (forallb (fun b => negb (musicEnd b))) chunks = true ->
  feed NewAnsiMusicProcessor
       ((pre ++ [0x1B; 91; intro] ++ body) :: chunks)
  = (mkMusic true ([0x1B; 91; intro] ++ body ++ List.concat chunks), pre, []).
Proof.
  intros Hpre Hi Hbody Hchunks.
  assert (Hheld : forall chunks held,
             forallb (fun b => negb (musicEnd b)) held = true ->
             forallb (forallb (fun b => negb (musicEnd b))) chunks = true ->
             feed (mkMusic true ([0x1B; 91; intro] ++ held)) chunks
             = (mkMusic true ([0x1B; 91; intro] ++ held ++ List.concat chunks),
                [], [])).
  { clear chunks Hchunks. induction chunks as [|d chunks IH]; intros held Hh Hc.
    - cbn. now rewrite app_nil_r.
    - cbn [forallb] in Hc. apply andb_true_iff in Hc. destruct Hc as [Hd Hc].
      cbn [feed List.concat]. unfold Process.
      destruct (len d =? 0) eqn:E0.
      + apply Z.eqb_eq in E0. destruct d; [|rewrite len_cons in E0;
          pose proof (len_nonneg d); lia].
        rewrite (IH held Hh Hc). reflexivity.
      + cbn [inSeq buffer]. unfold tryEmitFromBuffer. cbn [inSeq buffer negb orb].
        replace (len (([27; 91; intro] ++ held) ++ d) <? 3) with false
          by (symmetry; apply Z.ltb_ge; cbn [app]; rewrite !len_cons;
              pose proof (len_nonneg (held ++ d)); lia).
        change (from 3 (([27; 91; intro] ++ held) ++ d)) with (held ++ d).
        rewrite findTerm_none by (rewrite forallb_app; now rewrite Hh, Hd).
        replace (mkMusic true (([27; 91; intro] ++ held) ++ d))
          with (mkMusic true ([27; 91; intro] ++ held ++ d))
          by (now rewrite <- app_assoc).
        rewrite (IH (held ++ d)) by (rewrite ?forallb_app; now rewrite ?Hh, ?Hd).
        now rewrite <- app_assoc. }
  cbn [feed]. unfold Process.
  replace (len (pre ++ [27; 91; intro] ++ body) =? 0) with false
    by (symmetry; apply Z.eqb_neq; rewrite len_app; cbn [app];
        rewrite !len_cons; pose proof (len_nonneg pre);
        pose proof (len_nonneg body); lia).
  cbn [inSeq NewAnsiMusicProcessor]. unfold scan.
  replace (len (pre ++ [27; 91; intro] ++ body) =? 0) with false
    by (symmetry; apply Z.eqb_neq; rewrite len_app; cbn [app];
        rewrite !len_cons; pose proof (len_nonneg pre);
        pose proof (len_nonneg body); lia).
  destruct (List.length (pre ++ [27; 91; intro] ++ body)) as [|n] eqn:En.
  { rewrite length_app in En. simpl in En. lia. }
  cbn [scanLoop app]. rewrite (findIntro_first pre body intro Hpre Hi).
  rewrite (findTerm_none body Hbody).
  change (27 :: 91 :: intro :: body) with ([27; 91; intro] ++ body).
  rewrite (Hheld chunks body Hbody Hchunks). cbn [app]. now rewrite app_nil_r.
Qed.

Lemma music_sequence_swallows_witness :
  feed NewAnsiMusicProcessor
       (([72; 105] ++ [0x1B; 91; 77] ++ [76; 105; 110; 101; 13; 10])
          :: [[109; 111; 114; 101]; [116; 101; 120; 116]])
  = (mkMusic true ([0x1B; 91; 77] ++ [76; 105; 110; 101; 13; 10]
                     ++ List.concat [[109; 111; 114; 101]; [116; 101; 120; 116]]),
     [72; 105], []).
Proof.
  apply (music_sequence_swallows
           [72; 105] [76; 105; 110; 101; 13; 10] 77
           [[109; 111; 114; 101]; [116; 101; 120; 116]]);
    reflexivity.
Defined.

Lemma scan_from (p : AnsiMusicProcessor) (out : list Z) (emitted : list (list Z))
      (data : list Z) (fuel : nat) :
  (List.length data <= fuel)%nat ->
  scanLoop fuel p out true emitted data
  = let '(p', o, c, e) := scan p data in (p', out ++ o, true, emitted ++ e).
Proof.
  intros Hf. unfold scan. destruct (len data =? 0) eqn:E0.
  - apply Z.eqb_eq in E0. destruct data; [|rewrite len_cons in E0;
      pose proof (len_nonneg data); lia].
    destruct fuel; cbn; now rewrite !app_nil_r.
  - rewrite scanLoop_acc.
    rewrite (scanLoop_fuel fuel (List.length data)) by lia.
    now destruct (scanLoop (List.length data) p [] false [] data)
      as [[[p' o] c] e].
Qed.

Lemma len_intro_pos (pre x : list Z) (intro : Z) :
  (len (pre ++ 27 :: 91 :: intro :: x) =? 0) = false.
Proof.
  apply Z.eqb_neq. rewrite len_app, !len_cons.
  pose proof (len_nonneg pre). pose proof (len_nonneg x). lia.
Qed.

(** A chunk that ends inside a music sequence. *)
Lemma Process_opens (pre body : list Z) (intro : Z) :
  forallb (fun b => negb (b =? 0x1B)) pre = true -> musicIntro intro = true ->
  forallb (fun b => negb (musicEnd b)) body = true ->
  Process NewAnsiMusicProcessor (pre ++ 0x1B :: 91 :: intro :: body)
  = (mkMusic true (0x1B :: 91 :: intro :: body), pre, true, []).
Proof.
  intros Hpre Hi Hbody. unfold Process. rewrite len_intro_pos.
  cbn [inSeq NewAnsiMusicProcessor]. unfold scan. rewrite len_intro_pos.
  destruct (List.length (pre ++ 27 :: 91 :: intro :: body)) as [|n] eqn:En.
  { rewrite length_app in En. simpl in En. lia. }
  cbn [scanLoop app]. rewrite (findIntro_first pre body intro Hpre Hi).
  now rewrite (findTerm_none body Hbody).
Qed.

(** A chunk that brings the end of the sequence the processor is in. *)
Lemma Process_closes (held payload post : list Z) (intro term : Z) :
  forallb (fun b => negb (musicEnd b)) (held ++ payload) = true ->
  (term =? 0x07) || (term =? 0x0E) || (term =? 0x0F) = true ->
  Process (mkMusic true (0x1B :: 91 :: intro :: held)) (payload ++ term :: post)
  = let '(p3, rem, _, e) := scan NewAnsiMusicProcessor post in
    (p3, rem, true, emit (held ++ payload) ++ e).
Proof.
  intros Hpl Ht. unfold Process.
  replace (len (payload ++ term :: post) =? 0) with false
    by (symmetry; apply Z.eqb_neq; rewrite len_app, len_cons;
        pose proof (len_nonneg payload); pose proof (len_nonneg post); lia).
  cbn [inSeq buffer]. unfold tryEmitFromBuffer. cbn [inSeq buffer negb orb].
  replace (len ((27 :: 91 :: intro :: held) ++ payload ++ term :: post) <? 3)
    with false
    by (symmetry; apply Z.ltb_ge; cbn [app]; rewrite !len_cons;
        pose proof (len_nonneg (held ++ payload ++ term :: post)); lia).
  change (from 3 ((27 :: 91 :: intro :: held) ++ payload ++ term :: post))
    with (held ++ payload ++ term :: post).
  rewrite app_assoc, (findTerm_closed (held ++ payload) post term Hpl Ht).
  reflexivity.
Qed.

(** A chunk that holds a whole sequence. *)
Lemma Process_whole (pre payload post : list Z) (intro term : Z) :
  forallb (fun b => negb (b =? 0x1B)) pre = true -> musicIntro intro = true ->
  forallb (fun b => negb (musicEnd b)) payload = true ->
  (term =? 0x07) || (term =? 0x0E) || (term =? 0x0F) = true ->
  Process NewAnsiMusicProcessor
          (pre ++ 0x1B :: 91 :: intro :: payload ++ term :: post)
  = let '(p3, rem, _, e) := scan NewAnsiMusicProcessor post in
    (p3, pre ++ rem, true, emit payload ++ e).
Proof.
  intros Hpre Hi Hpl Ht. unfold Process. rewrite len_intro_pos.
  cbn [inSeq NewAnsiMusicProcessor]. unfold scan at 1. rewrite len_intro_pos.
  destruct (List.length (pre ++ 27 :: 91 :: intro :: payload ++ term :: post))
    as [|m] eqn:Em.
  { rewrite length_app in Em. simpl in Em. lia. }
  cbn [scanLoop app].
  rewrite (findIntro_first pre (payload ++ term :: post) intro Hpre Hi).
  rewrite (findTerm_closed payload post term Hpl Ht).
  rewrite scan_from.
  - fold NewAnsiMusicProcessor.
    now destruct (scan NewAnsiMusicProcessor post) as [[[p3 rem] more] e3].
  - rewrite length_app in Em. cbn [List.length] in Em.
    rewrite length_app in Em. cbn [List.length] in Em. lia.
Qed.

(** X27: a music sequence that is cut by the chunk boundary is put
    together again.  When the first chunk ends inside the payload of a
    sequence and the second brings the rest with its BEL, SO or SI, the
    detector shows, emits and keeps exactly what it does when both
    arrive as one chunk. *)
Theorem music_sequence_across_chunks
        (pre first second post : list Z) (intro term : Z) :
  forallb (fun b => negb (b =? 0x1B)) pre = true -> musicIntro intro = true ->
  forallb (fun b => negb (musicEnd b)) (first ++ second) = true ->
  (term =? 0x07) || (term =? 0x0E) || (term =? 0x0F) = true ->
  feed NewAnsiMusicProcessor
       [pre ++ [0x1B; 91; intro] ++ first; second ++ term :: post]
  = feed NewAnsiMusicProcessor
         [pre ++ [0x1B; 91; intro] ++ first ++ second ++ term :: post].
Proof.
  intros Hpre Hi Hpl Ht.
  assert (Hpl' := Hpl). rewrite forallb_app in Hpl'.
  apply andb_true_iff in Hpl'. destruct Hpl' as [H1 H2].
  cbn [feed app].
  rewrite (Process_opens pre first intro Hpre Hi H1).
  rewrite (Process_closes first second post intro term Hpl Ht).
  replace (first ++ second ++ term :: post)
    with ((first ++ second) ++ term :: post) by (now rewrite <- app_assoc).
  rewrite (Process_whole pre (first ++ second) post intro term Hpre Hi Hpl Ht).
  destruct (scan NewAnsiMusicProcessor post) as [[[p3 rem] more] e3].
  cbn [app]. now rewrite !app_nil_r.
Qed.

Lemma music_sequence_across_chunks_witness :
  feed NewAnsiMusicProcessor
       [[72; 105] ++ [0x1B; 91; 124] ++ [67; 68]; [69; 70] ++ 0x0E :: [33]]
  = feed NewAnsiMusicProcessor
         [[72; 105] ++ [0x1B; 91; 124] ++ [67; 68] ++ [69; 70] ++ 0x0E :: [33]].
Proof.
  apply (music_sequence_across_chunks [72; 105] [67; 68] [69; 70] [33] 124 0x0E);
    reflexivity.
Defined.

End MusicFacts.

(** ** The cursor tracker *)
Section CursorFacts.
Import GoBytes Telnet Normalize CursorTrack.

Lemma cursorLoop_text (pre tail : list Z) :
  forallb (fun b => negb (b =? 0x1B)) pre = true ->
  forall fuel cols rows row col,
    (List.length (pre ++ tail) <= fuel)%nat ->
    exists row' col',
      cursorLoop fuel cols rows row col (pre ++ tail)
      = cursorLoop (fuel - List.length pre) cols rows row' col' tail.
Proof.
  induction pre as [|b pre IH]; intros Hpre fuel cols rows row col Hf.
  - exists row, col. cbn [app List.length]. now rewrite Nat.sub_0_r.
  - cbn [forallb] in Hpre. apply andb_true_iff in Hpre.
    destruct Hpre as [Hb Hpre]. apply negb_true_iff in Hb.
    destruct fuel as [|fuel]; [simpl in Hf; lia|].
    cbn [app List.length] in Hf |- *. cbn [cursorLoop Nat.sub].
    rewrite Hb.
    destruct (b =? 13);
      [apply (IH Hpre); lia|].
    destruct (b =? 10);
      [apply (IH Hpre); lia|].
    destruct (32 <=? b); apply (IH Hpre); lia.
Qed.

Lemma cursorLoop_stops (x : Z) (fuel : nat) (cols rows row col : Z)
      (tail : list Z) :
  x <> 91 ->
  cursorLoop (S fuel) cols rows row col (0x1B :: x :: tail)
  = (row, col, 0x1B :: x :: tail).
Proof.
  intros Hx. cbn [cursorLoop]. change (27 =? 13) with false.
  change (27 =? 10) with false. change (27 =? 27) with true. cbv iota.
  now replace (x =? 91) with false by (symmetry; now apply Z.eqb_neq).
Qed.

Lemma updateCursorFrom_held (c : Client) (x : Z) (chunks : list (list Z)) :
  x <> 91 ->
  forall row col held,
    fold_left (updateCursorFrom c) chunks (mkCursor row col (0x1B :: x :: held))
    = mkCursor row col (0x1B :: x :: held ++ List.concat chunks).
Proof.
  intros Hx. induction chunks as [|d chunks IH]; intros row col held.
  - cbn. now rewrite app_nil_r.
  - cbn [fold_left List.concat]. unfold updateCursorFrom at 2.
    cbn [cursorSeqBuf cursorRow cursorCol app List.length].
    rewrite (cursorLoop_stops x _ _ _ _ _ _ Hx).
    rewrite (IH row col (held ++ d)). now rewrite <- app_assoc.
Qed.

(** X28: the tracker stops for good at the first [ESC] that is not
    followed by ['[']: such a sequence is taken as incomplete and kept,
    so every later chunk is only added to what is kept and the tracked
    position never moves again.  After text without [ESC], the
    sequence [ESC x] with [x] other than ['['] leaves the tracker in
    that state. *)
Theorem updateCursorFrom_stops
        (c : Client) (cur : Cursor) (pre rest : list Z) (x : Z)
        (chunks : list (list Z)) :
  cursorSeqBuf cur = [] ->
  forallb (fun b => negb (b =? 0x1B)) pre = true -> x <> 91 ->
  let stopped := updateCursorFrom c cur (pre ++ 0x1B :: x :: rest) in
  cursorSeqBuf stopped = 0x1B :: x :: rest /\
  fold_left (updateCursorFrom c) chunks stopped
  = mkCursor (cursorRow stopped) (cursorCol stopped)
             (0x1B :: x :: rest ++ List.concat chunks).
Proof.
  intros Hbuf Hpre Hx stopped.
  assert (Hs : cursorSeqBuf stopped = 0x1B :: x :: rest).
  { unfold stopped, updateCursorFrom. rewrite Hbuf. cbn [app].
    destruct (cursorLoop_text pre (27 :: x :: rest) Hpre
                (List.length (pre ++ 27 :: x :: rest))
                (termCols c) (termRows c) (cursorRow cur) (cursorCol cur)
                (le_n _)) as [row' [col' ->]].
    rewrite length_app. cbn [List.length].
    replace (List.length pre + S (S (List.length rest)) - List.length pre)%nat
      with (S (S (List.length rest))) by lia.
    now rewrite (cursorLoop_stops x _ _ _ _ _ _ Hx). }
  split; [exact Hs|].
  replace stopped
    with (mkCursor (cursorRow stopped) (cursorCol stopped) (0x1B :: x :: rest))
    at 1 by (rewrite <- Hs; now destruct stopped).
  now apply updateCursorFrom_held.
Qed.

Lemma updateCursorFrom_stops_witness :
  fold_left (updateCursorFrom
               (mkClient true "CP437" false 0 false false false false 80 25))
            [[0x1B; 91; 53; 66]; [72; 105]]
            (updateCursorFrom
               (mkClient true "CP437" false 0 false false false false 80 25)
               (mkCursor 1 1 []) ([72; 105] ++ 0x1B :: 55 :: [13; 10]))
  = mkCursor 1 3 (0x1B :: 55 :: [13; 10]
                    ++ List.concat [[0x1B; 91; 53; 66]; [72; 105]]).
Proof.
  apply (updateCursorFrom_stops
           (mkClient true "CP437" false 0 false false false false 80 25)
           (mkCursor 1 1 []) [72; 105] [13; 10] 55
           [[0x1B; 91; 53; 66]; [72; 105]]).
  - reflexivity.
  - reflexivity.
  - lia.
Defined.

Lemma wrap64_small (n : Z) : - 2 ^ 63 <= n < 2 ^ 63 -> wrap64 n = n.
Proof.
  intros H. unfold wrap64. rewrite Z.mod_small by lia. lia.
Qed.

Lemma clamp_onScreen (cols rows row col : Z) :
  1 <= cols -> 1 <= rows ->
  exists row' col',
    clamp cols rows row col = (cols, rows, row', col') /\
    1 <= row' <= rows /\ 1 <= col' <= cols.
Proof.
  intros Hc Hr. unfold clamp.
  replace (cols <=? 0) with false by (symmetry; apply Z.leb_gt; lia).
  replace (rows <=? 0) with false by (symmetry; apply Z.leb_gt; lia).
  eexists. eexists. split; [reflexivity|].
  destruct (row <? 1) eqn:E1; destruct (col <? 1) eqn:E2;
    repeat match goal with
           | |- context [if ?t then _ else _] => destruct t eqn:?
           end;
    repeat match goal with
           | H : (_ <? _) = true |- _ => apply Z.ltb_lt in H
           | H : (_ <? _) = false |- _ => apply Z.ltb_ge in H
           end; lia.
Qed.

Lemma cursorLoop_onScreen (fuel : nat) (cols rows : Z) :
  1 <= cols < 2 ^ 62 -> 1 <= rows < 2 ^ 62 ->
  forall buf row col,
    1 <= row <= rows -> 1 <= col <= cols ->
    1 <= fst (fst (cursorLoop fuel cols rows row col buf)) <= rows /\
    1 <= snd (fst (cursorLoop fuel cols rows row col buf)) <= cols.
Proof.
  intros Hc Hr. induction fuel as [|fuel IH]; intros buf row col Hrow Hcol.
  - cbn. now split.
  - cbn [cursorLoop]. destruct buf as [|b rest]; [cbn; now split|].
    destruct (b =? 13); [apply IH; lia|].
    destruct (b =? 10).
    { apply IH; [|lia]. rewrite wrap64_small by lia.
      destruct (rows <? row + 1) eqn:E; [lia|]. apply Z.ltb_ge in E. lia. }
    destruct (b =? 27).
    { destruct rest as [|n body]; [cbn; now split|].
      destruct (n =? 91); [|cbn; now split].
      destruct (csiFinal body) as [[[params fb] after]|]; [|cbn; now split].
      destruct (applyFinal fb (parseParams params) row col) as [row1 col1].
      destruct (clamp_onScreen cols rows row1 col1 ltac:(lia) ltac:(lia))
        as [row2 [col2 [-> [H2 H3]]]].
      now apply IH. }
    destruct (32 <=? b); [|now apply IH].
    apply IH; [lia|]. rewrite wrap64_small by lia.
    destruct (cols <? col + 1) eqn:E; [lia|]. apply Z.ltb_ge in E. lia.
Qed.

(** X29: the tracked cursor stays on the screen.  With a terminal size
    of at least 1x1 (and below 2^62), a cursor within the size is
    within the size after any chunk, whatever the parameters of the
    cursor sequences in it, however large. *)
Theorem updateCursorFrom_onScreen (c : Client) (cur : Cursor) (data : list Z) :
  1 <= termCols c < 2 ^ 62 -> 1 <= termRows c < 2 ^ 62 ->
  onScreen c cur -> onScreen c (updateCursorFrom c cur data).
Proof.
  intros Hc Hr [Hrow Hcol]. unfold onScreen, updateCursorFrom.
  pose proof (cursorLoop_onScreen
                (List.length (cursorSeqBuf cur ++ data))
                (termCols c) (termRows c) Hc Hr
                (cursorSeqBuf cur ++ data) (cursorRow cur) (cursorCol cur)
                Hrow Hcol) as H.
  destruct (cursorLoop _ _ _ _ _ _) as [[row col] leftover]. exact H.
Qed.

Lemma updateCursorFrom_onScreen_witness :
  onScreen (mkClient true "CP437" false 0 false false false false 80 25)
           (updateCursorFrom
              (mkClient true "CP437" false 0 false false false false 80 25)
              (mkCursor 1 1 [])
              [0x1B; 91; 57; 57; 57; 57; 57; 57; 57; 57; 57; 57; 57; 57; 57;
               57; 57; 57; 57; 57; 57; 66; 65; 13; 10]).
Proof.
  apply updateCursorFrom_onScreen.
  - cbn. lia.
  - cbn. lia.
  - unfold onScreen. cbn. lia.
Defined.

End CursorFacts.

(** ** The last step of the display pipeline *)
Section DisplayFacts.
Import GoBytes Normalize Display.

Lemma norm_no_CSI (l : list Z) :
  ~ occurs [0x1B; 91] l -> norm l = l.
Proof.
  induction l as [|b rest IH]; intros Hno; [reflexivity|].
  assert (Hs : startsCSI (b :: rest) = false).
  { destruct (startsCSI (b :: rest)) eqn:E; [|reflexivity]. exfalso.
    apply startsCSI_true in E. destruct E as [body E]. apply Hno.
    exists [], body. now rewrite E. }
  rewrite (norm_byte b rest Hs). f_equal. apply IH.
  intros [pre [post H]]. apply Hno. exists (b :: pre), post. now rewrite H.
Qed.

(** X30: the test in front of the final normalisation is only a short
    cut: what the final guard sends is the normalisation of its input
    in every case, a second normalisation would change nothing in it,
    and input that has been normalised already (as on the plain-text
    path of a legacy session) goes through unchanged. *)
Theorem finalGuard_normalises (outputData : list Z) :
  finalGuard outputData = normalizeCSISGRAny outputData /\
  normalizeCSISGRAny (finalGuard outputData) = finalGuard outputData /\
  finalGuard (normalizeCSISGRAny outputData) = normalizeCSISGRAny outputData.
Proof.
  assert (Hg : forall l, finalGuard l = normalizeCSISGRAny l).
  { intros l. unfold finalGuard.
    destruct (Contains l [27; 91]) eqn:E; [reflexivity|].
    rewrite normalizeCSISGRAny_norm. symmetry. apply norm_no_CSI.
    intros Hocc. apply Contains_true_iff in Hocc. congruence. }
  assert (Hi : forall l, normalizeCSISGRAny (normalizeCSISGRAny l)
                         = normalizeCSISGRAny l).
  { intros l. rewrite !normalizeCSISGRAny_norm.
    now apply (norm_idempotent_upto (List.length l)). }
  split; [apply Hg|]. split.
  - now rewrite Hg, Hi.
  - now rewrite Hg, Hi.
Qed.

End DisplayFacts.
